(** * wxffmpeg: the conversion worker of wx_ffmpeg_video_converter.cpp

    A shallow embedding of [make_output_path] and of [ConverterThread::Entry]
    (remux path and re-encode path), with the calls into libavformat,
    libavcodec, libswscale and wxWidgets recorded as a trace of events. *)

From Stdlib Require Import ZArith List String Ascii Bool Lia Floats.
From Stdlib Require Import Sorted.
From Stdlib Require DecimalString DecimalZ.
Import ListNotations.

Local Open Scope string_scope.
Local Open Scope list_scope.
Local Open Scope Z_scope.

(** ** std::string helpers used by [make_output_path] *)

Module StdString.

(** [s.find_last_of(set)]: the index of the last character of [s] that
    belongs to [set]; [None] stands for [std::string::npos]. *)
Fixpoint find_last_of (set : ascii -> bool) (s : string) : option nat :=
  match s with
  | EmptyString => None
  | String c s' =>
      match find_last_of set s' with
      | Some i => Some (S i)
      | None => if set c then Some O else None
      end
  end.

(** [s.substr(pos, n)] for [pos <= s.size()]. *)
Definition substr (s : string) (pos n : nat) : string := substring pos n s.

(** [s.substr(pos)]: everything from [pos] to the end. *)
Definition substr_from (s : string) (pos : nat) : string :=
  substring pos (String.length s - pos) s.

(** No character of [s] belongs to [set]. *)
Fixpoint none_of (set : ascii -> bool) (s : string) : bool :=
  match s with
  | EmptyString => true
  | String c s' => negb (set c) && none_of set s'
  end.

(** The argument ["/\\"] of the first search: slash or backslash. *)
Definition is_sep (c : ascii) : bool :=
  (Ascii.eqb c "/" || Ascii.eqb c "\")%bool.

(** The argument ['.'] of the second search. *)
Definition is_dot (c : ascii) : bool := Ascii.eqb c ".".

End StdString.

Import StdString.

(** ** make_output_path (lines 199-206) *)

Definition make_output_path (inPath outFmt : string) : string :=
  let p := find_last_of is_sep inPath in
  let dir := match p with
             | None => EmptyString
             | Some p => substr inPath 0 (p + 1)
             end in
  let base := match p with
              | None => inPath
              | Some p => substr_from inPath (p + 1)
              end in
  let dot := find_last_of is_dot base in
  let base := match dot with
              | Some dot => substr base 0 dot
              | None => base
              end in
  (dir ++ base ++ "_converted." ++ outFmt)%string.

(** A path splits as [dir ++ name] when [name] holds no separator and [dir] is
    empty or ends with one: [dir] is the directory part (separator included)
    and [name] the file name. *)
Definition ends_with_sep (dir : string) : Prop :=
  dir = EmptyString \/
  exists d c, dir = (d ++ String c EmptyString)%string /\ is_sep c = true.

(** ** Constants of the FFmpeg headers

    The headers of libavutil, libavcodec and libavformat are not part of the
    repository; the constants the source names are given with the values
    those headers define. *)

Module AV.

Definition INT64_MIN : Z := - 2 ^ 63.
Definition INT64_MAX : Z := 2 ^ 63 - 1.
Definition INT_MIN : Z := - 2 ^ 31.
Definition INT_MAX : Z := 2 ^ 31 - 1.

Definition MKTAG (a b c d : Z) : Z :=
  Z.lor a (Z.lor (Z.shiftl b 8) (Z.lor (Z.shiftl c 16) (Z.shiftl d 24))).
Definition FFERRTAG (a b c d : Z) : Z := - MKTAG a b c d.

Definition EAGAIN : Z := 11.
Definition AVERROR (e : Z) : Z := - e.
(** FFERRTAG('E','O','F',' ') and FFERRTAG('U','N','K','N'). *)
Definition AVERROR_EOF : Z := FFERRTAG 69 79 70 32.
Definition AVERROR_UNKNOWN : Z := FFERRTAG 85 78 75 78.

Definition AV_NOPTS_VALUE : Z := INT64_MIN.
Definition AV_TIME_BASE : Z := 1000000.
Definition AVFMT_NOFILE : Z := 1.
Definition AV_ROUND_NEAR_INF : Z := 5.
Definition AV_ROUND_PASS_MINMAX : Z := 8192.

End AV.

Import AV.

(** ** Data of the conversion *)

Record AVRational := { num : Z; den : Z }.

Inductive AVMediaType :=
| AVMEDIA_TYPE_UNKNOWN
| AVMEDIA_TYPE_VIDEO
| AVMEDIA_TYPE_AUDIO
| AVMEDIA_TYPE_DATA
| AVMEDIA_TYPE_SUBTITLE
| AVMEDIA_TYPE_ATTACHMENT.

Record AVCodecParameters := {
  codec_type : AVMediaType;
  codec_id : Z;
  codec_tag : Z;
  extradata : list Byte.byte
}.

Record AVStream := {
  codecpar : AVCodecParameters;
  time_base : AVRational;
  r_frame_rate : AVRational
}.

Record AVPacket := {
  stream_index : Z;
  pts : Z;
  dts : Z;
  duration : Z;
  pos : Z;
  data : list Byte.byte
}.

Record AVFrame := {
  frame_pts : Z;
  frame_data : list Byte.byte
}.

Definition is_video (s : AVStream) : bool :=
  match codec_type (codecpar s) with
  | AVMEDIA_TYPE_VIDEO => true
  | _ => false
  end.

(** ** Timestamp rescaling *)

(** [x / c] rounded to the nearest integer, a tie going away from zero
    ([0 < c]). *)
Definition round_near_inf (x c : Z) : Z :=
  if 0 <=? x then (x + c / 2) / c else - ((- x + c / 2) / c).

Definition clamp64 (r : Z) : Z := Z.max INT64_MIN (Z.min INT64_MAX r).

(** A 64-bit store of a value that may not fit: two's complement wrap. *)
Definition wrap64 (r : Z) : Z := (r + 2 ^ 63) mod 2 ^ 64 - 2 ^ 63.

(** Modelled from the spec: [av_rescale_q_rnd] is a libavutil function, absent
    from src/.  Section 4.3: "Rescaling uses round-to-nearest with ties
    resolved away from zero, and clamps to the representable min/max rather
    than overflowing"; the clamp is what the flag [AV_ROUND_PASS_MINMAX]
    (bit 13 of [rnd]) asks for, and [AV_ROUND_NEAR_INF] is the only rounding
    mode the source passes.  The value [a] in the time base [bq] becomes
    [a * bq / cq] in the time base [cq]. *)
Definition av_rescale_q_rnd (a : Z) (bq cq : AVRational) (rnd : Z) : Z :=
  let b := num bq * den cq in
  let c := num cq * den bq in
  let r := round_near_inf (a * b) c in
  if Z.testbit rnd 13 then clamp64 r else wrap64 r.

(** Modelled from the spec: [av_rescale_q], absent from src/, is the "plain
    rescale without rounding-mode clamping" of section 4.3: the same rounding
    with the flag left out. *)
Definition av_rescale_q (a : Z) (bq cq : AVRational) : Z :=
  av_rescale_q_rnd a bq cq AV_ROUND_NEAR_INF.

Definition PKT_RND : Z := Z.lor AV_ROUND_NEAR_INF AV_ROUND_PASS_MINMAX.

(** Modelled from the spec: [av_packet_rescale_ts], absent from src/, rescales
    the timestamps of an encoded packet with the "same rounding rule as
    section 4.3". *)
Definition av_packet_rescale_ts (p : AVPacket) (src dst : AVRational)
  : AVPacket :=
  {| stream_index := stream_index p;
     pts := av_rescale_q_rnd (pts p) src dst PKT_RND;
     dts := av_rescale_q_rnd (dts p) src dst PKT_RND;
     duration := av_rescale_q (duration p) src dst;
     pos := pos p;
     data := data p |}.

(** [pkt->stream_index = o] *)
Definition set_stream_index (p : AVPacket) (o : Z) : AVPacket :=
  {| stream_index := o; pts := pts p; dts := dts p;
     duration := duration p; pos := pos p; data := data p |}.

(** Lines 300-308 and 485-493: the rewriting of a packet that is copied from
    the input container to the output container. *)
Definition copy_packet (in_tb out_tb : AVRational) (out_index : Z)
  (p : AVPacket) : AVPacket :=
  {| stream_index := out_index;
     pts := av_rescale_q_rnd (pts p) in_tb out_tb PKT_RND;
     dts := av_rescale_q_rnd (dts p) in_tb out_tb PKT_RND;
     duration := av_rescale_q (duration p) in_tb out_tb;
     pos := -1;
     data := data p |}.

(** [av_interleaved_write_frame] takes the reference of the packet it is
    given: libavformat hands the packet back blank, as [av_packet_unref]
    leaves it, with [pts] and [dts] reset to [AV_NOPTS_VALUE], whether the
    write succeeded or not. *)
Definition blank_packet : AVPacket :=
  {| stream_index := 0; pts := AV_NOPTS_VALUE; dts := AV_NOPTS_VALUE;
     duration := 0; pos := -1; data := [] |}.

(** The packet [pkt] of the caller after
    [av_interleaved_write_frame(out_ctx, &pkt)]. *)
Definition after_write (pkt : AVPacket) : AVPacket := blank_packet.

(** ** Progress percentage (lines 318-321 and 470-473) *)

(** Conversion of an integer to [double], rounding to nearest. *)
Definition Z2F (z : Z) : float := SF2Prim (binary_normalize 53 1024 z 0 false).

(** The cast [(int) x]: truncation toward zero.  For a value outside the
    range of [int], an infinity or a NaN the cast is undefined in C++; the
    model takes what the x86 conversion instruction returns, [INT_MIN]. *)
Definition double_to_int (x : float) : Z :=
  match Prim2SF x with
  | S754_zero _ => 0
  | S754_finite s m e =>
      let v := if 0 <=? e then Z.pos m * 2 ^ e else Z.pos m / 2 ^ (- e) in
      let v := if s then - v else v in
      if (INT_MIN <=? v) && (v <=? INT_MAX) then v else INT_MIN
  | _ => INT_MIN
  end.

Definition av_q2d (q : AVRational) : float :=
  PrimFloat.div (Z2F (num q)) (Z2F (den q)).

Definition progress_pct (ts : Z) (tb : AVRational) (total : Z) : Z :=
  let x := PrimFloat.div
             (PrimFloat.mul
                (PrimFloat.mul (PrimFloat.mul (Z2F ts) (av_q2d tb))
                   (Z2F AV_TIME_BASE))
                (Z2F 100))
             (Z2F total) in
  let pct := double_to_int x in
  let pct := if pct <? 0 then 0 else pct in
  let pct := if pct >? 100 then 100 else pct in
  pct.

(** ** The world outside the worker

    What a buffered codec hands back on a receive call: a unit, or a failure
    with the code [- e], [e] positive (so [Fail 11] is "no output ready yet"). *)
Inductive recv (U : Type) :=
| Got (u : U)
| Fail (e : positive).
Arguments Got {U} u.
Arguments Fail {U} e.

(** The calls the worker makes and the answers it gets, in program order.
    Releases of frames, packets and the scaler are not traced. *)
Inductive event :=
| EvLog (s : string)                          (* Log(s) *)
| EvProgress (pct : Z)                        (* PostProgress(pct) *)
| EvSetRunning (b : bool)                     (* m_handler->setRunning(b) *)
| EvOpenInput (path : string) (ret : Z)       (* avformat_open_input *)
| EvFindStreamInfo (ret : Z)                  (* avformat_find_stream_info *)
| EvCloseInput                                (* avformat_close_input *)
| EvAllocOutput (fmt path : string) (ok : bool) (* avformat_alloc_output_context2 *)
| EvNewStream (ok : bool)                     (* avformat_new_stream *)
| EvParametersCopy (ret : Z)                  (* avcodec_parameters_copy *)
| EvFreeOutput                                (* avformat_free_context *)
| EvAvioOpen (path : string) (ret : Z)        (* avio_open *)
| EvAvioClose                                 (* avio_closep *)
| EvWriteHeader (ret : Z)                     (* avformat_write_header *)
| EvReadFrame (p : option AVPacket)           (* av_read_frame; None: ret < 0 *)
| EvFindDecoder (ok : bool)                   (* avcodec_find_decoder *)
| EvOpenDecoder (ret : Z)                     (* avcodec_open2(dec_ctx) *)
| EvFindEncoder (ok : bool)                   (* avcodec_find_encoder *)
| EvOpenEncoder (ret : Z)                     (* avcodec_open2(enc_ctx) *)
| EvFreeDecoder                               (* avcodec_free_context(&dec_ctx) *)
| EvFreeEncoder                               (* avcodec_free_context(&enc_ctx) *)
| EvSendPacket (p : option AVPacket) (ret : Z) (* avcodec_send_packet; None: NULL *)
| EvReceiveFrame (ret : Z)                    (* avcodec_receive_frame *)
| EvSendFrame (f : option AVFrame) (ret : Z)  (* avcodec_send_frame; None: NULL *)
| EvReceivePacket (ret : Z)                   (* avcodec_receive_packet *)
| EvWriteFrame (p : AVPacket) (ret : Z)       (* av_interleaved_write_frame *)
| EvWriteTrailer                              (* av_write_trailer *)
| EvTestDestroy (b : bool).                   (* TestDestroy() *)

(** One job and everything the libraries answer during it.  A codec is given
    by its behaviour: what a send call returns, and which units become ready
    for the receive calls, as a function of all that was sent before. *)
Record World := {
  m_input : string;
  m_outFormat : string;
  m_reencode : bool;
  w_open_input : Z;
  w_strerror : Z -> string;
  w_find_stream_info : Z;
  in_streams : list AVStream;
  in_duration : Z;
  (** the packets [av_read_frame] delivers before it first returns [ret < 0] *)
  in_packets : list AVPacket;
  w_alloc_output : bool;
  oformat_flags : Z;
  (** the [i]-th call of [avformat_new_stream] succeeds *)
  w_new_stream : nat -> bool;
  w_parameters_copy : AVCodecParameters -> Z;
  w_avio_open : Z;
  w_write_header : Z;
  (** time base of each output stream once the header is written *)
  out_time_base : Z -> AVRational;
  (** result of the [n]-th call of [av_interleaved_write_frame] *)
  w_write_frame : nat -> Z;
  (** result of the [n]-th call of [TestDestroy] *)
  w_test_destroy : nat -> bool;
  w_find_decoder : bool;
  w_open_decoder : Z;
  w_find_encoder : bool;
  w_open_encoder : Z;
  w_guess_frame_rate : AVRational;
  dec_send : list AVPacket -> AVPacket -> Z * list (recv AVFrame);
  enc_send : list AVFrame -> AVFrame -> Z * list (recv AVPacket);
  (** [avcodec_send_frame(enc_ctx, NULL)]: the units the encoder still held *)
  enc_flush : list AVFrame -> list (recv AVPacket);
  sws_scale : list Byte.byte -> list Byte.byte
}.

(** ** ConverterThread::Entry (lines 210-534) *)

(** [!(out_ctx->oformat->flags & AVFMT_NOFILE)] *)
Definition has_file (w : World) : bool :=
  Z.land (oformat_flags w) AVFMT_NOFILE =? 0.

Definition avio_closep (w : World) : list event :=
  if has_file w then [EvAvioClose] else [].

(** A step that emits events and then yields a result. *)
Definition emit {A : Type} (evs : list event) (r : list event * A)
  : list event * A :=
  (evs ++ fst r, snd r).

(** [ret == AVERROR(EAGAIN) || ret == AVERROR_EOF] *)
Definition again_or_eof (ret : Z) : bool :=
  (ret =? AVERROR EAGAIN) || (ret =? AVERROR_EOF).

(** The progress report of lines 318-322 and 470-474. *)
Definition progress_events (w : World) (ts : Z) (tb : AVRational)
  : list event :=
  if (in_duration w >? 0) && negb (ts =? AV_NOPTS_VALUE)
  then [EvProgress (progress_pct ts tb (in_duration w))]
  else [].

(** *** Stream mapping *)

(** The output streams created so far (their codec parameters), the vector
    [stream_mapping] and the counter [stream_index] / [out_stream_cnt]. *)
Record Mapper := {
  out_streams : list AVCodecParameters;
  stream_mapping : list Z;
  out_stream_cnt : Z
}.

(** Codec parameters of a stream fresh from [avformat_new_stream]. *)
Definition blank_codecpar : AVCodecParameters :=
  {| codec_type := AVMEDIA_TYPE_UNKNOWN; codec_id := 0; codec_tag := 0;
     extradata := [] |}.

Definition set_codec_tag (par : AVCodecParameters) (tag : Z)
  : AVCodecParameters :=
  {| codec_type := codec_type par; codec_id := codec_id par;
     codec_tag := tag; extradata := extradata par |}.

(** [v[i] = x] on a vector; the loops only write inside the vector. *)
Fixpoint vec_set (v : list Z) (i : nat) (x : Z) : list Z :=
  match v, i with
  | [], _ => []
  | _ :: v', O => x :: v'
  | y :: v', S i' => y :: vec_set v' i' x
  end.

Definition init_mapper (n : nat) : Mapper :=
  {| out_streams := []; stream_mapping := repeat (-1) n; out_stream_cnt := 0 |}.

(** The stream is created, filled and mapped. *)
Definition map_stream (m : Mapper) (i : nat) (par : AVCodecParameters)
  : Mapper :=
  {| out_streams := out_streams m ++ [par];
     stream_mapping := vec_set (stream_mapping m) i (out_stream_cnt m);
     out_stream_cnt := out_stream_cnt m + 1 |}.

(** The stream is created but the loop is left before it is mapped. *)
Definition unmapped_stream (m : Mapper) : Mapper :=
  {| out_streams := out_streams m ++ [blank_codecpar];
     stream_mapping := stream_mapping m;
     out_stream_cnt := out_stream_cnt m |}.

(** Lines 246-260: the loop over the input streams of the remux path, from
    stream [i] on; [ret] is the variable [ret] on entry. *)
Fixpoint remux_streams (w : World) (ins : list AVStream) (i : nat) (ret : Z)
  (m : Mapper) : list event * (Z * Mapper) :=
  match ins with
  | [] => ([], (ret, m))
  | in_stream :: rest =>
      if w_new_stream w i then
        let r := w_parameters_copy w (codecpar in_stream) in
        if r <? 0 then
          ([EvNewStream true; EvParametersCopy r;
            EvLog "Failed to copy codec parameters"],
           (r, unmapped_stream m))
        else
          emit [EvNewStream true; EvParametersCopy r]
            (remux_streams w rest (S i) r
               (map_stream m i (set_codec_tag (codecpar in_stream) 0)))
      else
        ([EvNewStream false; EvLog "Failed allocating output stream"],
         (AVERROR_UNKNOWN, m))
  end.

(** Lines 339-342: the first stream of kind video, [-1] when there is none. *)
Fixpoint find_video_from (ss : list AVStream) (i : Z) : Z :=
  match ss with
  | [] => -1
  | s :: rest => if is_video s then i else find_video_from rest (i + 1)
  end.

Definition find_video_stream (ss : list AVStream) : Z := find_video_from ss 0.

(** Lines 361-378: the loop over the input streams of the re-encode path. *)
Fixpoint transcode_streams (w : World) (video_stream_index : Z)
  (ins : list AVStream) (i : nat) (ret : Z) (m : Mapper)
  : list event * (Z * Mapper) :=
  match ins with
  | [] => ([], (ret, m))
  | in_stream :: rest =>
      if Z.of_nat i =? video_stream_index then
        if w_new_stream w i then
          emit [EvNewStream true]
            (transcode_streams w video_stream_index rest (S i) ret
               (map_stream m i blank_codecpar))
        else
          ([EvNewStream false; EvLog "Failed allocating output video stream"],
           (AVERROR_UNKNOWN, m))
      else
        if w_new_stream w i then
          let r := w_parameters_copy w (codecpar in_stream) in
          if r <? 0 then
            ([EvNewStream true; EvParametersCopy r;
              EvLog "Failed to copy codec parameters for non-video stream"],
             (r, unmapped_stream m))
          else
            emit [EvNewStream true; EvParametersCopy r]
              (transcode_streams w video_stream_index rest (S i) r
                 (map_stream m i (set_codec_tag (codecpar in_stream) 0)))
        else
          ([EvNewStream false; EvLog "Failed allocating output stream"],
           (AVERROR_UNKNOWN, m))
  end.

(** The test of lines 296 and 481,
    [pkt.stream_index >= (int)stream_mapping.size() ||
     stream_mapping[pkt.stream_index] < 0]: [None] when the packet is dropped,
    the output index otherwise.  [av_read_frame] delivers no negative stream
    index; the model drops such a packet. *)
Definition lookup_mapping (mapping : list Z) (i : Z) : option Z :=
  if (i <? 0) || (i >=? Z.of_nat (List.length mapping)) then None
  else match nth_error mapping (Z.to_nat i) with
       | Some o => if o <? 0 then None else Some o
       | None => None
       end.

Definition default_tb : AVRational := {| num := 0; den := 1 |}.

(** [in_ctx->streams[i]->time_base] *)
Definition in_time_base (w : World) (i : Z) : AVRational :=
  match nth_error (in_streams w) (Z.to_nat i) with
  | Some s => time_base s
  | None => default_tb
  end.

(** *** The packet loops *)

(** What the re-encode loop carries from one call to the next: what each
    codec was sent, the units each codec has ready, and how many times the
    muxer was written to and the cancellation flag polled. *)
Record Job := {
  dec_sent : list AVPacket;
  dec_ready : list (recv AVFrame);
  enc_sent : list AVFrame;
  enc_ready : list (recv AVPacket);
  n_write : nat;
  n_poll : nat
}.

Definition init_job : Job :=
  {| dec_sent := []; dec_ready := []; enc_sent := []; enc_ready := [];
     n_write := O; n_poll := O |}.

Section Loops.

Variable w : World.

(** Lines 292-326: the packet loop of the remux path; [nw] and [np] count the
    writes and the polls made so far.  The events of the loop up to the
    statement that leaves it.  Line 318 reads [pkt.pts] after line 310 has
    handed the packet to the muxer: the value read is the one that
    [av_interleaved_write_frame] leaves in the packet. *)
Fixpoint remux_loop (mapping : list Z) (pkts : list AVPacket) (nw np : nat)
  : list event :=
  match pkts with
  | [] => [EvReadFrame None]
  | pkt :: rest =>
      EvReadFrame (Some pkt) ::
      match lookup_mapping mapping (stream_index pkt) with
      | None => remux_loop mapping rest nw np
      | Some o =>
          let out_tb := out_time_base w o in
          let pkt' := copy_packet (in_time_base w (stream_index pkt)) out_tb
                        o pkt in
          let ret := w_write_frame w nw in
          EvWriteFrame pkt' ret ::
          if ret <? 0 then [EvLog "Error muxing packet"]
          else
            progress_events w (pts (after_write pkt')) out_tb ++
            EvTestDestroy (w_test_destroy w np) ::
            if w_test_destroy w np then [EvLog "Conversion cancelled"]
            else remux_loop mapping rest (S nw) (S np)
      end
  end.

Variable video_stream_index : Z.
Variable mapping : list Z.
(** [enc_ctx->time_base] *)
Variable enc_tb : AVRational.

(** [out_video_stream->index] and [out_video_stream->time_base] *)
Definition out_video_index : Z :=
  nth (Z.to_nat video_stream_index) mapping (-1).
Definition out_video_tb : AVRational := out_time_base w out_video_index.

(** Lines 462-463 and 507-508. *)
Definition mux_encoded (enc_pkt : AVPacket) : AVPacket :=
  set_stream_index (av_packet_rescale_ts enc_pkt enc_tb out_video_tb)
    out_video_index.

(** Lines 456-467: [while (ret >= 0)] over the packets of the encoder, whose
    ready units are [q].  [None]: the loop was left by [goto cleanup];
    otherwise the value of [ret], the units still ready and the write count. *)
Fixpoint receive_packets (q : list (recv AVPacket)) (ret : Z) (nw : nat)
  : list event * option (Z * list (recv AVPacket) * nat) :=
  if ret <? 0 then ([], Some (ret, q, nw))
  else
    match q with
    | [] => ([EvReceivePacket (AVERROR EAGAIN)], Some (AVERROR EAGAIN, [], nw))
    | Fail e :: q' =>
        let r := Z.neg e in
        if again_or_eof r then ([EvReceivePacket r], Some (r, q', nw))
        else ([EvReceivePacket r; EvLog "Error during encoding"], None)
    | Got enc_pkt :: q' =>
        let r := w_write_frame w nw in
        emit [EvReceivePacket 0; EvWriteFrame (mux_encoded enc_pkt) r]
          (if r <? 0 then ([EvLog "Error muxing encoded packet"], None)
           else receive_packets q' r (S nw))
    end.

(** Lines 448-450: the scaled frame. *)
Definition scale_frame (frame : AVFrame) : AVFrame :=
  {| frame_pts := frame_pts frame;
     frame_data := sws_scale w (frame_data frame) |}.

(** Lines 443-477: [while (ret >= 0)] over the frames of the decoder, whose
    ready units are [q].  [None]: left by [goto cleanup]; otherwise the units
    the decoder still has ready and the state of the job. *)
Fixpoint receive_frames (q : list (recv AVFrame)) (ret : Z) (j : Job)
  : list event * option (list (recv AVFrame) * Job) :=
  if ret <? 0 then ([], Some (q, j))
  else
    match q with
    | [] => ([EvReceiveFrame (AVERROR EAGAIN)], Some ([], j))
    | Fail e :: q' =>
        let r := Z.neg e in
        if again_or_eof r then ([EvReceiveFrame r], Some (q', j))
        else ([EvReceiveFrame r; EvLog "Error during decoding"], None)
    | Got frame :: q' =>
        let sws_frame := scale_frame frame in
        let '(r, outs) := enc_send w (enc_sent j) sws_frame in
        emit [EvReceiveFrame 0; EvSendFrame (Some sws_frame) r]
          (if r <? 0 then ([EvLog "Error sending frame to encoder"], None)
           else
             match receive_packets (enc_ready j ++ outs) r (n_write j) with
             | (evs, None) => (evs, None)
             | (evs, Some (r', eq', nw')) =>
                 let cancelled := w_test_destroy w (n_poll j) in
                 emit (evs ++
                       progress_events w (frame_pts frame)
                         (in_time_base w video_stream_index) ++
                       [EvTestDestroy cancelled])
                   (if cancelled then ([EvLog "Conversion cancelled"], None)
                    else
                      receive_frames q' r'
                        {| dec_sent := dec_sent j; dec_ready := dec_ready j;
                           enc_sent := enc_sent j ++ [sws_frame];
                           enc_ready := eq';
                           n_write := nw'; n_poll := S (n_poll j) |})
             end)
    end.

Definition set_decoder (j : Job) (sent : list AVPacket)
  (ready : list (recv AVFrame)) : Job :=
  {| dec_sent := sent; dec_ready := ready;
     enc_sent := enc_sent j; enc_ready := enc_ready j;
     n_write := n_write j; n_poll := n_poll j |}.

Definition count_write (j : Job) : Job :=
  {| dec_sent := dec_sent j; dec_ready := dec_ready j;
     enc_sent := enc_sent j; enc_ready := enc_ready j;
     n_write := S (n_write j); n_poll := n_poll j |}.

(** Lines 434-499: the packet loop of the re-encode path.  [None]: left by
    [goto cleanup]; [Some j]: left by [break], on to the flush of line 501. *)
Fixpoint transcode_loop (pkts : list AVPacket) (j : Job)
  : list event * option Job :=
  match pkts with
  | [] => ([EvReadFrame None], Some j)
  | pkt :: rest =>
      emit [EvReadFrame (Some pkt)]
        (if stream_index pkt =? video_stream_index then
           let '(ret, frames) := dec_send w (dec_sent j) pkt in
           emit [EvSendPacket (Some pkt) ret]
             (if ret <? 0 then
                ([EvLog "Error sending packet to decoder"], Some j)
              else
                match receive_frames (dec_ready j ++ frames) ret j with
                | (evs, None) => (evs, None)
                | (evs, Some (q', j')) =>
                    emit evs
                      (transcode_loop rest
                         (set_decoder j' (dec_sent j ++ [pkt]) q'))
                end)
         else
           match lookup_mapping mapping (stream_index pkt) with
           | None => transcode_loop rest j
           | Some o =>
               let pkt' := copy_packet (in_time_base w (stream_index pkt))
                             (out_time_base w o) o pkt in
               let ret := w_write_frame w (n_write j) in
               emit [EvWriteFrame pkt' ret]
                 (if ret <? 0 then
                    ([EvLog "Error muxing packet for non-video stream"], None)
                  else transcode_loop rest (count_write j))
           end)
  end.

(** Lines 503-511: the receive loop of the encoder flush. *)
Fixpoint flush_packets (q : list (recv AVPacket)) (nw : nat) : list event :=
  match q with
  | [] => [EvReceivePacket AVERROR_EOF]
  | Fail e :: _ =>
      let r := Z.neg e in
      if again_or_eof r then [EvReceivePacket r]
      else [EvReceivePacket r; EvLog "Error flushing encoder"]
  | Got enc_pkt :: q' =>
      EvReceivePacket 0 ::
      EvWriteFrame (mux_encoded enc_pkt) (w_write_frame w nw) ::
      flush_packets q' (S nw)
  end.

(** Lines 501-513: flush of the encoder, then the trailer. *)
Definition flush_encoder (j : Job) : list event :=
  EvSendFrame None 0 ::
  flush_packets (enc_ready j ++ enc_flush w (enc_sent j)) (n_write j) ++
  [EvWriteTrailer].

End Loops.

(** *** The two paths and the entry point *)

Definition av_inv_q (q : AVRational) : AVRational :=
  {| num := den q; den := num q |}.

(** Lines 391-394: the frame rate of the encoder and its time base. *)
Definition encoder_framerate (w : World) (video_stream_index : Z)
  : AVRational :=
  let framerate := w_guess_frame_rate w in
  let framerate :=
    if num framerate =? 0 then
      match nth_error (in_streams w) (Z.to_nat video_stream_index) with
      | Some s => r_frame_rate s
      | None => framerate
      end
    else framerate in
  if num framerate =? 0 then {| num := 25; den := 1 |} else framerate.

Definition encoder_time_base (w : World) (video_stream_index : Z)
  : AVRational :=
  av_inv_q (encoder_framerate w video_stream_index).

Definition remux_finished (out_filename : string) : string :=
  ("Remux finished. Output: " ++ out_filename)%string.

Definition conversion_finished (out_filename : string) : string :=
  ("Conversion finished. Output: " ++ out_filename)%string.

(** Lines 328-335: what follows the packet loop of the remux path. *)
Definition remux_finish (w : World) (out_filename : string) : list event :=
  EvWriteTrailer :: avio_closep w ++
  [EvCloseInput; EvFreeOutput; EvLog (remux_finished out_filename);
   EvSetRunning false].

(** Lines 237-336: the remux path. *)
Definition remux (w : World) (out_filename : string) : list event :=
  EvAllocOutput (m_outFormat w) out_filename (w_alloc_output w) ::
  if negb (w_alloc_output w) then
    [EvLog "Could not create output context (unsupported format?)";
     EvCloseInput; EvSetRunning false]
  else
    let '(evs, (ret, m)) :=
      remux_streams w (in_streams w) O (w_find_stream_info w)
        (init_mapper (List.length (in_streams w))) in
    evs ++
    if ret <? 0 then [EvCloseInput; EvFreeOutput; EvSetRunning false]
    else
      let header_and_loop :=
        EvWriteHeader (w_write_header w) ::
        if w_write_header w <? 0 then
          EvLog "Error occurred when writing header" :: avio_closep w ++
          [EvCloseInput; EvFreeOutput; EvSetRunning false]
        else
          remux_loop w (stream_mapping m) (in_packets w) O O ++
          remux_finish w out_filename in
      if has_file w then
        EvAvioOpen out_filename (w_avio_open w) ::
        if w_avio_open w <? 0 then
          [EvLog ("Could not open output file: "
                  ++ w_strerror w (w_avio_open w))%string;
           EvCloseInput; EvFreeOutput; EvSetRunning false]
        else header_and_loop
      else header_and_loop.

(** Lines 515-533: the block under the label [cleanup]. *)
Definition cleanup (w : World) (out_filename : string) : list event :=
  [EvFreeDecoder; EvFreeEncoder] ++ avio_closep w ++
  [EvFreeOutput; EvCloseInput; EvSetRunning false;
   EvLog (conversion_finished out_filename)].

(** Lines 434-533: the packet loop of the re-encode path and what follows. *)
Definition transcode_run (w : World) (video_stream_index : Z)
  (mapping : list Z) (out_filename : string) : list event :=
  let enc_tb := encoder_time_base w video_stream_index in
  let '(evs, exit) :=
    transcode_loop w video_stream_index mapping enc_tb (in_packets w)
      init_job in
  evs ++
  match exit with
  | Some j => flush_encoder w video_stream_index mapping enc_tb j
  | None => []
  end ++
  cleanup w out_filename.

(** Lines 338-534: the re-encode path. *)
Definition transcode (w : World) (out_filename : string) : list event :=
  let video_stream_index := find_video_stream (in_streams w) in
  if video_stream_index <? 0 then
    [EvLog "No video stream found for re-encoding"; EvCloseInput;
     EvSetRunning false]
  else
  EvFindDecoder (w_find_decoder w) ::
  if negb (w_find_decoder w) then
    [EvLog "Decoder not found"; EvCloseInput; EvSetRunning false]
  else
  EvOpenDecoder (w_open_decoder w) ::
  if w_open_decoder w <? 0 then
    [EvLog "Failed to open decoder"; EvFreeDecoder; EvCloseInput;
     EvSetRunning false]
  else
  EvAllocOutput (m_outFormat w) out_filename (w_alloc_output w) ::
  if negb (w_alloc_output w) then
    [EvLog "Could not create output context"; EvFreeDecoder; EvCloseInput;
     EvSetRunning false]
  else
  let '(evs, (ret, m)) :=
    transcode_streams w video_stream_index (in_streams w) O
      (w_open_decoder w) (init_mapper (List.length (in_streams w))) in
  evs ++
  if ret <? 0 then
    [EvCloseInput; EvFreeOutput; EvFreeDecoder; EvSetRunning false]
  else
  EvFindEncoder (w_find_encoder w) ::
  if negb (w_find_encoder w) then
    [EvLog "H.264 encoder not found"; EvCloseInput; EvFreeOutput;
     EvFreeDecoder; EvSetRunning false]
  else
  EvOpenEncoder (w_open_encoder w) ::
  if w_open_encoder w <? 0 then
    [EvLog "Failed to open encoder"; EvFreeEncoder; EvFreeOutput;
     EvFreeDecoder; EvCloseInput; EvSetRunning false]
  else
  let header_and_loop :=
    EvWriteHeader (w_write_header w) ::
    if w_write_header w <? 0 then
      EvLog "Error occurred when writing header" :: avio_closep w ++
      [EvFreeEncoder; EvFreeOutput; EvFreeDecoder; EvCloseInput;
       EvSetRunning false]
    else
      transcode_run w video_stream_index (stream_mapping m) out_filename in
  if has_file w then
    EvAvioOpen out_filename (w_avio_open w) ::
    if w_avio_open w <? 0 then
      [EvLog ("Could not open output file: "
              ++ w_strerror w (w_avio_open w))%string;
       EvFreeEncoder; EvFreeOutput; EvFreeDecoder; EvCloseInput;
       EvSetRunning false]
    else header_and_loop
  else header_and_loop.

(** Line 211. *)
Definition start_message (reencode : bool) : string :=
  if reencode then "Starting encoding conversion..."
  else "Starting remux (stream-copy) conversion...".

(** Lines 210-534: the worker, as the trace of what it does. *)
Definition Entry (w : World) : list event :=
  let out_filename := make_output_path (m_input w) (m_outFormat w) in
  EvLog (start_message (m_reencode w)) ::
  EvOpenInput (m_input w) (w_open_input w) ::
  if w_open_input w <? 0 then
    [EvLog ("Failed to open input: " ++ w_strerror w (w_open_input w))%string;
     EvSetRunning false]
  else
  EvFindStreamInfo (w_find_stream_info w) ::
  if w_find_stream_info w <? 0 then
    [EvLog "Failed to find stream info"; EvCloseInput; EvSetRunning false]
  else
  if negb (m_reencode w) then remux w out_filename
  else transcode w out_filename.

(** *** Reading a trace *)



Definition is_poll (e : event) : bool :=
  match e with EvTestDestroy _ => true | _ => false end.

Definition is_read (e : event) : bool :=
  match e with EvReadFrame (Some _) => true | _ => false end.

Definition is_video_send (e : event) : bool :=
  match e with EvSendPacket (Some _) _ => true | _ => false end.

Definition count (f : event -> bool) (tr : list event) : nat :=
  List.length (filter f tr).

(** Events of packet processing: reading, decoding, encoding, muxing. *)
Definition is_packet_work (e : event) : bool :=
  match e with
  | EvReadFrame _ | EvSendPacket _ _ | EvReceiveFrame _ | EvSendFrame _ _
  | EvReceivePacket _ | EvWriteFrame _ _ => true
  | _ => false
  end.

Definition is_cancel (e : event) : bool :=
  match e with EvTestDestroy true => true | _ => false end.

Definition is_frame (e : event) : bool :=
  match e with EvReceiveFrame 0 => true | _ => false end.

(** What the loops do once the poll has answered yes. *)
Definition cancel_tail : list event :=
  [EvTestDestroy true; EvLog "Conversion cancelled"].

(** Events that carry no packet, percentage or codec input. *)
Definition is_plain (e : event) : bool :=
  match e with
  | EvProgress _ | EvSendPacket _ _ | EvSendFrame _ _ | EvWriteFrame _ _ =>
      false
  | _ => true
  end.

(** The events a job can produce: [reencode] is the mode, [v] the index of the
    stream that is decoded, [pkts] the packets of the input. *)
Inductive traced (w : World) (reencode : bool) (v : Z)
  (pkts : list AVPacket) : event -> Prop :=
| tr_plain e : is_plain e = true -> traced w reencode v pkts e
| tr_progress ts tb :
    in_duration w > 0 -> ts <> AV_NOPTS_VALUE ->
    traced w reencode v pkts (EvProgress (progress_pct ts tb (in_duration w)))
| tr_send_packet p r :
    reencode = true -> In p pkts -> stream_index p = v ->
    traced w reencode v pkts (EvSendPacket (Some p) r)
| tr_send_frame f r :
    reencode = true -> traced w reencode v pkts (EvSendFrame f r)
| tr_copy p o r :
    In p pkts -> (reencode = true -> stream_index p <> v) ->
    traced w reencode v pkts
      (EvWriteFrame
         (copy_packet (in_time_base w (stream_index p)) (out_time_base w o)
            o p) r)
| tr_encoded enc_pkt src dst o r :
    reencode = true ->
    traced w reencode v pkts
      (EvWriteFrame
         (set_stream_index (av_packet_rescale_ts enc_pkt src dst) o) r).

(** Reading a packet and asking the decoder for a frame. *)
Definition is_decode_step (e : event) : bool :=
  match e with
  | EvReadFrame _ | EvReceiveFrame _ => true
  | _ => false
  end.

(** [r] is [x / c] rounded to the nearest integer, a tie going away from
    zero. *)
Definition nearest_away (x c r : Z) : Prop :=
  2 * Z.abs (r * c - x) <= c /\
  (2 * Z.abs (r * c - x) = c -> Z.abs x < Z.abs (r * c)).

(** [r] is the value [a], counted in units of [b / c], rounded as
    [nearest_away] says and then clamped to the 64-bit range. *)
Definition rescaled_clamped (a b c r : Z) : Prop :=
  exists q, nearest_away (a * b) c q /\
            INT64_MIN <= r <= INT64_MAX /\
            (INT64_MIN <= q <= INT64_MAX -> r = q) /\
            (q < INT64_MIN -> r = INT64_MIN) /\
            (INT64_MAX < q -> r = INT64_MAX).

(** The same without the clamp: nothing is said of a value that does not
    fit. *)
Definition rescaled_plain (a b c r : Z) : Prop :=
  exists q, nearest_away (a * b) c q /\
            (INT64_MIN <= q <= INT64_MAX -> r = q).

(** Events of the packet loop of the re-encode path. *)
Definition in_loop (e : event) : bool :=
  match e with
  | EvLog _ | EvProgress _ | EvReadFrame _ | EvSendPacket (Some _) _
  | EvReceiveFrame _ | EvSendFrame (Some _) _ | EvReceivePacket _
  | EvWriteFrame _ _ | EvTestDestroy _ => true
  | _ => false
  end.

(** Events of the part of a job that comes before the packet loop; a header
    written with success ends that part. *)
Definition is_setup (e : event) : bool :=
  match e with
  | EvLog _ | EvSetRunning _ | EvOpenInput _ _ | EvFindStreamInfo _
  | EvCloseInput | EvAllocOutput _ _ _ | EvNewStream _ | EvParametersCopy _
  | EvFreeOutput | EvAvioOpen _ _ | EvAvioClose | EvFindDecoder _
  | EvOpenDecoder _ | EvFindEncoder _ | EvOpenEncoder _ | EvFreeDecoder
  | EvFreeEncoder => true
  | EvWriteHeader ret => ret <? 0
  | _ => false
  end.

(** ** Predicates on traces *)

(** The mapping that keeps every stream at its own index. *)
Definition identity_mapping (n : nat) : list Z := map Z.of_nat (seq 0 n).

(** Lines 256-258: the parameters of an output stream that copies [s]. *)
Definition copied_parameters (s : AVStream) : AVCodecParameters :=
  set_codec_tag (codecpar s) 0.

(** A trace without cancellation, or one that ends with the poll that
    answered yes and the log line that follows it. *)
Definition cancel_end (tr : list event) : Prop :=
  Forall (fun e => is_cancel e = false) tr \/
  exists body, tr = body ++ cancel_tail /\
               Forall (fun e => is_cancel e = false) body.

(** How a loop ends with respect to cancellation: left towards the flush
    ([Some]) it saw no cancellation; left by [goto cleanup] it saw none, or it
    ends with the poll that answered yes and the log line. *)
Definition cancel_shape {A : Type} (r : list event * option A) : Prop :=
  match snd r with
  | Some _ => Forall (fun e => is_cancel e = false) (fst r)
  | None => cancel_end (fst r)
  end.

(** Events of the packet loop of the remux path. *)
Definition remux_event (w : World) (v : Z) (all : list AVPacket) (e : event)
  : Prop :=
  traced w false v all e /\ in_loop e = true.

(** Events of the packet loop of the re-encode path. *)
Definition loop_event (w : World) (v : Z) (all : list AVPacket) (e : event)
  : Prop :=
  traced w true v all e /\ in_loop e = true.

(** Events of the loop over the frames: no packet is read or sent to the
    decoder there. *)
Definition frame_event (w : World) (v : Z) (all : list AVPacket) (e : event)
  : Prop :=
  loop_event w v all e /\ is_video_send e = false /\ is_read e = false.

(** Events of the loops over the packets of the encoder: no poll and no
    frame either. *)
Definition codec_event (w : World) (v : Z) (all : list AVPacket) (e : event)
  : Prop :=
  loop_event w v all e /\ is_poll e = false /\ is_frame e = false /\
  is_video_send e = false /\ is_read e = false.

(** What the packet loop of the re-encode path keeps: its events are loop
    events, the flag is polled and a frame received at most once for each
    packet sent to the decoder, and cancellation ends it as [cancel_shape]
    says. *)
Definition run_facts {A : Type} (w : World) (v : Z) (all : list AVPacket)
  (r : list event * option A) : Prop :=
  Forall (loop_event w v all) (fst r) /\
  (count is_poll (fst r) <= count is_video_send (fst r))%nat /\
  (count is_frame (fst r) <= count is_video_send (fst r))%nat /\
  cancel_shape r.

(** A trace of set-up events only: the job ended before its packet loop. *)
Definition setup_only (tr : list event) : Prop :=
  Forall (fun e => is_setup e = true) tr.

(** Events of the parts around the packet loops: set-up, trailer, release. *)
Definition is_closing (e : event) : bool :=
  match e with
  | EvWriteTrailer => true
  | _ => is_setup e
  end.

(** The calls that finalize the output: a flush of a codec, the trailer. *)
Definition is_finalize (e : event) : bool :=
  match e with
  | EvWriteTrailer | EvSendFrame None _ | EvSendPacket None _ => true
  | _ => false
  end.

(** A job ends before its packet loop, or it writes the header and runs the
    loop of the remux path and what follows it, or it writes the header and
    runs the loop of the re-encode path and what follows it. *)
Inductive entry_shape (w : World) : Prop :=
| shape_early : setup_only (Entry w) -> entry_shape w
| shape_remux pre mapping :
    m_reencode w = false -> setup_only pre -> 0 <= w_write_header w ->
    Entry w =
      pre ++ EvWriteHeader (w_write_header w) ::
      remux_loop w mapping (in_packets w) O O ++
      remux_finish w (make_output_path (m_input w) (m_outFormat w)) ->
    entry_shape w
| shape_transcode pre mapping :
    m_reencode w = true -> setup_only pre -> 0 <= w_write_header w ->
    0 <= find_video_stream (in_streams w) ->
    Entry w =
      pre ++ EvWriteHeader (w_write_header w) ::
      transcode_run w (find_video_stream (in_streams w)) mapping
        (make_output_path (m_input w) (m_outFormat w)) ->
    entry_shape w.

(** ** What the stream loop of the re-encode path builds *)

(** Lines 365-377: the parameters of output stream [i]: a blank placeholder
    for the stream that is re-encoded, a copy with the tag cleared for every
    other stream. *)
Definition transcode_parameters (v : Z) (i : nat) (s : AVStream)
  : AVCodecParameters :=
  if Z.of_nat i =? v then blank_codecpar else copied_parameters s.

Fixpoint transcode_parameters_from (v : Z) (i : nat) (ins : list AVStream)
  : list AVCodecParameters :=
  match ins with
  | [] => []
  | s :: rest =>
      transcode_parameters v i s :: transcode_parameters_from v (S i) rest
  end.

(** ** Protocols a trace is checked against *)

(** A protocol is a step function on a state, [None] when the event is not
    allowed in that state; [run] follows a trace from a state. *)
Fixpoint run {S : Type} (step : S -> event -> option S) (st : S)
  (tr : list event) : option S :=
  match tr with
  | [] => Some st
  | e :: tr' =>
      match step st e with
      | Some st' => run step st' tr'
      | None => None
      end
  end.

(** Events of the stream loops (lines 246-260 and 361-378). *)
Definition is_stream_step (e : event) : bool :=
  match e with
  | EvNewStream _ | EvParametersCopy _ | EvLog _ => true
  | _ => false
  end.

(** Events of the packet loop of the remux path (lines 292-326). *)
Definition is_remux_step (e : event) : bool :=
  match e with
  | EvReadFrame _ | EvWriteFrame _ _ | EvLog _ | EvProgress _
  | EvTestDestroy _ => true
  | _ => false
  end.

(** *** What the worker holds

    The input context, the output context, the output file, the decoder
    context and the encoder context: held or not. *)
Record Held := {
  h_input : bool;
  h_output : bool;
  h_file : bool;
  h_decoder : bool;
  h_encoder : bool
}.

Definition nothing_held : Held :=
  {| h_input := false; h_output := false; h_file := false;
     h_decoder := false; h_encoder := false |}.

(** The state is kept when [b] holds, the event is refused otherwise. *)
Definition needs (b : bool) (h : Held) : option Held :=
  if b then Some h else None.

(** An acquisition is refused when the thing is held already, a release or a
    use when it is not held; the output context is not freed while its file
    is open. *)
Definition held_step (h : Held) (e : event) : option Held :=
  match e with
  | EvOpenInput _ ret =>
      if h_input h then None
      else Some {| h_input := negb (ret <? 0); h_output := h_output h;
                   h_file := h_file h; h_decoder := h_decoder h;
                   h_encoder := h_encoder h |}
  | EvFindStreamInfo _ | EvReadFrame _ => needs (h_input h) h
  | EvCloseInput =>
      if h_input h
      then Some {| h_input := false; h_output := h_output h;
                   h_file := h_file h; h_decoder := h_decoder h;
                   h_encoder := h_encoder h |}
      else None
  | EvAllocOutput _ _ ok =>
      if h_output h then None
      else Some {| h_input := h_input h; h_output := ok;
                   h_file := h_file h; h_decoder := h_decoder h;
                   h_encoder := h_encoder h |}
  | EvNewStream _ | EvWriteHeader _ | EvWriteFrame _ _ | EvWriteTrailer =>
      needs (h_output h) h
  | EvParametersCopy _ => needs (h_input h && h_output h) h
  | EvFreeOutput =>
      if h_output h && negb (h_file h)
      then Some {| h_input := h_input h; h_output := false;
                   h_file := h_file h; h_decoder := h_decoder h;
                   h_encoder := h_encoder h |}
      else None
  | EvAvioOpen _ ret =>
      if h_output h && negb (h_file h)
      then Some {| h_input := h_input h; h_output := h_output h;
                   h_file := negb (ret <? 0); h_decoder := h_decoder h;
                   h_encoder := h_encoder h |}
      else None
  | EvAvioClose =>
      if h_file h
      then Some {| h_input := h_input h; h_output := h_output h;
                   h_file := false; h_decoder := h_decoder h;
                   h_encoder := h_encoder h |}
      else None
  | EvFindDecoder ok =>
      if h_decoder h then None
      else Some {| h_input := h_input h; h_output := h_output h;
                   h_file := h_file h; h_decoder := ok;
                   h_encoder := h_encoder h |}
  | EvOpenDecoder _ | EvSendPacket _ _ | EvReceiveFrame _ =>
      needs (h_decoder h) h
  | EvFreeDecoder =>
      if h_decoder h
      then Some {| h_input := h_input h; h_output := h_output h;
                   h_file := h_file h; h_decoder := false;
                   h_encoder := h_encoder h |}
      else None
  | EvFindEncoder ok =>
      if h_encoder h then None
      else Some {| h_input := h_input h; h_output := h_output h;
                   h_file := h_file h; h_decoder := h_decoder h;
                   h_encoder := ok |}
  | EvOpenEncoder _ | EvSendFrame _ _ | EvReceivePacket _ =>
      needs (h_encoder h) h
  | EvFreeEncoder =>
      if h_encoder h
      then Some {| h_input := h_input h; h_output := h_output h;
                   h_file := h_file h; h_decoder := h_decoder h;
                   h_encoder := false |}
      else None
  | EvLog _ | EvProgress _ | EvSetRunning _ | EvTestDestroy _ => Some h
  end.

(** *** The output container: header, packets, trailer *)

Inductive Muxer :=
| MuxNoHeader
| MuxOpen
| MuxFinal.

(** One header at most, packets only after a header that succeeded and
    before the trailer, one trailer at most and only after such a header. *)
Definition mux_step (m : Muxer) (e : event) : option Muxer :=
  match e, m with
  | EvWriteHeader ret, MuxNoHeader =>
      Some (if ret <? 0 then MuxNoHeader else MuxOpen)
  | EvWriteHeader _, _ => None
  | EvWriteFrame _ _, MuxOpen => Some MuxOpen
  | EvWriteFrame _ _, _ => None
  | EvWriteTrailer, MuxOpen => Some MuxFinal
  | EvWriteTrailer, _ => None
  | _, _ => Some m
  end.

(** *** The running flag of the frame *)

Inductive Flag :=
| Busy
| Idle.

(** While busy the worker never sets the flag; it resets it once, and after
    that it does nothing but log. *)
Definition flag_step (f : Flag) (e : event) : option Flag :=
  match f, e with
  | Busy, EvSetRunning false => Some Idle
  | Busy, EvSetRunning true => None
  | Busy, _ => Some Busy
  | Idle, EvLog _ => Some Idle
  | Idle, _ => None
  end.

(** ** What the remux path writes *)

(** The packets handed to the muxer, in the order of the calls. *)
Fixpoint written_packets (tr : list event) : list AVPacket :=
  match tr with
  | [] => []
  | EvWriteFrame p _ :: tr' => p :: written_packets tr'
  | _ :: tr' => written_packets tr'
  end.

(** The packet belongs to one of the [n] streams that were mapped. *)
Definition in_mapped_stream (n : nat) (p : AVPacket) : bool :=
  (0 <=? stream_index p) && (stream_index p <? Z.of_nat n).

(** The copy of an input packet under the mapping that keeps every stream at
    its index. *)
Definition remux_copy (w : World) (p : AVPacket) : AVPacket :=
  copy_packet (in_time_base w (stream_index p))
    (out_time_base w (stream_index p)) (stream_index p) p.

(** All the library calls of the set-up of the remux path succeed. *)
Definition remux_setup_succeeds (w : World) : Prop :=
  0 <= w_open_input w /\ 0 <= w_find_stream_info w /\
  w_alloc_output w = true /\
  (forall i, w_new_stream w i = true) /\
  (forall par, 0 <= w_parameters_copy w par) /\
  (has_file w = true -> 0 <= w_avio_open w) /\
  0 <= w_write_header w.

(** The lines given to [Log], in the order of the calls. *)
Fixpoint logged (tr : list event) : list string :=
  match tr with
  | [] => []
  | EvLog s :: tr' => s :: logged tr'
  | _ :: tr' => logged tr'
  end.

(** ** The frame and its event channel

    [std::to_string], [wxString::StartsWith], [wxString::Mid] and
    [wxString::ToLong] belong to the C++ and wxWidgets libraries; they are
    given here with the behaviour their documentation states. *)

(** [std::to_string(int)]: the decimal digits, a minus sign before them for a
    negative number. *)
Definition to_string (z : Z) : string :=
  DecimalString.NilZero.string_of_int (Z.to_int z).

(** [isspace] in the C locale. *)
Definition isspace (c : ascii) : bool :=
  let n := nat_of_ascii c in
  Nat.eqb n 32 || (Nat.leb 9 n && Nat.leb n 13).

Fixpoint skip_spaces (s : string) : string :=
  match s with
  | String c s' => if isspace c then skip_spaces s' else s
  | EmptyString => s
  end.

Definition LONG_MIN : Z := - 2 ^ 63.
Definition LONG_MAX : Z := 2 ^ 63 - 1.

(** [wxString::ToLong] in base 10, that is [strtol] with the demand that the
    whole string is used: leading white space, an optional sign, at least
    one digit, nothing after the digits, and a value that fits in a [long].
    [None]: the call returns [false] and leaves the variable as it was. *)
Definition ToLong (s : string) : option Z :=
  let s := skip_spaces s in
  let parsed :=
    match s with
    | String "+" s' =>
        option_map Z.of_uint (DecimalString.NilZero.uint_of_string s')
    | _ => option_map Z.of_int (DecimalString.NilZero.int_of_string s)
    end in
  match parsed with
  | Some v => if (LONG_MIN <=? v) && (v <=? LONG_MAX) then Some v else None
  | None => None
  end.

(** The conversion [(int) pct] of a [long]. *)
Definition long_to_int (v : Z) : Z := (v + 2 ^ 31) mod 2 ^ 32 - 2 ^ 31.

(** The members of [MainFrame] that the handlers read and write: the running
    flag, the text of the input field, the selected format, the check box,
    the text of the log and the value of the gauge. *)
Record MainFrame := {
  m_running : bool;
  m_inputPath : string;
  m_formatChoice : string;
  m_reencodeCheck : bool;
  m_log : string;
  m_progress : Z
}.

Definition set_running (f : MainFrame) (b : bool) : MainFrame :=
  {| m_running := b; m_inputPath := m_inputPath f;
     m_formatChoice := m_formatChoice f;
     m_reencodeCheck := m_reencodeCheck f;
     m_log := m_log f; m_progress := m_progress f |}.

Definition set_progress (f : MainFrame) (v : Z) : MainFrame :=
  {| m_running := m_running f; m_inputPath := m_inputPath f;
     m_formatChoice := m_formatChoice f;
     m_reencodeCheck := m_reencodeCheck f;
     m_log := m_log f; m_progress := v |}.

Definition set_log (f : MainFrame) (s : string) : MainFrame :=
  {| m_running := m_running f; m_inputPath := m_inputPath f;
     m_formatChoice := m_formatChoice f;
     m_reencodeCheck := m_reencodeCheck f;
     m_log := s; m_progress := m_progress f |}.

(** Lines 185-196: the string of the [wxEVT_LOG_UPDATE] event that [Log] and
    [PostProgress] queue; the other events of a trace queue nothing. *)
Definition queued (e : event) : option string :=
  match e with
  | EvLog s => Some s
  | EvProgress pct => Some ("PROGRESS:" ++ to_string pct)%string
  | _ => None
  end.

(** Lines 129-139: the handler of [wxEVT_LOG_UPDATE]. *)
Definition on_log_update (f : MainFrame) (s : string) : MainFrame :=
  if prefix "PROGRESS:" s then
    let num := substr_from s 9 in
    let pct := match ToLong num with Some v => v | None => 0 end in
    set_progress f (long_to_int pct)
  else
    set_log f (m_log f ++ s ++ "")%string.

(** What a handler of the frame shows or starts. *)
Inductive effect :=
| MessageBox (message caption : string)
| RunThread (input outFormat : string) (reencode : bool)
| Veto
| Destroy.

(** Lines 155-176: [MainFrame::OnStart]; [runs] tells whether
    [m_thread->Run()] succeeds. *)
Definition OnStart (f : MainFrame) (runs : bool) : MainFrame * list effect :=
  if m_running f then (f, [MessageBox "Conversion already running" "Info"])
  else if String.eqb (m_inputPath f) "" then
    (f, [MessageBox "Choose an input file first" "Error"])
  else
    let f := set_progress (set_log f "") 0 in
    let f := set_running f true in
    let thread :=
      RunThread (m_inputPath f) (m_formatChoice f) (m_reencodeCheck f) in
    if runs then (f, [thread])
    else (set_running f false,
          [thread; MessageBox "Failed to start conversion thread" "Error"]).

(** Lines 178-183: [MainFrame::OnClose]; [yes] is the answer to the question
    that is asked while a conversion runs. *)
Definition OnClose (f : MainFrame) (yes : bool) : list effect :=
  if m_running f then
    if yes
    then [MessageBox "A conversion is running. Quit anyway?" "Confirm";
          Destroy]
    else [MessageBox "A conversion is running. Quit anyway?" "Confirm"; Veto]
  else [Destroy].

(** The frame after one event of the worker: [setRunning] stores the flag,
    a queued string goes through the handler. *)
Definition deliver (f : MainFrame) (e : event) : MainFrame :=
  match e with
  | EvSetRunning b => set_running f b
  | _ => match queued e with
         | Some s => on_log_update f s
         | None => f
         end
  end.

(** The text of the log after the lines [ls] were appended to [s]. *)
Fixpoint appended (s : string) (ls : list string) : string :=
  match ls with
  | [] => s
  | l :: ls' => appended (s ++ l ++ "")%string ls'
  end.

(** An event that the frame cannot misread: a log line that does not start
    like a progress message, a reset of the running flag. *)
Definition is_plain_for_frame (e : event) : bool :=
  match e with
  | EvLog s => negb (prefix "PROGRESS:" s)
  | EvSetRunning b => negb b
  | _ => true
  end.

Definition plain_for_frame (tr : list event) : Prop :=
  Forall (fun e => is_plain_for_frame e = true) tr.

(** [setRunning] stores the flag from the worker thread at once, while the
    strings of [Log] and [PostProgress] wait in the event queue of the main
    thread: the stores of a trace, and what it queues. *)
Definition is_store (e : event) : bool :=
  match e with EvSetRunning _ => true | _ => false end.

Definition stores (tr : list event) : list event := filter is_store tr.

Definition queue (tr : list event) : list event :=
  filter (fun e => negb (is_store e)) tr.

(** ** Write errors

    What a job does after [av_interleaved_write_frame] has failed.  In the
    packet loops the result is tested (lines 313, 466 and 496); in the flush
    of the encoder (line 509) it is dropped. *)

(** Events of the work on packets: reading, the codecs, the muxer, and the
    reports and polls made on the way. *)
Definition is_packet_step (e : event) : bool :=
  match e with
  | EvReadFrame _ | EvSendPacket _ _ | EvReceiveFrame _ | EvSendFrame _ _
  | EvReceivePacket _ | EvWriteFrame _ _ | EvProgress _ | EvTestDestroy _ =>
      true
  | _ => false
  end.

Inductive Writing :=
| Accepting   (** in a packet loop, no write has failed *)
| Refused     (** a write of a packet loop has failed *)
| Flushing.   (** the encoder was told that no frame follows *)

Definition write_step (s : Writing) (e : event) : option Writing :=
  match s with
  | Accepting =>
      match e with
      | EvWriteFrame _ ret => Some (if ret <? 0 then Refused else Accepting)
      | EvSendFrame None _ => Some Flushing
      | _ => Some Accepting
      end
  | Refused => if is_packet_step e then None else Some Refused
  | Flushing =>
      match e with
      | EvReceivePacket _ | EvWriteFrame _ _ => Some Flushing
      | _ => if is_packet_step e then None else Some Flushing
      end
  end.

(** ** What the decoder is given *)

(** The packets handed to [avcodec_send_packet], in the order of the calls. *)
Fixpoint sent_packets (tr : list event) : list AVPacket :=
  match tr with
  | [] => []
  | EvSendPacket (Some p) _ :: tr' => p :: sent_packets tr'
  | _ :: tr' => sent_packets tr'
  end.

(** Events other than a read of the input and a packet for the decoder. *)
Definition no_feed (e : event) : bool :=
  match e with
  | EvReadFrame _ | EvSendPacket _ _ => false
  | _ => true
  end.


(** ** Where a written packet comes from *)

(** [p'] carries what lines 303-308 and 488-493 make of the input packet
    [p]: pts and dts counted in the time base of the output stream that [p']
    goes to, rounded to the nearest value with a tie away from zero and
    clamped to the 64-bit range; the duration with the same rounding and no
    clamp; the position [-1]; the payload of [p]. *)
Definition rescaled_copy (w : World) (p p' : AVPacket) : Prop :=
  let in_tb := in_time_base w (stream_index p) in
  let out_tb := out_time_base w (stream_index p') in
  let b := num in_tb * den out_tb in
  let c := num out_tb * den in_tb in
  p' = copy_packet in_tb out_tb (stream_index p') p /\
  pos p' = -1 /\ data p' = data p /\
  (0 < c ->
   rescaled_clamped (pts p) b c (pts p') /\
   rescaled_clamped (dts p) b c (dts p') /\
   rescaled_plain (duration p) b c (duration p')).

(** What the event [prev] that stands right before the write of [p'] tells
    about [p']: the read of the input packet that [p'] is the copy of, or
    the receipt of a packet from the encoder. *)
Definition write_origin (w : World) (reencode : bool) (v : Z)
  (all : list AVPacket) (prev : option event) (p' : AVPacket) : Prop :=
  match prev with
  | Some (EvReadFrame (Some p)) =>
      In p all /\ (reencode = true -> stream_index p <> v) /\
      rescaled_copy w p p'
  | Some (EvReceivePacket 0) => reencode = true
  | _ => False
  end.

(** Every write of [tr] has its origin in the event before it; [prev] is the
    event before [tr]. *)
Fixpoint writes_explained (w : World) (reencode : bool) (v : Z)
  (all : list AVPacket) (prev : option event) (tr : list event) : Prop :=
  match tr with
  | [] => True
  | e :: tr' =>
      match e with
      | EvWriteFrame p' _ => write_origin w reencode v all prev p'
      | _ => True
      end /\
      writes_explained w reencode v all (Some e) tr'
  end.

Definition is_write (e : event) : bool :=
  match e with EvWriteFrame _ _ => true | _ => false end.

Fixpoint last_event (prev : option event) (tr : list event) : option event :=
  match tr with
  | [] => prev
  | e :: tr' => last_event (Some e) tr'
  end.

(** ** The passes of the packet loop *)

Definition is_read_frame (e : event) : bool :=
  match e with EvReadFrame _ => true | _ => false end.

(** A write that the muxer accepted. *)
Definition is_written (e : event) : bool :=
  match e with EvWriteFrame _ ret => 0 <=? ret | _ => false end.

(** The trace cut before every call of [av_read_frame]: what comes before
    the first call, then one piece for each call, the call at its head. *)
Fixpoint cut (tr : list event) : list event * list (list event) :=
  match tr with
  | [] => ([], [])
  | e :: tr' =>
      let '(head, pieces) := cut tr' in
      if is_read_frame e then ([], (e :: head) :: pieces)
      else (e :: head, pieces)
  end.

(** The pieces of a trace: each pass of the packet loop is a piece that
    starts with the read of a packet; the last pass runs on to the end of the
    job when the loop is left from inside it. *)
Definition iterations (tr : list event) : list (list event) :=
  fst (cut tr) :: snd (cut tr).

(** A call on a packet or a frame that failed: a send or a write with a
    negative result, a receive with a negative result other than
    [AVERROR(EAGAIN)] and [AVERROR_EOF]. *)
Definition is_failure (e : event) : bool :=
  match e with
  | EvSendPacket (Some _) ret | EvSendFrame (Some _) ret
  | EvWriteFrame _ ret => ret <? 0
  | EvReceiveFrame ret | EvReceivePacket ret =>
      (ret <? 0) && negb (again_or_eof ret)
  | _ => false
  end.

(** The polls of one piece.  A pass of the remux loop (lines 292-326) polls
    once when its packet was written and not at all otherwise.  A pass of the
    re-encode loop (lines 434-499) polls at most once, only after a frame was
    received, once for each frame received when no call of the pass fails,
    and never for a packet of a stream that is not decoded.  No other piece
    polls. *)
Definition pass_polled (reencode : bool) (v : Z) (it : list event) : Prop :=
  match it with
  | EvReadFrame (Some p) :: body =>
      if reencode then
        (count is_poll body <= 1)%nat /\
        (count is_poll body <= count is_frame body)%nat /\
        (count is_failure body = O ->
         count is_poll body = count is_frame body) /\
        (stream_index p <> v -> count is_poll body = O)
      else
        count is_poll body = count is_written body /\
        (count is_written body <= 1)%nat
  | _ => count is_poll it = O
  end.


(** ** Sample jobs *)

Module Sample.

Definition tb (n d : Z) : AVRational := {| num := n; den := d |}.

Definition video_stream : AVStream :=
  {| codecpar := {| codec_type := AVMEDIA_TYPE_VIDEO; codec_id := 12;
                    codec_tag := 1145656920; extradata := [] |};
     time_base := tb 1 2; r_frame_rate := tb 25 1 |}.

Definition audio_stream : AVStream :=
  {| codecpar := {| codec_type := AVMEDIA_TYPE_AUDIO; codec_id := 86017;
                    codec_tag := 85; extradata := [] |};
     time_base := tb 1 1; r_frame_rate := tb 0 1 |}.

Definition packet (index ts : Z) : AVPacket :=
  {| stream_index := index; pts := ts; dts := ts; duration := 1;
     pos := 4096; data := [] |}.

Definition frame_of (p : AVPacket) : AVFrame :=
  {| frame_pts := pts p; frame_data := data p |}.

Definition packet_of (f : AVFrame) : AVPacket :=
  {| stream_index := 0; pts := frame_pts f; dts := frame_pts f;
     duration := 1; pos := -1; data := frame_data f |}.

(** A job whose library calls all succeed: an input of [total] microseconds,
    an output format that needs a file, output time bases of one second and
    an encoder that turns every frame into one packet at once. *)
Definition job_of (total : Z) (reencode : bool) (streams : list AVStream)
  (packets : list AVPacket)
  (decoder : list AVPacket -> AVPacket -> Z * list (recv AVFrame))
  (cancel : nat -> bool) : World :=
  {| m_input := "/v/in.avi"; m_outFormat := "mkv"; m_reencode := reencode;
     w_open_input := 0; w_strerror := fun _ => "error";
     w_find_stream_info := 0;
     in_streams := streams; in_duration := total; in_packets := packets;
     w_alloc_output := true; oformat_flags := 0;
     w_new_stream := fun _ => true; w_parameters_copy := fun _ => 0;
     w_avio_open := 0; w_write_header := 0;
     out_time_base := fun _ => tb 1 1;
     w_write_frame := fun _ => 0; w_test_destroy := cancel;
     w_find_decoder := true; w_open_decoder := 0;
     w_find_encoder := true; w_open_encoder := 0;
     w_guess_frame_rate := tb 1 1;
     dec_send := decoder;
     enc_send := fun _ f => (0, [Got (packet_of f)]);
     enc_flush := fun _ => [];
     sws_scale := fun d => d |}.

(** The same with an input of 20 seconds. *)
Definition job := job_of 20000000.

(** A decoder without delay: every packet gives its frame at once. *)
Definition decoder_direct (sent : list AVPacket) (p : AVPacket)
  : Z * list (recv AVFrame) :=
  (0, [Got (frame_of p)]).

(** A decoder with a delay of one packet: a packet makes the frame of the
    packet before it ready, and the frame of the last packet stays inside. *)
Definition decoder_delayed (sent : list AVPacket) (p : AVPacket)
  : Z * list (recv AVFrame) :=
  (0, match rev sent with
      | [] => []
      | q :: _ => [Got (frame_of q)]
      end).

(** A decoder that answers its first packet with two frames. *)
Definition decoder_burst (sent : list AVPacket) (p : AVPacket)
  : Z * list (recv AVFrame) :=
  (0, match sent with
      | [] => [Got (frame_of p);
               Got {| frame_pts := pts p + 1; frame_data := data p |}]
      | _ => []
      end).

Definition never (n : nat) : bool := false.
Definition always (n : nat) : bool := true.

Definition two_streams : list AVStream := [video_stream; audio_stream].

(** Remux of two video packets stored in decoding order: the second one is
    presented before the first. *)
Definition remux_job : World :=
  job false two_streams [packet 0 10; packet 0 5] decoder_direct never.

Definition remux_cancelled : World :=
  job false two_streams [packet 0 10; packet 0 5] decoder_direct always.

Definition transcode_job : World :=
  job true two_streams [packet 0 2; packet 1 2; packet 0 4] decoder_direct
    never.

Definition transcode_cancelled : World :=
  job true two_streams [packet 0 2; packet 1 2; packet 0 4] decoder_direct
    always.

Definition transcode_delayed : World :=
  job true two_streams [packet 0 2; packet 0 4] decoder_delayed never.

Definition transcode_burst : World :=
  job true two_streams [packet 0 2; packet 0 4] decoder_burst never.

(** The input does not tell its duration. *)
Definition remux_unknown_duration : World :=
  job_of AV_NOPTS_VALUE false two_streams [packet 0 10; packet 0 5]
    decoder_direct never.

Definition audio_only : World :=
  job true [audio_stream] [packet 0 2] decoder_direct never.




(** A video stream that declares 30000/1001 frames a second, in a job for
    which [av_guess_frame_rate] has no answer. *)
Definition ntsc_stream : AVStream :=
  {| codecpar := codecpar video_stream; time_base := tb 1 30000;
     r_frame_rate := tb 30000 1001 |}.

Definition transcode_unguessed : World :=
  {| m_input := m_input transcode_job; m_outFormat := m_outFormat transcode_job;
     m_reencode := true;
     w_open_input := 0; w_strerror := w_strerror transcode_job;
     w_find_stream_info := 0;
     in_streams := [ntsc_stream]; in_duration := in_duration transcode_job;
     in_packets := [packet 0 1001];
     w_alloc_output := true; oformat_flags := 0;
     w_new_stream := fun _ => true; w_parameters_copy := fun _ => 0;
     w_avio_open := 0; w_write_header := 0;
     out_time_base := fun _ => tb 1 1;
     w_write_frame := fun _ => 0; w_test_destroy := never;
     w_find_decoder := true; w_open_decoder := 0;
     w_find_encoder := true; w_open_encoder := 0;
     w_guess_frame_rate := tb 0 1;
     dec_send := decoder_direct;
     enc_send := enc_send transcode_job;
     enc_flush := enc_flush transcode_job;
     sws_scale := sws_scale transcode_job |}.


End Sample.

(** ** Facts about the string helpers *)

Section OutputPath.

Local Open Scope string_scope.
Local Open Scope nat_scope.

Section StringFacts.

Variable set : ascii -> bool.

Lemma find_last_of_none (s : string) :
  none_of set s = true -> find_last_of set s = None.
Proof.
  induction s as [|c s IH]; simpl; intros H; [reflexivity|].
  apply andb_true_iff in H as [Hc Hs].
  rewrite (IH Hs). apply negb_true_iff in Hc. now rewrite Hc.
Qed.

Lemma find_last_of_last (a b : string) (c : ascii) :
  set c = true -> none_of set b = true ->
  find_last_of set (a ++ String c b) = Some (String.length a).
Proof.
  intros Hc Hb. induction a as [|x a IH]; simpl.
  - rewrite (find_last_of_none b Hb). now rewrite Hc.
  - now rewrite IH.
Qed.

End StringFacts.

Lemma substring_prefix (a b : string) :
  substring 0 (String.length a) (a ++ b) = a.
Proof.
  induction a as [|x a IH]; simpl.
  - now destruct b.
  - now rewrite IH.
Qed.

Lemma substring_suffix (a b : string) :
  substring (String.length a) (String.length b) (a ++ b) = b.
Proof.
  induction a as [|x a IH]; simpl; [|exact IH].
  induction b as [|y b IHb]; simpl; [reflexivity|]. now rewrite IHb.
Qed.

Lemma length_append (a b : string) :
  String.length (a ++ b) = (String.length a + String.length b)%nat.
Proof. induction a as [|x a IH]; simpl; [reflexivity|]. now rewrite IH. Qed.

Lemma append_assoc (a b c : string) : (a ++ b) ++ c = a ++ (b ++ c).
Proof. induction a as [|x a IH]; simpl; [reflexivity|]. now rewrite IH. Qed.

(** The first search of [make_output_path] finds the end of [dir]. *)
Lemma split_dir (dir name : string) :
  ends_with_sep dir -> none_of is_sep name = true ->
  match find_last_of is_sep (dir ++ name) with
  | None => EmptyString
  | Some p => substr (dir ++ name) 0 (p + 1)
  end = dir /\
  match find_last_of is_sep (dir ++ name) with
  | None => dir ++ name
  | Some p => substr_from (dir ++ name) (p + 1)
  end = name.
Proof.
  intros [->|(d & c & -> & Hc)] Hn.
  - simpl. now rewrite (find_last_of_none _ _ Hn).
  - rewrite append_assoc. simpl.
    rewrite (find_last_of_last _ d name c Hc Hn).
    unfold substr, substr_from.
    replace (d ++ String c name) with ((d ++ String c EmptyString) ++ name)
      by (rewrite append_assoc; reflexivity).
    replace (String.length d + 1)%nat
      with (String.length (d ++ String c EmptyString))
      by (rewrite length_append; reflexivity).
    split; [apply substring_prefix|].
    rewrite (length_append _ name).
    replace (String.length (d ++ String c EmptyString) + String.length name
             - String.length (d ++ String c EmptyString))%nat
      with (String.length name) by lia.
    apply substring_suffix.
Qed.

(** The second search strips what follows the last dot of the file name. *)
Lemma strip_ext (stem ext : string) :
  none_of is_dot ext = true ->
  match find_last_of is_dot (stem ++ String "." ext) with
  | Some dot => substr (stem ++ String "." ext) 0 dot
  | None => stem ++ String "." ext
  end = stem.
Proof.
  intros He.
  rewrite (find_last_of_last is_dot stem ext "."%char eq_refl He).
  apply substring_prefix.
Qed.

(** C9. For an input path [dir ++ name], where [dir] is the directory part
    (empty, or ending with a slash or a backslash) and [name] holds no
    separator, the derived path is [dir], then [name] with its extension
    stripped ([stem] when [name = stem ++ "." ++ ext] with no dot in [ext],
    [name] itself when it holds no dot), then ["_converted."], then the
    output format.  The function is pure: it consults nothing but its two
    arguments, so no existing file is looked for. *)
Theorem make_output_path_shape (dir name outFmt : string) :
  ends_with_sep dir -> none_of is_sep name = true ->
  (forall stem ext,
      name = stem ++ String "." ext -> none_of is_dot ext = true ->
      make_output_path (dir ++ name) outFmt
      = dir ++ stem ++ "_converted." ++ outFmt) /\
  (none_of is_dot name = true ->
      make_output_path (dir ++ name) outFmt
      = dir ++ name ++ "_converted." ++ outFmt).
Proof.
  intros Hd Hn. destruct (split_dir dir name Hd Hn) as [Hdir Hbase].
  unfold make_output_path. rewrite Hdir, Hbase. split.
  - intros stem ext -> He. now rewrite (strip_ext stem ext He).
  - intros Hnd. now rewrite (find_last_of_none _ _ Hnd).
Qed.

Lemma make_output_path_shape_witness :
  make_output_path "/home/u/clip.v1.avi" "mkv" = "/home/u/clip.v1_converted.mkv"
  /\ make_output_path "C:\v\clip" "mp4" = "C:\v\clip_converted.mp4".
Proof.
  split.
  - refine (proj1 (make_output_path_shape "/home/u/" "clip.v1.avi" "mkv" _ _)
              "clip.v1" "avi" _ _); try reflexivity.
    right. exists "/home/u", "/"%char. split; reflexivity.
  - refine (proj2 (make_output_path_shape "C:\v\" "clip" "mp4" _ _) _);
      try reflexivity.
    right. exists "C:\v", "\"%char. split; reflexivity.
Defined.

End OutputPath.

(** ** Rescaling and progress arithmetic *)

Lemma round_near_inf_nearest (x c : Z) :
  0 < c ->
  2 * Z.abs (round_near_inf x c * c - x) <= c /\
  (2 * Z.abs (round_near_inf x c * c - x) = c ->
   Z.abs x < Z.abs (round_near_inf x c * c)).
Proof.
  intros Hc. unfold round_near_inf.
  pose proof (Z.div_mod c 2 ltac:(lia)) as Hh.
  pose proof (Z.mod_pos_bound c 2 ltac:(lia)) as Hm.
  destruct (0 <=? x) eqn:Hx.
  - apply Z.leb_le in Hx.
    pose proof (Z.div_mod (x + c / 2) c ltac:(lia)) as Hq.
    pose proof (Z.mod_pos_bound (x + c / 2) c Hc) as Hr.
    split; [lia|]. intros Ht. nia.
  - apply Z.leb_gt in Hx.
    pose proof (Z.div_mod (- x + c / 2) c ltac:(lia)) as Hq.
    pose proof (Z.mod_pos_bound (- x + c / 2) c Hc) as Hr.
    split; [lia|]. intros Ht. nia.
Qed.

Lemma PKT_RND_clamps : Z.testbit PKT_RND 13 = true.
Proof. reflexivity. Qed.

Lemma NEAR_INF_plain : Z.testbit AV_ROUND_NEAR_INF 13 = false.
Proof. reflexivity. Qed.

Lemma progress_pct_range (ts : Z) (tb : AVRational) (total : Z) :
  0 <= progress_pct ts tb total <= 100.
Proof.
  unfold progress_pct.
  set (v := double_to_int _).
  destruct (v <? 0) eqn:Hlo.
  - simpl. lia.
  - apply Z.ltb_ge in Hlo.
    destruct (v >? 100) eqn:Hhi; [lia|].
    rewrite Z.gtb_ltb in Hhi. apply Z.ltb_ge in Hhi. lia.
Qed.

(** ** Stream mapping *)

Lemma vec_set_at (a b : list Z) (i : nat) (x y : Z) :
  List.length a = i -> vec_set (a ++ x :: b) i y = a ++ y :: b.
Proof.
  intros <-. induction a as [|z a IH]; simpl; [reflexivity|]. now rewrite IH.
Qed.

Lemma identity_mapping_snoc (n : nat) :
  identity_mapping (S n) = identity_mapping n ++ [Z.of_nat n].
Proof. unfold identity_mapping. now rewrite seq_S, map_app. Qed.

Lemma identity_mapping_length (n : nat) :
  List.length (identity_mapping n) = n.
Proof. unfold identity_mapping. now rewrite length_map, length_seq. Qed.

Lemma identity_mapping_nth (n i : nat) :
  (i < n)%nat -> nth_error (identity_mapping n) i = Some (Z.of_nat i).
Proof.
  intros Hi. unfold identity_mapping.
  rewrite nth_error_map, nth_error_seq.
  destruct (Nat.ltb_spec i n); [reflexivity | lia].
Qed.

Lemma lookup_identity_mapping (n : nat) (i : Z) :
  0 <= i < Z.of_nat n -> lookup_mapping (identity_mapping n) i = Some i.
Proof.
  intros Hi. unfold lookup_mapping.
  rewrite identity_mapping_length.
  destruct (i <? 0) eqn:H0; [lia|].
  destruct (i >=? Z.of_nat n) eqn:H1; [lia|]. simpl.
  rewrite identity_mapping_nth by lia.
  rewrite Z2Nat.id by lia.
  destruct (i <? 0) eqn:H2; [lia | reflexivity].
Qed.

(** The loop of the remux path, started at stream [i] with the first [i]
    streams mapped: when it ends with [ret >= 0] every remaining stream was
    copied and mapped to its own index. *)
Lemma remux_streams_inv (w : World) (ins : list AVStream) :
  forall (i : nat) (ret0 : Z) (m : Mapper) evs ret m',
    0 <= ret0 ->
    stream_mapping m = identity_mapping i ++ repeat (-1) (List.length ins) ->
    out_stream_cnt m = Z.of_nat i ->
    remux_streams w ins i ret0 m = (evs, (ret, m')) ->
    0 <= ret ->
    out_streams m' = out_streams m ++ map copied_parameters ins /\
    stream_mapping m' = identity_mapping (i + List.length ins) /\
    out_stream_cnt m' = Z.of_nat (i + List.length ins).
Proof.
  induction ins as [|s rest IH]; intros i ret0 m evs ret m' H0 Hmap Hcnt Hrun Hret.
  - simpl in *. inversion Hrun; subst.
    rewrite app_nil_r, Nat.add_0_r in *. now rewrite Hmap.
  - simpl in Hrun.
    destruct (w_new_stream w i).
    + destruct (w_parameters_copy w (codecpar s) <? 0) eqn:Hc.
      * inversion Hrun; subst. apply Z.ltb_lt in Hc. lia.
      * apply Z.ltb_ge in Hc. unfold emit in Hrun.
        destruct (remux_streams w rest (S i) _ _) as [evs1 [ret1 m1]] eqn:Hrec.
        simpl in Hrun. inversion Hrun; subst.
        apply IH in Hrec; try assumption.
        -- destruct Hrec as (Ho & Hm & Hn). simpl in Ho.
           rewrite <- app_assoc in Ho. simpl in Ho.
           simpl. replace (i + S (List.length rest))%nat
             with (S i + List.length rest)%nat by lia.
           auto.
        -- unfold map_stream. cbn [stream_mapping]. rewrite Hmap, Hcnt.
           cbn [List.length repeat].
           rewrite vec_set_at by apply identity_mapping_length.
           rewrite identity_mapping_snoc, <- app_assoc. reflexivity.
        -- simpl. rewrite Hcnt. lia.
    + inversion Hrun; subst. unfold AVERROR_UNKNOWN, FFERRTAG in Hret.
      vm_compute in Hret. now contradiction Hret.
Qed.

(** [find_video_from ss i] is [-1], or [i + k] with [k] the position in [ss]
    of the first video stream. *)
Lemma find_video_from_first (ss : list AVStream) :
  forall i, 0 <= i ->
    (find_video_from ss i = -1 /\ Forall (fun s => is_video s = false) ss) \/
    (exists k s,
        find_video_from ss i = i + Z.of_nat k /\
        nth_error ss k = Some s /\ is_video s = true /\
        Forall (fun s' => is_video s' = false) (firstn k ss)).
Proof.
  induction ss as [|s rest IH]; intros i Hi.
  - left. split; [reflexivity | constructor].
  - simpl. destruct (is_video s) eqn:Hv.
    + right. exists O, s. simpl. repeat split; [lia | assumption | constructor].
    + destruct (IH (i + 1) ltac:(lia)) as [[H1 H2] | (k & s' & H1 & H2 & H3 & H4)].
      * left. split; [assumption|]. now constructor.
      * right. exists (S k), s'. simpl. repeat split; try assumption; [lia|].
        now constructor.
Qed.

(** ** Counting and splitting traces *)

Lemma count_app (f : event -> bool) (a b : list event) :
  count f (a ++ b) = (count f a + count f b)%nat.
Proof. unfold count. now rewrite filter_app, length_app. Qed.

Lemma count_cons (f : event -> bool) (e : event) (tr : list event) :
  count f (e :: tr) = ((if f e then 1 else 0) + count f tr)%nat.
Proof. unfold count. simpl. now destruct (f e). Qed.

Lemma count_none (f : event -> bool) (tr : list event) :
  Forall (fun e => f e = false) tr -> count f tr = O.
Proof.
  unfold count. induction 1 as [|e tr He _ IH]; simpl; [reflexivity|].
  now rewrite He.
Qed.

Lemma Forall_not_In (f : event -> bool) (tr : list event) (e : event) :
  Forall (fun x => f x = false) tr -> f e = true -> ~ In e tr.
Proof.
  intros Hall He Hin. rewrite Forall_forall in Hall.
  specialize (Hall e Hin). congruence.
Qed.

(** An event that occurs once splits a trace in one way only. *)
Lemma split_at_unique (f : event -> bool) (a a' b b' : list event)
  (x x' : event) :
  Forall (fun e => f e = false) a -> Forall (fun e => f e = false) b ->
  f x = true -> f x' = true ->
  a ++ x :: b = a' ++ x' :: b' -> a = a' /\ x = x' /\ b = b'.
Proof.
  intros Ha Hb Hx Hx'. revert a' Ha.
  induction a as [|y a IH]; intros [|y' a'] Ha Heq; simpl in Heq.
  - inversion Heq; auto.
  - inversion Heq; subst.
    exfalso. apply (Forall_not_In f (a' ++ x' :: b') x' Hb Hx').
    apply in_or_app; right; left; reflexivity.
  - inversion Heq; subst. apply Forall_inv in Ha. congruence.
  - injection Heq as -> Heq. apply Forall_inv_tail in Ha.
    destruct (IH a' Ha Heq) as (-> & -> & ->). auto.
Qed.

Lemma cancel_end_cons (e : event) (tr : list event) :
  is_cancel e = false -> cancel_end tr -> cancel_end (e :: tr).
Proof.
  intros He [H | (body & -> & H)].
  - left. now constructor.
  - right. exists (e :: body). split; [reflexivity | now constructor].
Qed.

Lemma cancel_end_app (a tr : list event) :
  Forall (fun e => is_cancel e = false) a -> cancel_end tr ->
  cancel_end (a ++ tr).
Proof.
  induction 1 as [|e a He _ IH]; intros H; simpl; [exact H|].
  apply cancel_end_cons; auto.
Qed.

(** ** The loop of the remux path *)

Lemma progress_events_traced (w : World) (b : bool) (v : Z)
  (all : list AVPacket) (ts : Z) (tb : AVRational) :
  Forall (fun e => traced w b v all e /\ in_loop e = true /\
                   is_poll e = false /\ is_read e = false)
    (progress_events w ts tb).
Proof.
  unfold progress_events.
  destruct (in_duration w >? 0) eqn:Hd; simpl; [|constructor].
  destruct (ts =? AV_NOPTS_VALUE) eqn:Ht; simpl; constructor; [|constructor].
  repeat split. apply tr_progress.
  - rewrite Z.gtb_ltb in Hd. apply Z.ltb_lt in Hd. lia.
  - now apply Z.eqb_neq.
Qed.

Lemma remux_loop_facts (w : World) (v : Z) (mapping : list Z)
  (all pkts : list AVPacket) :
  forall nw np, incl pkts all ->
    let tr := remux_loop w mapping pkts nw np in
    Forall (remux_event w v all) tr /\
    (count is_poll tr <= count is_read tr)%nat /\
    cancel_end tr.
Proof.
  induction pkts as [|pkt rest IH]; intros nw np Hincl; simpl.
  - repeat split.
    + constructor; [|constructor]. split; [now apply tr_plain | reflexivity].
    + unfold count; simpl; lia.
    + left. repeat constructor.
  - assert (Hin : In pkt all) by (apply Hincl; now left).
    assert (Hrest : incl rest all) by (intros x Hx; apply Hincl; now right).
    assert (Hread : remux_event w v all (EvReadFrame (Some pkt))).
    { split; [now apply tr_plain | reflexivity]. }
    destruct (lookup_mapping mapping (stream_index pkt)) as [o|].
    + set (out_tb := out_time_base w o).
      set (pkt' := copy_packet _ _ _ _).
      assert (Hw : forall r, remux_event w v all (EvWriteFrame pkt' r)).
      { intros r. split; [|reflexivity]. apply tr_copy; [exact Hin|].
        discriminate. }
      destruct (w_write_frame w nw <? 0).
      * repeat split.
        -- constructor; [exact Hread|]. constructor; [apply Hw|].
           constructor; [|constructor].
           split; [now apply tr_plain | reflexivity].
        -- unfold count; simpl; lia.
        -- left. repeat constructor.
      * match goal with
        | |- context [progress_events w ?ts ?tb] =>
            pose proof (progress_events_traced w false v all ts tb) as Hpr;
            set (pr := progress_events w ts tb) in *
        end.
        assert (Hpr1 : Forall (remux_event w v all) pr).
        { revert Hpr. apply Forall_impl. now intros e (H1 & H2 & _). }
        assert (Hpr2 : count is_poll pr = O).
        { apply count_none. revert Hpr. apply Forall_impl.
          now intros e (_ & _ & H & _). }
        assert (Hpr3 : count is_read pr = O).
        { apply count_none. revert Hpr. apply Forall_impl.
          now intros e (_ & _ & _ & H). }
        assert (Hpr4 : Forall (fun e => is_cancel e = false) pr).
        { revert Hpr. apply Forall_impl. intros e (_ & _ & H & _).
          destruct e; try reflexivity. discriminate. }
        assert (Hpoll : forall b, remux_event w v all (EvTestDestroy b)).
        { intros b. split; [now apply tr_plain | reflexivity]. }
        destruct (w_test_destroy w np).
        -- repeat split.
           ++ constructor; [exact Hread|]. constructor; [apply Hw|].
              apply Forall_app. split; [exact Hpr1|].
              constructor; [apply Hpoll|]. constructor; [|constructor].
              split; [now apply tr_plain | reflexivity].
           ++ rewrite !count_cons, !count_app, Hpr2, Hpr3.
              unfold count; simpl; lia.
           ++ right. exists ([EvReadFrame (Some pkt);
                              EvWriteFrame pkt' (w_write_frame w nw)] ++ pr).
              split; [now rewrite <- app_assoc|].
              apply Forall_app. split; [repeat constructor | exact Hpr4].
        -- destruct (IH (S nw) (S np) Hrest) as (I1 & I2 & I3).
           repeat split.
           ++ constructor; [exact Hread|]. constructor; [apply Hw|].
              apply Forall_app. split; [exact Hpr1|].
              constructor; [apply Hpoll | exact I1].
           ++ rewrite !count_cons, !count_app, !count_cons, Hpr2, Hpr3.
              revert I2. simpl. lia.
           ++ apply cancel_end_cons; [reflexivity|].
              apply cancel_end_cons; [reflexivity|].
              apply cancel_end_app; [exact Hpr4|].
              apply cancel_end_cons; [reflexivity | exact I3].
    + destruct (IH nw np Hrest) as (I1 & I2 & I3). repeat split.
      * constructor; assumption.
      * revert I2. unfold count; simpl; lia.
      * apply cancel_end_cons; [reflexivity | exact I3].
Qed.

(** ** The loops of the re-encode path *)

Section LoopFacts.

Variable w : World.
Variable v : Z.
Variable mapping : list Z.
Variable enc_tb : AVRational.
Variable all : list AVPacket.

Local Abbreviation loop_event := (loop_event w v all).
Local Abbreviation codec_event := (codec_event w v all).
Local Abbreviation frame_event := (frame_event w v all).
Local Abbreviation run_facts := (run_facts w v all).

Local Ltac plain_event :=
  repeat split; try reflexivity; apply tr_plain; reflexivity.

Lemma receive_packets_events (q : list (recv AVPacket)) :
  forall ret nw, Forall codec_event (fst (receive_packets w v mapping enc_tb q ret nw)).
Proof.
  induction q as [|[p|e] q IH]; intros ret nw; simpl;
    destruct (ret <? 0); simpl; try constructor.
  - plain_event.
  - constructor.
  - plain_event.
  - constructor.
    + repeat split; try reflexivity. now apply tr_encoded.
    + destruct (w_write_frame w nw <? 0); simpl; [|apply IH].
      constructor; [plain_event | constructor].
  - destruct (again_or_eof (Z.neg e)); simpl.
    + constructor; [plain_event | constructor].
    + constructor; [plain_event|]. constructor; [plain_event | constructor].
Qed.

(** The slip of lines 443-477: the loop over the packets of the encoder is
    left with [ret < 0] whenever it is not left by [goto cleanup]. *)
Lemma receive_packets_ret (q : list (recv AVPacket)) :
  forall ret nw evs r' q' nw',
    receive_packets w v mapping enc_tb q ret nw = (evs, Some (r', q', nw')) ->
    r' < 0.
Proof.
  induction q as [|[p|e] q IH]; intros ret nw evs r' q' nw'; simpl;
    destruct (ret <? 0) eqn:Hret; intros H;
    try (inversion H; subst; apply Z.ltb_lt in Hret; exact Hret).
  - inversion H; subst. reflexivity.
  - unfold emit in H.
    destruct (w_write_frame w nw <? 0); simpl in H; [discriminate|].
    destruct (receive_packets w v mapping enc_tb q _ _) as [evs1 res1] eqn:Hrec.
    simpl in H. inversion H; subst. eapply IH; eassumption.
  - destruct (again_or_eof (Z.neg e)); inversion H; subst. lia.
Qed.

Lemma receive_frames_done (q : list (recv AVFrame)) (ret : Z) (j : Job) :
  ret < 0 ->
  receive_frames w v mapping enc_tb q ret j = ([], Some (q, j)).
Proof.
  intros Hret. apply Z.ltb_lt in Hret.
  destruct q as [|[f|e] q]; simpl; now rewrite Hret.
Qed.

Lemma codec_event_no_cancel (tr : list event) :
  Forall codec_event tr -> Forall (fun e => is_cancel e = false) tr.
Proof.
  apply Forall_impl. intros e (_ & Hp & _).
  destruct e; try reflexivity. discriminate.
Qed.

Lemma progress_events_loop (ts : Z) (tb : AVRational) :
  Forall codec_event (progress_events w ts tb).
Proof.
  unfold progress_events.
  destruct (in_duration w >? 0) eqn:Hd; simpl; [|constructor].
  destruct (ts =? AV_NOPTS_VALUE) eqn:Ht; simpl; constructor; [|constructor].
  repeat split; try reflexivity. apply tr_progress.
  - rewrite Z.gtb_ltb in Hd. apply Z.ltb_lt in Hd. lia.
  - now apply Z.eqb_neq.
Qed.

Lemma fst_emit {A : Type} (evs : list event) (r : list event * A) :
  fst (emit evs r) = evs ++ fst r.
Proof. reflexivity. Qed.

Lemma snd_emit {A : Type} (evs : list event) (r : list event * A) :
  snd (emit evs r) = snd r.
Proof. reflexivity. Qed.

Lemma cancel_shape_emit {A : Type} (evs : list event)
  (r : list event * option A) :
  Forall (fun e => is_cancel e = false) evs ->
  cancel_shape r -> cancel_shape (emit evs r).
Proof.
  unfold cancel_shape. rewrite fst_emit, snd_emit. intros Hevs.
  destruct (snd r).
  - intros H. apply Forall_app; auto.
  - intros [H | (body & Hb & H)].
    + left. apply Forall_app; auto.
    + right. exists (evs ++ body). rewrite Hb, app_assoc.
      split; [reflexivity|]. apply Forall_app; auto.
Qed.

Lemma codec_event_frame (tr : list event) :
  Forall codec_event tr -> Forall frame_event tr.
Proof.
  apply Forall_impl. intros e (H & _ & _ & H1 & H2).
  split; [exact H | split; assumption].
Qed.

Lemma codec_event_no_poll (tr : list event) :
  Forall codec_event tr -> count is_poll tr = O.
Proof.
  intros H. apply count_none. revert H. apply Forall_impl.
  now intros e (_ & H & _).
Qed.

Lemma codec_event_no_frame (tr : list event) :
  Forall codec_event tr -> count is_frame tr = O.
Proof.
  intros H. apply count_none. revert H. apply Forall_impl.
  now intros e (_ & _ & H & _).
Qed.

Lemma plain_frame_event (e : event) :
  is_plain e = true -> in_loop e = true -> is_video_send e = false ->
  is_read e = false -> frame_event e.
Proof.
  intros H1 H2 H3 H4. split; [split; [now apply tr_plain | exact H2]|].
  split; assumption.
Qed.

Local Ltac small_count := unfold count; simpl; lia.
Local Ltac plain_frame := apply plain_frame_event; reflexivity.

(** The loop over the frames of the decoder: one frame at most is received,
    and the flag is polled once at most. *)
Lemma receive_frames_facts (q : list (recv AVFrame)) (ret : Z) (j : Job) :
  let r := receive_frames w v mapping enc_tb q ret j in
  Forall frame_event (fst r) /\
  (count is_poll (fst r) <= 1)%nat /\
  (count is_frame (fst r) <= 1)%nat /\
  cancel_shape r.
Proof.
  assert (Hnil : forall q' : list (recv AVFrame),
            let r := ([] : list event, Some (q', j)) in
            Forall frame_event (fst r) /\ (count is_poll (fst r) <= 1)%nat /\
            (count is_frame (fst r) <= 1)%nat /\ cancel_shape r).
  { intros q'. repeat split; try small_count; constructor. }
  destruct q as [|[f|e] q]; simpl; destruct (ret <? 0); try apply Hnil.
  - repeat split; try small_count.
    + constructor; [plain_frame | constructor].
    + unfold cancel_shape; simpl. repeat constructor.
  - destruct (enc_send w (enc_sent j) (scale_frame w f)) as [r outs].
    assert (Hhead : Forall frame_event
              [EvReceiveFrame 0; EvSendFrame (Some (scale_frame w f)) r]).
    { constructor; [plain_frame|].
      constructor; [|constructor].
      split; [split; [now apply tr_send_frame | reflexivity]|].
      split; reflexivity. }
    assert (Hlog : forall s, frame_event (EvLog s)).
    { intros s. plain_frame. }
    assert (Hpoll : forall b, frame_event (EvTestDestroy b)).
    { intros b. plain_frame. }
    destruct (r <? 0).
    { rewrite fst_emit. simpl. repeat split; try small_count.
      - apply (Forall_app frame_event [_; _] [_]). split; [exact Hhead|].
        constructor; [apply Hlog | constructor].
      - unfold cancel_shape; simpl. left. repeat constructor. }
    pose proof (receive_packets_events (enc_ready j ++ outs) r (n_write j))
      as Hev.
    destruct (receive_packets w v mapping enc_tb (enc_ready j ++ outs) r
                (n_write j)) as [evs [[[r' eq'] nw']|]] eqn:Hrp;
      simpl in Hev.
    + apply receive_packets_ret in Hrp.
      pose proof (progress_events_loop (frame_pts f) (in_time_base w v))
        as Hpr.
      set (pr := progress_events w (frame_pts f) (in_time_base w v)) in *.
      destruct (w_test_destroy w (n_poll j)).
      * rewrite !fst_emit. simpl fst.
        repeat split.
        -- apply Forall_app. split; [exact Hhead|].
           apply Forall_app. split.
           ++ apply Forall_app. split; [now apply codec_event_frame|].
              apply Forall_app. split; [now apply codec_event_frame|].
              constructor; [apply Hpoll | constructor].
           ++ constructor; [apply Hlog | constructor].
        -- rewrite !count_app, (codec_event_no_poll evs Hev),
             (codec_event_no_poll pr Hpr).
           small_count.
        -- rewrite !count_app, (codec_event_no_frame evs Hev),
             (codec_event_no_frame pr Hpr).
           small_count.
        -- unfold cancel_shape. rewrite !snd_emit, !fst_emit. simpl snd.
           right.
           exists ([EvReceiveFrame 0; EvSendFrame (Some (scale_frame w f)) r]
                   ++ evs ++ pr).
           split.
           ++ unfold cancel_tail. simpl. rewrite <- !app_assoc. reflexivity.
           ++ apply Forall_app. split; [repeat constructor|].
              apply Forall_app.
              split; now apply codec_event_no_cancel.
      * rewrite (receive_frames_done q r' _ Hrp).
        rewrite !fst_emit. simpl fst. rewrite !app_nil_r.
        repeat split.
        -- apply Forall_app. split; [exact Hhead|].
           apply Forall_app. split; [now apply codec_event_frame|].
           apply Forall_app. split; [now apply codec_event_frame|].
           constructor; [apply Hpoll | constructor].
        -- rewrite !count_app, (codec_event_no_poll evs Hev),
             (codec_event_no_poll pr Hpr).
           small_count.
        -- rewrite !count_app, (codec_event_no_frame evs Hev),
             (codec_event_no_frame pr Hpr).
           small_count.
        -- unfold cancel_shape. rewrite !snd_emit, !fst_emit. simpl.
           rewrite app_nil_r. constructor; [reflexivity|].
           constructor; [reflexivity|].
           apply Forall_app. split; [now apply codec_event_no_cancel|].
           apply Forall_app. split; [now apply codec_event_no_cancel|].
           repeat constructor.
    + rewrite fst_emit. simpl fst. repeat split.
      * apply Forall_app. split; [exact Hhead | now apply codec_event_frame].
      * rewrite count_app, (codec_event_no_poll evs Hev). small_count.
      * rewrite count_app, (codec_event_no_frame evs Hev). small_count.
      * unfold cancel_shape. rewrite snd_emit, fst_emit. simpl. left.
        constructor; [reflexivity|]. constructor; [reflexivity|].
        now apply codec_event_no_cancel.
  - destruct (again_or_eof (Z.neg e)); simpl.
    + repeat split; try small_count.
      * constructor; [plain_frame | constructor].
      * unfold cancel_shape; simpl. repeat constructor.
    + repeat split; try small_count.
      * constructor; [plain_frame|]. constructor; [plain_frame|constructor].
      * unfold cancel_shape; simpl. left. repeat constructor.
Qed.

Lemma emit_emit {A : Type} (a b : list event) (r : list event * A) :
  emit a (emit b r) = emit (a ++ b) r.
Proof. unfold emit. simpl. now rewrite app_assoc. Qed.

Lemma run_facts_emit {A : Type} (evs : list event)
  (r : list event * option A) :
  Forall loop_event evs ->
  Forall (fun e => is_cancel e = false) evs ->
  (count is_poll evs <= count is_video_send evs)%nat ->
  (count is_frame evs <= count is_video_send evs)%nat ->
  run_facts r -> run_facts (emit evs r).
Proof.
  intros H1 H2 H3 H4 (R1 & R2 & R3 & R4). unfold run_facts.
  rewrite fst_emit, !count_app. repeat split; try lia.
  - apply Forall_app; auto.
  - now apply cancel_shape_emit.
Qed.

Lemma frame_event_loop (tr : list event) :
  Forall frame_event tr -> Forall loop_event tr.
Proof. apply Forall_impl. now intros e [H _]. Qed.

Lemma frame_event_no_send (tr : list event) :
  Forall frame_event tr -> count is_video_send tr = O.
Proof.
  intros H. apply count_none. revert H. apply Forall_impl.
  now intros e (_ & H & _).
Qed.

Lemma plain_loop_event (e : event) :
  is_plain e = true -> in_loop e = true -> loop_event e.
Proof. intros H1 H2. split; [now apply tr_plain | exact H2]. Qed.

Local Ltac plain_loop := apply plain_loop_event; reflexivity.

Lemma transcode_loop_facts (pkts : list AVPacket) :
  forall j, incl pkts all ->
    run_facts (transcode_loop w v mapping enc_tb pkts j).
Proof.
  induction pkts as [|pkt rest IH]; intros j Hincl; simpl.
  - repeat split; try small_count.
    + constructor; [plain_loop | constructor].
    + unfold cancel_shape; simpl. repeat constructor.
  - assert (Hin : In pkt all) by (apply Hincl; now left).
    assert (Hrest : incl rest all) by (intros x Hx; apply Hincl; now right).
    assert (Hread : loop_event (EvReadFrame (Some pkt))) by plain_loop.
    destruct (stream_index pkt =? v) eqn:Hv.
    + apply Z.eqb_eq in Hv.
      destruct (dec_send w (dec_sent j) pkt) as [ret frames].
      assert (Hsend : loop_event (EvSendPacket (Some pkt) ret)).
      { split; [now apply tr_send_packet | reflexivity]. }
      rewrite emit_emit.
      destruct (ret <? 0).
      * repeat split; try small_count.
        -- simpl. constructor; [exact Hread|].
           constructor; [exact Hsend|]. constructor; [plain_loop|constructor].
        -- unfold cancel_shape; simpl. repeat constructor.
      * pose proof (receive_frames_facts (dec_ready j ++ frames) ret j)
          as (Hf & Hp & Hfr & Hc).
        destruct (receive_frames w v mapping enc_tb (dec_ready j ++ frames)
                    ret j) as [evs [[q' j']|]]; simpl in Hf, Hp, Hfr.
        -- rewrite emit_emit. apply run_facts_emit.
           ++ apply Forall_app. split; [|now apply frame_event_loop].
              constructor; [exact Hread|]. constructor; [exact Hsend|].
              constructor.
           ++ apply Forall_app. split; [repeat constructor | exact Hc].
           ++ rewrite !count_app, (frame_event_no_send evs Hf).
              revert Hp. small_count.
           ++ rewrite !count_app, (frame_event_no_send evs Hf).
              revert Hfr. small_count.
           ++ now apply IH.
        -- change (emit ([EvReadFrame (Some pkt)] ++
                         [EvSendPacket (Some pkt) ret]) (evs, None))
             with (emit [EvReadFrame (Some pkt); EvSendPacket (Some pkt) ret]
                     (evs, @None Job)).
           repeat split.
           ++ rewrite fst_emit. simpl fst.
              apply Forall_app. split; [|now apply frame_event_loop].
              constructor; [exact Hread|]. constructor; [exact Hsend|].
              constructor.
           ++ rewrite fst_emit, !count_app. simpl fst.
              rewrite (frame_event_no_send evs Hf). revert Hp. small_count.
           ++ rewrite fst_emit, !count_app. simpl fst.
              rewrite (frame_event_no_send evs Hf). revert Hfr. small_count.
           ++ apply cancel_shape_emit; [repeat constructor | exact Hc].
    + apply Z.eqb_neq in Hv.
      destruct (lookup_mapping mapping (stream_index pkt)) as [o|].
      * assert (Hw : forall r,
                  loop_event
                    (EvWriteFrame
                       (copy_packet (in_time_base w (stream_index pkt))
                          (out_time_base w o) o pkt) r)).
        { intros r. split; [|reflexivity]. apply tr_copy; auto. }
        rewrite emit_emit.
        destruct (w_write_frame w (n_write j) <? 0).
        -- repeat split; try small_count.
           ++ simpl. constructor; [exact Hread|].
              constructor; [apply Hw|]. constructor; [plain_loop|constructor].
           ++ unfold cancel_shape; simpl. left. repeat constructor.
        -- apply run_facts_emit; try small_count.
           ++ constructor; [exact Hread|]. constructor; [apply Hw|constructor].
           ++ repeat constructor.
           ++ now apply IH.
      * apply run_facts_emit; try small_count.
        -- constructor; [exact Hread | constructor].
        -- repeat constructor.
        -- now apply IH.
Qed.

Lemma flush_packets_events (q : list (recv AVPacket)) :
  forall nw, Forall codec_event (flush_packets w v mapping enc_tb q nw).
Proof.
  induction q as [|[p|e] q IH]; intros nw; simpl.
  - constructor; [plain_event | constructor].
  - constructor; [plain_event|]. constructor; [|apply IH].
    repeat split; try reflexivity. now apply tr_encoded.
  - destruct (again_or_eof (Z.neg e)).
    + constructor; [plain_event | constructor].
    + constructor; [plain_event|]. constructor; [plain_event | constructor].
Qed.

End LoopFacts.

(** ** The shape of a whole job *)

Lemma remux_streams_setup (w : World) (ins : list AVStream) :
  forall i ret m, setup_only (fst (remux_streams w ins i ret m)).
Proof.
  induction ins as [|s rest IH]; intros i ret m; simpl; [constructor|].
  destruct (w_new_stream w i); [|repeat constructor].
  destruct (w_parameters_copy w (codecpar s) <? 0); [repeat constructor|].
  rewrite fst_emit. apply Forall_app. split; [repeat constructor | apply IH].
Qed.

Lemma transcode_streams_setup (w : World) (v : Z) (ins : list AVStream) :
  forall i ret m, setup_only (fst (transcode_streams w v ins i ret m)).
Proof.
  induction ins as [|s rest IH]; intros i ret m; simpl; [constructor|].
  destruct (Z.of_nat i =? v).
  - destruct (w_new_stream w i); [|repeat constructor].
    rewrite fst_emit. apply Forall_app. split; [repeat constructor | apply IH].
  - destruct (w_new_stream w i); [|repeat constructor].
    destruct (w_parameters_copy w (codecpar s) <? 0); [repeat constructor|].
    rewrite fst_emit. apply Forall_app. split; [repeat constructor | apply IH].
Qed.

Lemma avio_closep_setup (w : World) : setup_only (avio_closep w).
Proof. unfold avio_closep. destruct (has_file w); repeat constructor. Qed.

Local Ltac setup_list :=
  unfold setup_only;
  repeat first
    [ apply Forall_nil
    | apply Forall_cons; [first [reflexivity | assumption]|]
    | apply Forall_app; split
    | apply avio_closep_setup
    | assumption ].

Lemma Entry_shape (w : World) : entry_shape w.
Proof.
  set (out := make_output_path (m_input w) (m_outFormat w)).
  set (start := EvLog (start_message (m_reencode w))).
  assert (Hentry : Entry w =
    start :: EvOpenInput (m_input w) (w_open_input w) ::
    (if w_open_input w <? 0 then
       [EvLog ("Failed to open input: " ++ w_strerror w (w_open_input w))%string;
        EvSetRunning false]
     else
       EvFindStreamInfo (w_find_stream_info w) ::
       (if w_find_stream_info w <? 0 then
          [EvLog "Failed to find stream info"; EvCloseInput; EvSetRunning false]
        else if negb (m_reencode w) then remux w out else transcode w out)))
    by reflexivity.
  destruct (w_open_input w <? 0) eqn:Hopen.
  { apply shape_early. rewrite Hentry. subst start. setup_list. }
  destruct (w_find_stream_info w <? 0) eqn:Hinfo.
  { apply shape_early. rewrite Hentry. subst start. setup_list. }
  destruct (m_reencode w) eqn:Hmode; simpl negb in Hentry; cbv iota in Hentry.
  - (* re-encode *)
    unfold transcode in Hentry.
    set (v := find_video_stream (in_streams w)) in *.
    destruct (v <? 0) eqn:Hv.
    { apply shape_early. rewrite Hentry. subst start. setup_list. }
    destruct (w_find_decoder w); simpl negb in Hentry; cbv iota in Hentry;
      [|apply shape_early; rewrite Hentry; subst start; setup_list].
    destruct (w_open_decoder w <? 0) eqn:Hdec.
    { apply shape_early. rewrite Hentry. subst start. setup_list. }
    destruct (w_alloc_output w); simpl negb in Hentry; cbv iota in Hentry;
      [|apply shape_early; rewrite Hentry; subst start; setup_list].
    pose proof (transcode_streams_setup w v (in_streams w) O (w_open_decoder w)
                  (init_mapper (List.length (in_streams w)))) as Hs.
    destruct (transcode_streams w v (in_streams w) O (w_open_decoder w)
                (init_mapper (List.length (in_streams w))))
      as [evs [ret m]]; simpl in Hs.
    destruct (ret <? 0).
    { apply shape_early. rewrite Hentry. subst start. setup_list. }
    destruct (w_find_encoder w); simpl negb in Hentry; cbv iota in Hentry;
      [|apply shape_early; rewrite Hentry; subst start; setup_list].
    destruct (w_open_encoder w <? 0) eqn:Henc.
    { apply shape_early. rewrite Hentry. subst start. setup_list. }
    apply Z.ltb_ge in Hv.
    destruct (has_file w) eqn:Hfile.
    + destruct (w_avio_open w <? 0) eqn:Havio.
      { apply shape_early. rewrite Hentry. subst start. setup_list. }
      destruct (w_write_header w <? 0) eqn:Hhdr.
      { apply shape_early. rewrite Hentry. subst start. setup_list. }
      apply Z.ltb_ge in Hhdr.
      apply (shape_transcode w
               ([start; EvOpenInput (m_input w) (w_open_input w);
                 EvFindStreamInfo (w_find_stream_info w);
                 EvFindDecoder true; EvOpenDecoder (w_open_decoder w);
                 EvAllocOutput (m_outFormat w) out true] ++ evs ++
                [EvFindEncoder true; EvOpenEncoder (w_open_encoder w);
                 EvAvioOpen out (w_avio_open w)])
               (stream_mapping m)); try assumption;
        [subst start; setup_list | ..];
        try (rewrite Hentry; simpl; rewrite <- !app_assoc; reflexivity).
    + destruct (w_write_header w <? 0) eqn:Hhdr.
      { apply shape_early. rewrite Hentry. subst start. setup_list. }
      apply Z.ltb_ge in Hhdr.
      apply (shape_transcode w
               ([start; EvOpenInput (m_input w) (w_open_input w);
                 EvFindStreamInfo (w_find_stream_info w);
                 EvFindDecoder true; EvOpenDecoder (w_open_decoder w);
                 EvAllocOutput (m_outFormat w) out true] ++ evs ++
                [EvFindEncoder true; EvOpenEncoder (w_open_encoder w)])
               (stream_mapping m)); try assumption;
        [subst start; setup_list | ..];
        try (rewrite Hentry; simpl; rewrite <- !app_assoc; reflexivity).
  - (* remux *)
    unfold remux in Hentry.
    destruct (w_alloc_output w); simpl negb in Hentry; cbv iota in Hentry;
      [|apply shape_early; rewrite Hentry; subst start; setup_list].
    pose proof (remux_streams_setup w (in_streams w) O (w_find_stream_info w)
                  (init_mapper (List.length (in_streams w)))) as Hs.
    destruct (remux_streams w (in_streams w) O (w_find_stream_info w)
                (init_mapper (List.length (in_streams w))))
      as [evs [ret m]]; simpl in Hs.
    destruct (ret <? 0).
    { apply shape_early. rewrite Hentry. subst start. setup_list. }
    destruct (has_file w) eqn:Hfile.
    + destruct (w_avio_open w <? 0) eqn:Havio.
      { apply shape_early. rewrite Hentry. subst start. setup_list. }
      destruct (w_write_header w <? 0) eqn:Hhdr.
      { apply shape_early. rewrite Hentry. subst start. setup_list. }
      apply Z.ltb_ge in Hhdr.
      apply (shape_remux w
               ([start; EvOpenInput (m_input w) (w_open_input w);
                 EvFindStreamInfo (w_find_stream_info w);
                 EvAllocOutput (m_outFormat w) out true] ++ evs ++
                [EvAvioOpen out (w_avio_open w)])
               (stream_mapping m)); try assumption;
        [subst start; setup_list | ..];
        try (rewrite Hentry; simpl; rewrite <- !app_assoc; reflexivity).
    + destruct (w_write_header w <? 0) eqn:Hhdr.
      { apply shape_early. rewrite Hentry. subst start. setup_list. }
      apply Z.ltb_ge in Hhdr.
      apply (shape_remux w
               ([start; EvOpenInput (m_input w) (w_open_input w);
                 EvFindStreamInfo (w_find_stream_info w);
                 EvAllocOutput (m_outFormat w) out true] ++ evs)
               (stream_mapping m)); try assumption;
        [subst start; setup_list | ..];
        try (rewrite Hentry; simpl; rewrite <- !app_assoc; reflexivity).
Qed.

Lemma setup_closing (tr : list event) :
  setup_only tr -> Forall (fun e => is_closing e = true) tr.
Proof. apply Forall_impl. intros e H. now destruct e. Qed.

Lemma closing_plain (e : event) : is_closing e = true -> is_plain e = true.
Proof. now destruct e. Qed.

Lemma closing_quiet (e : event) :
  is_closing e = true ->
  is_cancel e = false /\ is_poll e = false /\ is_packet_work e = false /\
  is_read e = false /\ is_video_send e = false /\ is_frame e = false.
Proof. destruct e; simpl; intros H; try discriminate; now repeat split. Qed.

Lemma closing_count (f : event -> bool) (tr : list event) :
  (forall e, is_closing e = true -> f e = false) ->
  Forall (fun e => is_closing e = true) tr -> count f tr = O.
Proof.
  intros Hf H. apply count_none. revert H. apply Forall_impl. exact Hf.
Qed.

Lemma remux_finish_closing (w : World) (out : string) :
  Forall (fun e => is_closing e = true) (remux_finish w out).
Proof.
  unfold remux_finish, avio_closep. destruct (has_file w); repeat constructor.
Qed.

Lemma cleanup_closing (w : World) (out : string) :
  setup_only (cleanup w out).
Proof.
  unfold cleanup, avio_closep. destruct (has_file w); repeat constructor.
Qed.

Lemma transcode_run_cases (w : World) (v : Z) (mapping : list Z)
  (out : string) :
  let enc_tb := encoder_time_base w v in
  (exists evs j,
      transcode_loop w v mapping enc_tb (in_packets w) init_job
      = (evs, Some j) /\
      transcode_run w v mapping out
      = evs ++ flush_encoder w v mapping enc_tb j ++ cleanup w out) \/
  (exists evs,
      transcode_loop w v mapping enc_tb (in_packets w) init_job
      = (evs, None) /\
      transcode_run w v mapping out = evs ++ cleanup w out).
Proof.
  unfold transcode_run.
  destruct (transcode_loop w v mapping (encoder_time_base w v) (in_packets w)
              init_job) as [evs [j|]]; simpl.
  - left. exists evs, j. auto.
  - right. exists evs. auto.
Qed.

Lemma flush_encoder_events (w : World) (v : Z) (mapping : list Z)
  (enc_tb : AVRational) (all : list AVPacket) (j : Job) :
  Forall (fun e => traced w true v all e /\ is_poll e = false /\
                   is_frame e = false /\ is_video_send e = false)
    (flush_encoder w v mapping enc_tb j).
Proof.
  unfold flush_encoder. constructor.
  - repeat split. now apply tr_send_frame.
  - apply Forall_app. split.
    + generalize (flush_packets_events w v mapping enc_tb all
                    (enc_ready j ++ enc_flush w (enc_sent j)) (n_write j)).
      apply Forall_impl. intros e ((H1 & _) & H2 & H3 & H4 & _). auto.
    + constructor; [|constructor]. repeat split. now apply tr_plain.
Qed.

(** Every event of a job is one that [traced] allows. *)
Lemma Entry_traced (w : World) :
  Forall (traced w (m_reencode w) (find_video_stream (in_streams w))
            (in_packets w))
    (Entry w).
Proof.
  set (v := find_video_stream (in_streams w)).
  assert (Hclosing : forall b tr,
            Forall (fun e => is_closing e = true) tr ->
            Forall (traced w b v (in_packets w)) tr).
  { intros b tr. apply Forall_impl. intros e H.
    apply tr_plain. now apply closing_plain. }
  destruct (Entry_shape w) as [H | pre mapping Hm Hpre Hh Heq
                                 | pre mapping Hm Hpre Hh Hv Heq].
  - apply Hclosing. now apply setup_closing.
  - rewrite Heq, Hm. apply Forall_app. split.
    + apply Hclosing. now apply setup_closing.
    + constructor; [now apply tr_plain|]. apply Forall_app. split.
      * destruct (remux_loop_facts w v mapping (in_packets w) (in_packets w)
                    O O (incl_refl _)) as (H & _).
        revert H. apply Forall_impl. now intros e [H _].
      * apply Hclosing. apply remux_finish_closing.
  - rewrite Heq, Hm. apply Forall_app. split.
    + apply Hclosing. now apply setup_closing.
    + constructor; [now apply tr_plain|]. fold v.
      pose proof (transcode_loop_facts w v mapping (encoder_time_base w v)
                    (in_packets w) (in_packets w) init_job (incl_refl _))
        as (Hl & _).
      assert (Hc : Forall (traced w true v (in_packets w))
                     (cleanup w (make_output_path (m_input w) (m_outFormat w)))).
      { apply Hclosing. apply setup_closing. apply cleanup_closing. }
      destruct (transcode_run_cases w v mapping
                  (make_output_path (m_input w) (m_outFormat w)))
        as [(evs & j & Hrun & ->) | (evs & Hrun & ->)];
        rewrite Hrun in Hl; simpl in Hl.
      * apply Forall_app. split.
        -- revert Hl. apply Forall_impl. now intros e [H _].
        -- apply Forall_app. split; [|exact Hc].
           generalize (flush_encoder_events w v mapping (encoder_time_base w v)
                         (in_packets w) j).
           apply Forall_impl. now intros e [H _].
      * apply Forall_app. split; [|exact Hc].
        revert Hl. apply Forall_impl. now intros e [H _].
Qed.

Lemma closing_no_cancel (tr : list event) :
  Forall (fun e => is_closing e = true) tr ->
  Forall (fun e => is_cancel e = false) tr.
Proof. apply Forall_impl. intros e H. now apply closing_quiet. Qed.

Lemma setup_no_finalize (tr : list event) :
  setup_only tr -> Forall (fun e => is_finalize e = false) tr.
Proof. apply Forall_impl. intros e H. now destruct e. Qed.

Lemma in_loop_no_finalize (e : event) :
  in_loop e = true -> is_finalize e = false.
Proof. destruct e as [| | | | | | | | | | | | | | | | | | | |[p|] r| |[f|] r| | | |];
         simpl; intros H; try discriminate; reflexivity. Qed.

(** A job in which the poll answered yes: up to that poll there was no
    cancellation, after it comes the log line and then, in remux mode, the
    trailer and the release of lines 328-335, in re-encode mode the block
    under [cleanup] alone. *)
Lemma Entry_cancelled (w : World) :
  In (EvTestDestroy true) (Entry w) ->
  exists pre,
    Forall (fun e => is_cancel e = false) pre /\
    (m_reencode w = true -> Forall (fun e => is_finalize e = false) pre) /\
    Entry w =
      pre ++ cancel_tail ++
      (if m_reencode w
       then cleanup w (make_output_path (m_input w) (m_outFormat w))
       else remux_finish w (make_output_path (m_input w) (m_outFormat w))).
Proof.
  intros Hin.
  set (out := make_output_path (m_input w) (m_outFormat w)) in *.
  destruct (Entry_shape w) as [H | pre mapping Hm Hpre Hh Heq
                                 | pre mapping Hm Hpre Hh Hv Heq].
  - exfalso. revert Hin.
    apply (Forall_not_In is_cancel); [|reflexivity].
    apply closing_no_cancel. now apply setup_closing.
  - fold out in Heq.
    assert (Hpre' : Forall (fun e => is_cancel e = false) pre).
    { apply closing_no_cancel. now apply setup_closing. }
    assert (Hfin : Forall (fun e => is_cancel e = false) (remux_finish w out)).
    { apply closing_no_cancel. apply remux_finish_closing. }
    destruct (remux_loop_facts w 0 mapping (in_packets w) (in_packets w)
                O O (incl_refl _)) as (_ & _ & [Hno | (body & Hb & Hbody)]).
    + exfalso. revert Hin. rewrite Heq.
      apply (Forall_not_In is_cancel); [|reflexivity].
      apply Forall_app. split; [exact Hpre'|].
      constructor; [reflexivity|]. apply Forall_app. auto.
    + exists (pre ++ EvWriteHeader (w_write_header w) :: body).
      split; [|split].
      * apply Forall_app. split; [exact Hpre'|]. now constructor.
      * intros Hm'. congruence.
      * rewrite Heq, Hb, Hm. repeat (rewrite <- app_assoc; simpl).
        reflexivity.
  - fold out in Heq. set (v := find_video_stream (in_streams w)) in *.
    assert (Hpre' : Forall (fun e => is_cancel e = false) pre).
    { apply closing_no_cancel. now apply setup_closing. }
    assert (Hfin : Forall (fun e => is_cancel e = false) (cleanup w out)).
    { apply closing_no_cancel. apply setup_closing. apply cleanup_closing. }
    pose proof (transcode_loop_facts w v mapping (encoder_time_base w v)
                  (in_packets w) (in_packets w) init_job (incl_refl _))
      as (Hl & _ & _ & Hc).
    destruct (transcode_run_cases w v mapping out)
      as [(evs & j & Hrun & Hall) | (evs & Hrun & Hall)];
      rewrite Hrun in Hl, Hc; unfold cancel_shape in Hc; simpl in Hl, Hc.
    + exfalso. revert Hin. rewrite Heq, Hall.
      apply (Forall_not_In is_cancel); [|reflexivity].
      apply Forall_app. split; [exact Hpre'|].
      constructor; [reflexivity|]. apply Forall_app. split; [exact Hc|].
      apply Forall_app. split; [|exact Hfin].
      generalize (flush_encoder_events w v mapping (encoder_time_base w v)
                    (in_packets w) j).
      apply Forall_impl. intros e (_ & H & _).
      destruct e; try reflexivity. discriminate.
    + destruct Hc as [Hno | (body & Hb & Hbody)].
      * exfalso. revert Hin. rewrite Heq, Hall.
        apply (Forall_not_In is_cancel); [|reflexivity].
        apply Forall_app. split; [exact Hpre'|].
        constructor; [reflexivity|]. apply Forall_app. auto.
      * exists (pre ++ EvWriteHeader (w_write_header w) :: body).
        split; [|split].
        -- apply Forall_app. split; [exact Hpre'|]. now constructor.
        -- intros _. apply Forall_app. split; [now apply setup_no_finalize|].
           constructor; [reflexivity|].
           rewrite Hb in Hl. apply Forall_app in Hl. destruct Hl as [Hl _].
           revert Hl. apply Forall_impl. intros e [_ H].
           now apply in_loop_no_finalize.
        -- rewrite Heq, Hall, Hb, Hm. repeat (rewrite <- app_assoc; simpl).
           reflexivity.
Qed.

(** The flag is polled at most once for each packet that is read (remux
    path), for each packet sent to the decoder (re-encode path). *)
Lemma Entry_polls (w : World) :
  (count is_poll (Entry w)
   <= count (if m_reencode w then is_video_send else is_read) (Entry w))%nat.
Proof.
  set (out := make_output_path (m_input w) (m_outFormat w)).
  destruct (Entry_shape w) as [H | pre mapping Hm Hpre Hh Heq
                                 | pre mapping Hm Hpre Hh Hv Heq].
  - rewrite (closing_count is_poll (Entry w)); [lia | |now apply setup_closing].
    intros e He. now apply closing_quiet.
  - rewrite Heq, Hm, !count_app, !count_cons, !count_app.
    rewrite (closing_count is_poll pre);
      [| intros e He; now apply closing_quiet | now apply setup_closing].
    rewrite (closing_count is_poll (remux_finish w _));
      [| intros e He; now apply closing_quiet | apply remux_finish_closing].
    destruct (remux_loop_facts w 0 mapping (in_packets w) (in_packets w)
                O O (incl_refl _)) as (_ & Hp & _).
    simpl. lia.
  - rewrite Heq, Hm, !count_app, !count_cons.
    rewrite (closing_count is_poll pre);
      [| intros e He; now apply closing_quiet | now apply setup_closing].
    set (v := find_video_stream (in_streams w)) in *.
    pose proof (transcode_loop_facts w v mapping (encoder_time_base w v)
                  (in_packets w) (in_packets w) init_job (incl_refl _))
      as (_ & Hp & _).
    assert (Hc : count is_poll (cleanup w out) = O).
    { apply closing_count; [intros e He; now apply closing_quiet|].
      apply setup_closing, cleanup_closing. }
    destruct (transcode_run_cases w v mapping out)
      as [(evs & j & Hrun & Hall) | (evs & Hrun & Hall)];
      fold out; rewrite Hall; rewrite Hrun in Hp; simpl in Hp;
      rewrite !count_app, Hc.
    + assert (Hf : count is_poll
                     (flush_encoder w v mapping (encoder_time_base w v) j) = O).
      { apply count_none.
        generalize (flush_encoder_events w v mapping (encoder_time_base w v)
                      (in_packets w) j).
        apply Forall_impl. now intros e (_ & H & _). }
      rewrite Hf. simpl. lia.
    + simpl. lia.
Qed.

(** ** Rescaled timestamps *)

Lemma av_rescale_q_rnd_clamped (a : Z) (bq cq : AVRational) :
  0 < num cq * den bq ->
  rescaled_clamped a (num bq * den cq) (num cq * den bq)
    (av_rescale_q_rnd a bq cq PKT_RND).
Proof.
  intros Hc. unfold av_rescale_q_rnd. rewrite PKT_RND_clamps.
  exists (round_near_inf (a * (num bq * den cq)) (num cq * den bq)).
  split; [now apply round_near_inf_nearest|].
  unfold clamp64, INT64_MIN, INT64_MAX. lia.
Qed.

Lemma av_rescale_q_plain (a : Z) (bq cq : AVRational) :
  0 < num cq * den bq ->
  rescaled_plain a (num bq * den cq) (num cq * den bq) (av_rescale_q a bq cq).
Proof.
  intros Hc. unfold av_rescale_q, av_rescale_q_rnd. rewrite NEAR_INF_plain.
  exists (round_near_inf (a * (num bq * den cq)) (num cq * den bq)).
  split; [now apply round_near_inf_nearest|].
  unfold wrap64, INT64_MIN, INT64_MAX. intros Hfit.
  rewrite Z.mod_small; lia.
Qed.

Lemma copy_packet_rescaled_copy (w : World) (p : AVPacket) (o : Z) :
  rescaled_copy w p
    (copy_packet (in_time_base w (stream_index p)) (out_time_base w o) o p).
Proof.
  unfold rescaled_copy. cbn [stream_index pos data pts dts duration copy_packet].
  repeat split; intros.
  - now apply av_rescale_q_rnd_clamped.
  - now apply av_rescale_q_rnd_clamped.
  - now apply av_rescale_q_plain.
Qed.

Section WriteOrigins.

Variable w : World.
Variable reencode : bool.
Variable v : Z.
Variable all : list AVPacket.

Local Abbreviation explained tr :=
  (forall prev, writes_explained w reencode v all prev tr).

Lemma explained_nil : explained [].
Proof. intros prev. exact I. Qed.

Lemma explained_cons (e : event) (tr : list event) :
  is_write e = false -> explained tr -> explained (e :: tr).
Proof.
  intros He Htr prev. split; [|apply Htr].
  destruct e; try exact I. discriminate He.
Qed.

Lemma explained_app (a b : list event) :
  explained a -> explained b -> explained (a ++ b).
Proof.
  intros Ha Hb prev. specialize (Ha prev). revert prev Ha.
  induction a as [|e a IH]; intros prev Ha; [apply Hb|].
  destruct Ha as [He Ha]. split; [exact He | now apply IH].
Qed.

Lemma explained_quiet (tr : list event) :
  Forall (fun e => is_write e = false) tr -> explained tr.
Proof.
  induction 1 as [|e tr He _ IH]; [apply explained_nil|].
  now apply explained_cons.
Qed.

Lemma explained_encoded (p' : AVPacket) (r : Z) (tr : list event) :
  reencode = true -> explained tr ->
  explained (EvReceivePacket 0 :: EvWriteFrame p' r :: tr).
Proof.
  intros Hm Htr prev. split; [exact I|]. split; [exact Hm | apply Htr].
Qed.

Lemma explained_copy (p : AVPacket) (o r : Z) (tr : list event) :
  In p all -> (reencode = true -> stream_index p <> v) -> explained tr ->
  explained
    (EvReadFrame (Some p) ::
     EvWriteFrame
       (copy_packet (in_time_base w (stream_index p)) (out_time_base w o) o p)
       r :: tr).
Proof.
  intros Hin Hv Htr prev. split; [exact I|]. split; [|apply Htr].
  split; [exact Hin|]. split; [exact Hv|]. apply copy_packet_rescaled_copy.
Qed.

Lemma explained_progress (ts : Z) (tb : AVRational) :
  explained (progress_events w ts tb).
Proof.
  apply explained_quiet. unfold progress_events.
  destruct ((in_duration w >? 0) && negb (ts =? AV_NOPTS_VALUE));
    repeat constructor.
Qed.

Lemma explained_remux_loop (mapping : list Z) (pkts : list AVPacket) :
  reencode = false ->
  forall nw np, incl pkts all -> explained (remux_loop w mapping pkts nw np).
Proof.
  intros Hm.
  induction pkts as [|pkt rest IH]; intros nw np Hincl; cbn [remux_loop].
  - now apply explained_cons; [|apply explained_nil].
  - assert (Hin : In pkt all) by (apply Hincl; now left).
    assert (Hrest : incl rest all) by (intros x Hx; apply Hincl; now right).
    destruct (lookup_mapping mapping (stream_index pkt)) as [o|].
    + apply explained_copy; [exact Hin | congruence |].
      destruct (w_write_frame w nw <? 0).
      * now apply explained_cons; [|apply explained_nil].
      * apply explained_app; [apply explained_progress|].
        apply explained_cons; [reflexivity|].
        destruct (w_test_destroy w np); [|now apply IH].
        now apply explained_cons; [|apply explained_nil].
    + apply explained_cons; [reflexivity | now apply IH].
Qed.

Variable mapping : list Z.
Variable enc_tb : AVRational.
Hypothesis Hmode : reencode = true.

Lemma explained_receive_packets (q : list (recv AVPacket)) :
  forall ret nw,
    explained (fst (receive_packets w v mapping enc_tb q ret nw)).
Proof.
  induction q as [|[p|e] q IH]; intros ret nw; cbn [receive_packets];
    destruct (ret <? 0); cbn [fst]; try apply explained_nil.
  - now apply explained_cons; [|apply explained_nil].
  - rewrite fst_emit. cbn [app]. apply explained_encoded; [exact Hmode|].
    destruct (w_write_frame w nw <? 0); [|apply IH].
    now apply explained_cons; [|apply explained_nil].
  - destruct (again_or_eof (Z.neg e)); cbn [fst];
      repeat (apply explained_cons; [reflexivity|]); apply explained_nil.
Qed.

Lemma explained_receive_frames (q : list (recv AVFrame)) :
  forall ret j,
    explained (fst (receive_frames w v mapping enc_tb q ret j)).
Proof.
  induction q as [|[f|e] q IH]; intros ret j; cbn [receive_frames];
    destruct (ret <? 0); cbn [fst]; try apply explained_nil.
  - now apply explained_cons; [|apply explained_nil].
  - destruct (enc_send w (enc_sent j) (scale_frame w f)) as [r outs].
    rewrite fst_emit. cbn [app].
    do 2 (apply explained_cons; [reflexivity|]).
    destruct (r <? 0);
      [now apply explained_cons; [|apply explained_nil]|].
    pose proof (explained_receive_packets (enc_ready j ++ outs) r (n_write j))
      as Hp.
    destruct (receive_packets w v mapping enc_tb (enc_ready j ++ outs) r
                (n_write j)) as [evs [[[r' eq'] nw']|]]; cbn [fst] in *;
      [|exact Hp].
    rewrite fst_emit.
    repeat apply explained_app; try exact Hp;
      try apply explained_progress;
      try (apply explained_cons; [reflexivity | apply explained_nil]).
    destruct (w_test_destroy w (n_poll j)); [|apply IH].
    now apply explained_cons; [|apply explained_nil].
  - destruct (again_or_eof (Z.neg e)); cbn [fst];
      repeat (apply explained_cons; [reflexivity|]); apply explained_nil.
Qed.

Lemma explained_transcode_loop (pkts : list AVPacket) :
  forall j, incl pkts all ->
    explained (fst (transcode_loop w v mapping enc_tb pkts j)).
Proof.
  induction pkts as [|pkt rest IH]; intros j Hincl; cbn [transcode_loop fst].
  - now apply explained_cons; [|apply explained_nil].
  - assert (Hin : In pkt all) by (apply Hincl; now left).
    assert (Hrest : incl rest all) by (intros x Hx; apply Hincl; now right).
    rewrite fst_emit. cbn [app].
    destruct (stream_index pkt =? v) eqn:Hv.
    + apply explained_cons; [reflexivity|].
      destruct (dec_send w (dec_sent j) pkt) as [ret frames].
      rewrite fst_emit. cbn [app]. apply explained_cons; [reflexivity|].
      destruct (ret <? 0);
        [now apply explained_cons; [|apply explained_nil]|].
      pose proof (explained_receive_frames (dec_ready j ++ frames) ret j)
        as Hf.
      destruct (receive_frames w v mapping enc_tb (dec_ready j ++ frames) ret j)
        as [evs [[q' j']|]]; cbn [fst] in *; [|exact Hf].
      rewrite fst_emit. apply explained_app; [exact Hf | now apply IH].
    + apply Z.eqb_neq in Hv.
      destruct (lookup_mapping mapping (stream_index pkt)) as [o|].
      * rewrite fst_emit. cbn [app].
        apply explained_copy; [exact Hin | now intros _ |].
        destruct (w_write_frame w (n_write j) <? 0); [|now apply IH].
        now apply explained_cons; [|apply explained_nil].
      * apply explained_cons; [reflexivity | now apply IH].
Qed.

Lemma explained_flush_packets (q : list (recv AVPacket)) :
  forall nw, explained (flush_packets w v mapping enc_tb q nw).
Proof.
  induction q as [|[p|e] q IH]; intros nw; cbn [flush_packets].
  - now apply explained_cons; [|apply explained_nil].
  - apply explained_encoded; [exact Hmode | apply IH].
  - destruct (again_or_eof (Z.neg e));
      repeat (apply explained_cons; [reflexivity|]); apply explained_nil.
Qed.

End WriteOrigins.

Lemma setup_no_write (tr : list event) :
  setup_only tr -> Forall (fun e => is_write e = false) tr.
Proof.
  apply Forall_impl. intros e He. destruct e; try reflexivity; discriminate He.
Qed.

(** Every write of a job has its origin in the event before it. *)
Lemma Entry_explained (w : World) (prev : option event) :
  writes_explained w (m_reencode w) (find_video_stream (in_streams w))
    (in_packets w) prev (Entry w).
Proof.
  revert prev.
  set (out := make_output_path (m_input w) (m_outFormat w)).
  destruct (Entry_shape w) as [H | pre mapping Hm Hpre Hh Heq
                                 | pre mapping Hm Hpre Hh Hv Heq].
  - now apply explained_quiet, setup_no_write.
  - rewrite Heq. apply explained_app;
      [now apply explained_quiet, setup_no_write|].
    apply explained_cons; [reflexivity|].
    apply explained_app;
      [apply explained_remux_loop; [exact Hm | apply incl_refl]|].
    apply explained_quiet. unfold remux_finish, avio_closep.
    destruct (has_file w); repeat constructor.
  - rewrite Heq. apply explained_app;
      [now apply explained_quiet, setup_no_write|].
    apply explained_cons; [reflexivity|].
    set (v := find_video_stream (in_streams w)) in *.
    assert (Hc : forall prev,
               writes_explained w (m_reencode w) v (in_packets w) prev
                 (cleanup w out)).
    { apply explained_quiet, setup_no_write, cleanup_closing. }
    pose proof (explained_transcode_loop w (m_reencode w) v (in_packets w)
                  mapping (encoder_time_base w v) Hm (in_packets w) init_job
                  (incl_refl _)) as Hl.
    destruct (transcode_run_cases w v mapping out)
      as [(evs & j & Hrun & Hall) | (evs & Hrun & Hall)];
      fold out; rewrite Hall; rewrite Hrun in Hl; cbn [fst] in Hl.
    + apply explained_app; [exact Hl|]. apply explained_app; [|exact Hc].
      unfold flush_encoder. apply explained_cons; [reflexivity|].
      apply explained_app;
        [now apply explained_flush_packets|].
      now apply explained_cons; [|apply explained_nil].
    + apply explained_app; [exact Hl | exact Hc].
Qed.

Lemma writes_explained_at (w : World) (reencode : bool) (v : Z)
  (all : list AVPacket) (pre post : list event) (p' : AVPacket) (r : Z) :
  forall prev,
    writes_explained w reencode v all prev (pre ++ EvWriteFrame p' r :: post) ->
    write_origin w reencode v all (last_event prev pre) p'.
Proof.
  induction pre as [|e pre IH]; intros prev H.
  - exact (proj1 H).
  - apply (IH (Some e)). exact (proj2 H).
Qed.

Lemma last_event_some (pre : list event) (e : event) :
  forall prev, last_event prev pre = Some e ->
    (pre = [] /\ prev = Some e) \/ exists pre', pre = pre' ++ [e].
Proof.
  induction pre as [|x pre IH]; intros prev H; [now left|].
  right. destruct (IH (Some x) H) as [[-> [= ->]] | (pre' & ->)].
  - now exists [].
  - now exists (x :: pre').
Qed.

(** C4. Every packet that a job hands to the muxer comes right after the
    event that tells where it is from.  Either that event is the read of an
    input packet [p] (every write of the remux path; in re-encode mode the
    writes for the streams that are not decoded): then the written packet is
    the copy of [p], with pts and dts rescaled from the time base of the
    input stream of [p] to the time base of the output stream it goes to,
    rounded to nearest with a tie away from zero and clamped to the 64-bit
    range, the duration rescaled with the same rounding and no clamp, the
    position [-1] and the payload unchanged.  Or that event is the receipt
    of a packet from the encoder, which happens in re-encode mode only. *)
Theorem copied_packet_rescaled (w : World) (pre post : list event)
  (p' : AVPacket) (r : Z) :
  Entry w = pre ++ EvWriteFrame p' r :: post ->
  exists pre' e,
    pre = pre' ++ [e] /\
    match e with
    | EvReadFrame (Some p) =>
        In p (in_packets w) /\
        (m_reencode w = true ->
         stream_index p <> find_video_stream (in_streams w)) /\
        rescaled_copy w p p'
    | EvReceivePacket 0 => m_reencode w = true
    | _ => False
    end.
Proof.
  intros Heq.
  pose proof (Entry_explained w None) as H. rewrite Heq in H.
  apply writes_explained_at in H.
  destruct (last_event None pre) as [e|] eqn:Hlast; [|destruct H].
  destruct (last_event_some pre e None Hlast) as [[_ [=]] | (pre' & ->)].
  exists pre', e. split; [reflexivity|].
  unfold write_origin in H.
  destruct e; try exact H; destruct H.
Qed.

Lemma copied_packet_rescaled_witness :
  let w := Sample.transcode_job in
  let p' := {| stream_index := 1; pts := 2; dts := 2; duration := 1;
               pos := -1; data := [] |} in
  exists pre' e,
    firstn 23 (Entry w) = pre' ++ [e] /\
    match e with
    | EvReadFrame (Some p) =>
        In p (in_packets w) /\
        (m_reencode w = true ->
         stream_index p <> find_video_stream (in_streams w)) /\
        rescaled_copy w p p'
    | EvReceivePacket 0 => m_reencode w = true
    | _ => False
    end.
Proof.
  intros w p'.
  apply (copied_packet_rescaled w (firstn 23 (Entry w))
           (skipn 24 (Entry w)) p' 0).
  vm_compute. reflexivity.
Defined.

(** ** Stream mapping of the remux path *)

(** C5. When the stream loop of the remux path ends without failure
    ([ret >= 0]), an input with N streams has given N output streams; output
    stream [i] holds the codec parameters of input stream [i] (kind, codec and
    extra data unchanged) with the codec tag set to 0, and every input index
    is kept and mapped to itself, so the mapping preserves order and is
    injective. *)
Theorem remux_stream_mapping (w : World) (evs : list event) (ret : Z)
  (m : Mapper) :
  0 <= w_find_stream_info w ->
  remux_streams w (in_streams w) O (w_find_stream_info w)
    (init_mapper (List.length (in_streams w))) = (evs, (ret, m)) ->
  0 <= ret ->
  List.length (out_streams m) = List.length (in_streams w) /\
  (forall i s, nth_error (in_streams w) i = Some s ->
     exists par,
       nth_error (out_streams m) i = Some par /\
       codec_type par = codec_type (codecpar s) /\
       codec_id par = codec_id (codecpar s) /\
       extradata par = extradata (codecpar s) /\
       codec_tag par = 0) /\
  (forall i, 0 <= i < Z.of_nat (List.length (in_streams w)) ->
     lookup_mapping (stream_mapping m) i = Some i).
Proof.
  intros H0 Hrun Hret.
  destruct (remux_streams_inv w (in_streams w) O (w_find_stream_info w)
              (init_mapper (List.length (in_streams w))) evs ret m H0
              eq_refl eq_refl Hrun Hret) as (Ho & Hm & _).
  simpl in Ho, Hm. repeat split.
  - now rewrite Ho, length_map.
  - intros i s Hs. exists (copied_parameters s).
    rewrite Ho, nth_error_map, Hs. repeat split.
  - intros i Hi. rewrite Hm. now apply lookup_identity_mapping.
Qed.

Lemma remux_stream_mapping_witness :
  exists m,
    List.length (out_streams m) = 2%nat /\
    lookup_mapping (stream_mapping m) 1 = Some 1.
Proof.
  exists (snd (snd (remux_streams Sample.remux_job Sample.two_streams O 0
                      (init_mapper 2)))).
  destruct (remux_stream_mapping Sample.remux_job
              [EvNewStream true; EvParametersCopy 0;
               EvNewStream true; EvParametersCopy 0]
              0
              (snd (snd (remux_streams Sample.remux_job Sample.two_streams O 0
                           (init_mapper 2)))))
    as (Hlen & _ & Hmap).
  - vm_compute. discriminate.
  - reflexivity.
  - vm_compute. discriminate.
  - split; [exact Hlen|]. apply Hmap. simpl. lia.
Defined.

(** ** Choice of the stream that is decoded *)

Lemma traced_send_packet (w : World) (b : bool) (v : Z)
  (all : list AVPacket) (p : option AVPacket) (r : Z) :
  traced w b v all (EvSendPacket p r) ->
  exists q, p = Some q /\ stream_index q = v /\ In q all.
Proof.
  intros H. inversion H as [e Hp | | q r0 _ Hin Hv | | |]; subst.
  - discriminate Hp.
  - now exists q.
Qed.

(** C6. In re-encode mode the index that is searched is [-1] when no stream
    is of kind video and otherwise the index of the first video stream, no
    stream before it being of kind video; the decoder is only ever sent
    packets of that stream; and when the input has no video stream the job
    logs "No video stream found for re-encoding", closes the input and ends:
    no output context is allocated and no output file is opened. *)
Theorem transcode_selects_first_video (w : World) :
  m_reencode w = true ->
  0 <= w_open_input w -> 0 <= w_find_stream_info w ->
  let v := find_video_stream (in_streams w) in
  ((v = -1 /\ Forall (fun s => is_video s = false) (in_streams w)) \/
   (exists k s,
       v = Z.of_nat k /\ nth_error (in_streams w) k = Some s /\
       is_video s = true /\
       Forall (fun s' => is_video s' = false) (firstn k (in_streams w)))) /\
  (forall p r, In (EvSendPacket p r) (Entry w) ->
     exists q, p = Some q /\ stream_index q = v) /\
  (Forall (fun s => is_video s = false) (in_streams w) ->
   Entry w =
     [EvLog "Starting encoding conversion...";
      EvOpenInput (m_input w) (w_open_input w);
      EvFindStreamInfo (w_find_stream_info w);
      EvLog "No video stream found for re-encoding";
      EvCloseInput; EvSetRunning false]).
Proof.
  intros Hm Hopen Hinfo v. split; [|split].
  - destruct (find_video_from_first (in_streams w) 0 ltac:(lia))
      as [H | (k & s & H1 & H2)]; [now left|].
    right. exists k, s. split; [exact H1 | exact H2].
  - intros p r Hin.
    pose proof (Entry_traced w) as Hall. rewrite Forall_forall in Hall.
    destruct (traced_send_packet _ _ _ _ _ _ (Hall _ Hin)) as (q & -> & Hq & _).
    now exists q.
  - intros Hnone.
    assert (Hv : v = -1).
    { destruct (find_video_from_first (in_streams w) 0 ltac:(lia))
        as [[H _] | (k & s & _ & Hs & Hvid & _)]; [exact H|].
      rewrite Forall_forall in Hnone.
      apply nth_error_In in Hs. specialize (Hnone s Hs). congruence. }
    unfold Entry, transcode. fold v. rewrite Hv, Hm.
    apply Z.ltb_ge in Hopen, Hinfo. now rewrite Hopen, Hinfo.
Qed.

Lemma transcode_selects_first_video_witness :
  Entry Sample.audio_only =
    [EvLog "Starting encoding conversion..."; EvOpenInput "/v/in.avi" 0;
     EvFindStreamInfo 0; EvLog "No video stream found for re-encoding";
     EvCloseInput; EvSetRunning false].
Proof.
  refine (proj2 (proj2 (transcode_selects_first_video Sample.audio_only
                          eq_refl _ _)) _).
  - vm_compute. discriminate.
  - vm_compute. discriminate.
  - repeat constructor.
Defined.

(** ** Progress *)









(** ** Cancellation *)

Lemma after_cancel (w : World) (pre post : list event) :
  Entry w = pre ++ EvTestDestroy true :: post ->
  post = EvLog "Conversion cancelled" ::
         (if m_reencode w
          then cleanup w (make_output_path (m_input w) (m_outFormat w))
          else remux_finish w (make_output_path (m_input w) (m_outFormat w))).
Proof.
  intros Heq.
  assert (Hin : In (EvTestDestroy true) (Entry w)).
  { rewrite Heq. apply in_or_app. right. now left. }
  destruct (Entry_cancelled w Hin) as (body & Hbody & _ & Hshape).
  rewrite Heq in Hshape. unfold cancel_tail in Hshape. simpl in Hshape.
  symmetry in Hshape.
  apply (split_at_unique is_cancel) in Hshape; try reflexivity;
    [now destruct Hshape as (_ & _ & ->) | exact Hbody |].
  constructor; [reflexivity|]. apply closing_no_cancel.
  destruct (m_reencode w);
    [apply setup_closing, cleanup_closing | apply remux_finish_closing].
Qed.

(** C8 as stated fails: with a decoder that has a delay of one packet, two
    packets go down the video path of the re-encode loop and the flag is
    polled once. *)
Lemma poll_skipped_without_frame :
  count is_video_send (Entry Sample.transcode_delayed) = 2%nat /\
  count is_poll (Entry Sample.transcode_delayed) = 1%nat.
Proof. split; vm_compute; reflexivity. Qed.

(** C3. When a poll of the cancellation flag answers yes: in remux mode the
    log line "Conversion cancelled" is followed by the trailer, the closing
    of the output handle (for a format that has one) and the rest of lines
    328-335; in re-encode mode it is followed by the block under [cleanup]
    and nothing else, and the whole job holds no flush of a codec and no
    trailer. *)
Theorem cancellation_paths (w : World) :
  In (EvTestDestroy true) (Entry w) ->
  let out := make_output_path (m_input w) (m_outFormat w) in
  (m_reencode w = false ->
   exists pre,
     Entry w =
       pre ++ cancel_tail ++ EvWriteTrailer :: avio_closep w ++
       [EvCloseInput; EvFreeOutput; EvLog (remux_finished out);
        EvSetRunning false]) /\
  (m_reencode w = true ->
   (exists pre, Entry w = pre ++ cancel_tail ++ cleanup w out) /\
   Forall (fun e => is_finalize e = false) (Entry w)).
Proof.
  intros Hin out.
  destruct (Entry_cancelled w Hin) as (pre & _ & Hfin & Heq). fold out in Heq.
  split; intros Hm; rewrite Hm in Heq.
  - now exists pre.
  - split; [now exists pre|]. rewrite Heq.
    apply Forall_app. split; [now apply Hfin|].
    apply Forall_app. split; [repeat constructor|].
    apply setup_no_finalize, cleanup_closing.
Qed.

Lemma cancellation_paths_witness :
  (exists pre,
      Entry Sample.remux_cancelled =
        pre ++ cancel_tail ++
        [EvWriteTrailer; EvAvioClose; EvCloseInput; EvFreeOutput;
         EvLog "Remux finished. Output: /v/in_converted.mkv";
         EvSetRunning false]) /\
  Forall (fun e => is_finalize e = false) (Entry Sample.transcode_cancelled).
Proof.
  split.
  - refine (proj1 (cancellation_paths Sample.remux_cancelled _) eq_refl).
    vm_compute. do 12 right. left. reflexivity.
  - refine (proj2 (proj2 (cancellation_paths Sample.transcode_cancelled _)
                     eq_refl)).
    vm_compute. do 21 right. left. reflexivity.
Defined.

(** ** The end of the re-encode path *)

Lemma cleanup_end (w : World) (out : string) :
  cleanup w out =
    ([EvFreeDecoder; EvFreeEncoder] ++ avio_closep w ++
     [EvFreeOutput; EvCloseInput]) ++
    [EvSetRunning false; EvLog (conversion_finished out)].
Proof.
  unfold cleanup, avio_closep. now destruct (has_file w).
Qed.

(** C10. A job in re-encode mode that has written the header, and so leaves
    through the block under [cleanup] however its packet loop ended, has as
    its last two events the reset of the running flag and then the log line
    "Conversion finished. Output: <path>". *)
Theorem transcode_ends_finished (w : World) (r : Z) :
  m_reencode w = true -> In (EvWriteHeader r) (Entry w) -> 0 <= r ->
  exists pre,
    Entry w =
      pre ++
      [EvSetRunning false;
       EvLog (conversion_finished
                (make_output_path (m_input w) (m_outFormat w)))].
Proof.
  intros Hm Hin Hr.
  set (out := make_output_path (m_input w) (m_outFormat w)).
  destruct (Entry_shape w) as [H | pre mapping Hm' _ _ _
                                 | pre mapping _ _ _ _ Heq].
  - exfalso. unfold setup_only in H. rewrite Forall_forall in H.
    specialize (H _ Hin). simpl in H. apply Z.ltb_lt in H. lia.
  - congruence.
  - fold out in Heq.
    destruct (transcode_run_cases w (find_video_stream (in_streams w))
                mapping out)
      as [(evs & j & _ & Hall) | (evs & _ & Hall)];
      rewrite Heq, Hall, cleanup_end.
    + eexists. rewrite !app_comm_cons, !app_assoc. reflexivity.
    + eexists. rewrite !app_comm_cons, !app_assoc. reflexivity.
Qed.

Lemma transcode_ends_finished_witness :
  exists pre,
    Entry Sample.transcode_job =
      pre ++
      [EvSetRunning false;
       EvLog "Conversion finished. Output: /v/in_converted.mkv"].
Proof.
  apply (transcode_ends_finished Sample.transcode_job 0).
  - reflexivity.
  - vm_compute. do 12 right. left. reflexivity.
  - lia.
Defined.

(** ** The two defects of the re-encode path *)

(** C1 fails on the code. No job ever signals end of input to the decoder
    (there is no call of [avcodec_send_packet] with a null packet), so the
    frames the decoder still holds when the input ends are never received.
    With a decoder that has a delay of one packet, two packets are sent, one
    frame is received, and the encoder is flushed and the trailer written
    with the frame of the last packet still inside the decoder. *)
Theorem decoder_never_flushed :
  (forall w r, ~ In (EvSendPacket None r) (Entry w)) /\
  count is_video_send (Entry Sample.transcode_delayed) = 2%nat /\
  count is_frame (Entry Sample.transcode_delayed) = 1%nat /\
  filter is_finalize (Entry Sample.transcode_delayed)
  = [EvSendFrame None 0; EvWriteTrailer].
Proof.
  split.
  - intros w r Hin.
    pose proof (Entry_traced w) as Hall. rewrite Forall_forall in Hall.
    destruct (traced_send_packet _ _ _ _ _ _ (Hall _ Hin)) as (q & Hq & _).
    discriminate Hq.
  - repeat split; vm_compute; reflexivity.
Qed.

(** C2 fails on the code. The loop over the frames of the decoder runs its
    body once at most, because the loop over the packets of the encoder
    leaves [ret] negative: one frame at most is received for a packet.  With
    a decoder that answers its first packet with two frames, the second
    frame is only asked for after the next packet was read, and the decoder
    is never asked until it has no frame ready. *)
Theorem one_frame_per_packet :
  (forall w v mapping enc_tb q ret j,
      (count is_frame (fst (receive_frames w v mapping enc_tb q ret j)) <= 1)%nat)
  /\
  fst (dec_send Sample.transcode_burst [] (Sample.packet 0 2)) = 0 /\
  List.length (snd (dec_send Sample.transcode_burst [] (Sample.packet 0 2)))
  = 2%nat /\
  filter is_decode_step (Entry Sample.transcode_burst)
  = [EvReadFrame (Some (Sample.packet 0 2)); EvReceiveFrame 0;
     EvReadFrame (Some (Sample.packet 0 4)); EvReceiveFrame 0;
     EvReadFrame None].
Proof.
  split.
  - intros w v mapping enc_tb q ret j.
    now destruct (receive_frames_facts w v mapping enc_tb [] q ret j)
      as (_ & _ & H & _).
  - repeat split; vm_compute; reflexivity.
Qed.

(** ** make_output_path on an arbitrary path *)

Section OutputPathTotal.

Local Open Scope string_scope.
Local Open Scope nat_scope.

Lemma find_last_of_none_inv (set : ascii -> bool) (s : string) :
  find_last_of set s = None -> none_of set s = true.
Proof.
  induction s as [|c s IH]; simpl; [reflexivity|].
  destruct (find_last_of set s); [discriminate|].
  destruct (set c); [discriminate|]. intros _. now rewrite IH.
Qed.

(** The index that [find_last_of] returns cuts the string at a character of
    the set, with none of the set after it. *)
Lemma find_last_of_split (set : ascii -> bool) (s : string) (i : nat) :
  find_last_of set s = Some i ->
  exists a c b,
    s = a ++ String c b /\ String.length a = i /\ set c = true /\
    none_of set b = true.
Proof.
  revert i. induction s as [|x s IH]; simpl; intros i H; [discriminate|].
  destruct (find_last_of set s) as [k|] eqn:Hs.
  - injection H as <-. destruct (IH k eq_refl) as (a & c & b & -> & <- & Hc & Hb).
    exists (String x a), c, b. auto.
  - destruct (set x) eqn:Hx; [|discriminate]. injection H as <-.
    exists EmptyString, x, s. repeat split; auto.
    now apply find_last_of_none_inv.
Qed.

(** Every path is a directory part followed by a file name. *)
Lemma path_splits (inPath : string) :
  exists dir name,
    inPath = dir ++ name /\ ends_with_sep dir /\ none_of is_sep name = true.
Proof.
  destruct (find_last_of is_sep inPath) as [i|] eqn:H.
  - destruct (find_last_of_split _ _ _ H) as (a & c & b & -> & _ & Hc & Hb).
    exists (a ++ String c EmptyString), b. repeat split.
    + now rewrite append_assoc.
    + right. now exists a, c.
    + exact Hb.
  - exists EmptyString, inPath. repeat split; [now left|].
    now apply find_last_of_none_inv.
Qed.

Lemma append_inj_l (a x y : string) : a ++ x = a ++ y -> x = y.
Proof.
  induction a as [|c a IH]; simpl; intros H; [exact H|].
  injection H as H. now apply IH.
Qed.

(** X1. Whatever the input path and the format, the derived path is the
    directory of the input (everything up to and including its last slash or
    backslash, nothing when it has none), then the file name of the input up
    to its last dot (the whole name when it has no dot), then
    ["_converted."] and the format; and it is never the input path itself:
    the worker cannot be told to write over the file it reads. *)
Theorem make_output_path_fresh (inPath outFmt : string) :
  (exists dir stem rest,
      inPath = dir ++ stem ++ rest /\
      ends_with_sep dir /\
      none_of is_sep (stem ++ rest) = true /\
      (rest = EmptyString /\ none_of is_dot stem = true \/
       exists ext, rest = String "." ext /\ none_of is_dot ext = true) /\
      make_output_path inPath outFmt = dir ++ stem ++ "_converted." ++ outFmt)
  /\ make_output_path inPath outFmt <> inPath.
Proof.
  destruct (path_splits inPath) as (dir & name & -> & Hd & Hn).
  destruct (split_dir dir name Hd Hn) as [Hdir Hbase].
  assert (Hshape : exists stem rest,
             name = stem ++ rest /\
             (rest = EmptyString /\ none_of is_dot stem = true \/
              exists ext, rest = String "." ext /\ none_of is_dot ext = true)
             /\
             make_output_path (dir ++ name) outFmt
             = dir ++ stem ++ "_converted." ++ outFmt).
  { destruct (find_last_of is_dot name) as [i|] eqn:H.
    - destruct (find_last_of_split _ _ _ H) as (a & c & b & -> & _ & Hc & Hb).
      unfold is_dot in Hc. apply Ascii.eqb_eq in Hc. subst c.
      exists a, (String "." b). repeat split; [right; now exists b|].
      unfold make_output_path. rewrite Hdir, Hbase.
      now rewrite (strip_ext a b Hb).
    - exists name, EmptyString. repeat split.
      + clear. induction name as [|c s IH]; simpl; [reflexivity|].
        now rewrite <- IH.
      + left. split; [reflexivity | now apply find_last_of_none_inv].
      + unfold make_output_path. now rewrite Hdir, Hbase, H. }
  destruct Hshape as (stem & rest & -> & Hrest & Hout). split.
  - exists dir, stem, rest. repeat split; assumption.
  - rewrite Hout. intros Heq.
    apply append_inj_l, append_inj_l in Heq.
    destruct Hrest as [[-> _] | (ext & -> & _)]; discriminate Heq.
Qed.

End OutputPathTotal.

(** ** Stream mapping of the re-encode path *)

Lemma transcode_parameters_from_nth (v : Z) (ins : list AVStream) :
  forall i k s,
    nth_error ins k = Some s ->
    nth_error (transcode_parameters_from v i ins) k
    = Some (transcode_parameters v (i + k) s).
Proof.
  induction ins as [|x rest IH]; intros i [|k] s H; simpl in *;
    try discriminate.
  - injection H as ->. now rewrite Nat.add_0_r.
  - rewrite (IH (S i) k s H). do 2 f_equal. lia.
Qed.

Lemma transcode_parameters_from_length (v : Z) (ins : list AVStream) :
  forall i, List.length (transcode_parameters_from v i ins) = List.length ins.
Proof. induction ins as [|x rest IH]; intros i; simpl; auto. Qed.

Lemma transcode_streams_inv (w : World) (v : Z) (ins : list AVStream) :
  forall (i : nat) (ret0 : Z) (m : Mapper) evs ret m',
    0 <= ret0 ->
    stream_mapping m = identity_mapping i ++ repeat (-1) (List.length ins) ->
    out_stream_cnt m = Z.of_nat i ->
    transcode_streams w v ins i ret0 m = (evs, (ret, m')) ->
    0 <= ret ->
    out_streams m' = out_streams m ++ transcode_parameters_from v i ins /\
    stream_mapping m' = identity_mapping (i + List.length ins).
Proof.
  assert (Hstep : forall i (m : Mapper) par n,
            stream_mapping m = identity_mapping i ++ repeat (-1) (S n) ->
            out_stream_cnt m = Z.of_nat i ->
            stream_mapping (map_stream m i par)
            = identity_mapping (S i) ++ repeat (-1) n /\
            out_stream_cnt (map_stream m i par) = Z.of_nat (S i)).
  { intros i m par n Hmap Hcnt. unfold map_stream.
    cbn [stream_mapping out_stream_cnt]. rewrite Hmap, Hcnt.
    cbn [repeat]. rewrite vec_set_at by apply identity_mapping_length.
    rewrite identity_mapping_snoc, <- app_assoc. split; [reflexivity | lia]. }
  induction ins as [|s rest IH];
    intros i ret0 m evs ret m' H0 Hmap Hcnt Hrun Hret.
  - simpl in *. inversion Hrun; subst.
    rewrite app_nil_r, Nat.add_0_r in *. now rewrite Hmap.
  - cbn [transcode_streams] in Hrun. cbn [List.length] in Hmap.
    cbn [transcode_parameters_from List.length].
    replace (i + S (List.length rest))%nat
      with (S i + List.length rest)%nat by lia.
    unfold transcode_parameters.
    assert (Hfail : AVERROR_UNKNOWN < 0) by (vm_compute; reflexivity).
    destruct (Z.of_nat i =? v).
    + destruct (w_new_stream w i);
        [|inversion Hrun; subst; lia].
      unfold emit in Hrun.
      destruct (transcode_streams w v rest (S i) ret0 _)
        as [evs1 [ret1 m1]] eqn:Hrec.
      simpl in Hrun. inversion Hrun; subst.
      destruct (Hstep i m blank_codecpar _ Hmap Hcnt) as [Hm1 Hc1].
      destruct (IH _ _ _ _ _ _ H0 Hm1 Hc1 Hrec Hret) as (Ho & Hm).
      split; [|exact Hm]. rewrite Ho. cbn [out_streams map_stream].
      now rewrite <- app_assoc.
    + destruct (w_new_stream w i);
        [|inversion Hrun; subst; lia].
      destruct (w_parameters_copy w (codecpar s) <? 0) eqn:Hc.
      * inversion Hrun; subst. apply Z.ltb_lt in Hc. lia.
      * apply Z.ltb_ge in Hc. unfold emit in Hrun.
        destruct (transcode_streams w v rest (S i) _ _)
          as [evs1 [ret1 m1]] eqn:Hrec.
        simpl in Hrun. inversion Hrun; subst.
        destruct (Hstep i m (set_codec_tag (codecpar s) 0) _ Hmap Hcnt)
          as [Hm1 Hc1].
        destruct (IH _ _ _ _ _ _ Hc Hm1 Hc1 Hrec Hret) as (Ho & Hm).
        split; [|exact Hm]. rewrite Ho. cbn [out_streams map_stream].
        now rewrite <- app_assoc.
Qed.

(** X2. When the stream loop of the re-encode path ends without failure
    ([ret >= 0]), an input with N streams has given N output streams; the
    stream that is re-encoded has a blank placeholder, every other output
    stream holds the parameters of the input stream of the same index with
    the codec tag set to 0, and every input index is mapped to itself. *)
Theorem transcode_stream_mapping (w : World) (evs : list event) (ret : Z)
  (m : Mapper) :
  0 <= w_open_decoder w ->
  transcode_streams w (find_video_stream (in_streams w)) (in_streams w) O
    (w_open_decoder w) (init_mapper (List.length (in_streams w)))
  = (evs, (ret, m)) ->
  0 <= ret ->
  List.length (out_streams m) = List.length (in_streams w) /\
  (forall i s, nth_error (in_streams w) i = Some s ->
     nth_error (out_streams m) i
     = Some (if Z.of_nat i =? find_video_stream (in_streams w)
             then blank_codecpar
             else set_codec_tag (codecpar s) 0)) /\
  (forall i, 0 <= i < Z.of_nat (List.length (in_streams w)) ->
     lookup_mapping (stream_mapping m) i = Some i).
Proof.
  intros H0 Hrun Hret.
  destruct (transcode_streams_inv w _ (in_streams w) O (w_open_decoder w)
              (init_mapper (List.length (in_streams w))) evs ret m H0
              eq_refl eq_refl Hrun Hret) as (Ho & Hm).
  simpl in Ho, Hm. repeat split.
  - now rewrite Ho, transcode_parameters_from_length.
  - intros i s Hs. rewrite Ho.
    now rewrite (transcode_parameters_from_nth _ _ O i s Hs).
  - intros i Hi. rewrite Hm. now apply lookup_identity_mapping.
Qed.

Lemma transcode_stream_mapping_witness :
  exists m,
    nth_error (out_streams m) 0 = Some blank_codecpar /\
    lookup_mapping (stream_mapping m) 1 = Some 1.
Proof.
  exists (snd (snd (transcode_streams Sample.transcode_job 0
                      Sample.two_streams O 0 (init_mapper 2)))).
  destruct (transcode_stream_mapping Sample.transcode_job
              [EvNewStream true; EvNewStream true; EvParametersCopy 0]
              0
              (snd (snd (transcode_streams Sample.transcode_job 0
                           Sample.two_streams O 0 (init_mapper 2)))))
    as (_ & Hpar & Hmap).
  - vm_compute. discriminate.
  - reflexivity.
  - vm_compute. discriminate.
  - split; [exact (Hpar O Sample.video_stream eq_refl)|].
    apply Hmap. simpl. lia.
Defined.

(** ** Frame rate of the encoder *)

(** X3. The frame rate given to the encoder never has a zero numerator: it is
    the guessed rate when that one is set; else the declared rate
    [r_frame_rate] of the video stream when that one is set; else 25/1.  So
    the time base of the encoder, its inverse, never has a zero
    denominator. *)
Theorem encoder_framerate_set (w : World) (v : Z) :
  num (encoder_framerate w v) <> 0 /\
  den (encoder_time_base w v) <> 0 /\
  (num (w_guess_frame_rate w) <> 0 ->
   encoder_framerate w v = w_guess_frame_rate w) /\
  (num (w_guess_frame_rate w) = 0 ->
   forall s, nth_error (in_streams w) (Z.to_nat v) = Some s ->
             num (r_frame_rate s) <> 0 ->
             encoder_framerate w v = r_frame_rate s) /\
  (num (w_guess_frame_rate w) = 0 ->
   (forall s, nth_error (in_streams w) (Z.to_nat v) = Some s ->
              num (r_frame_rate s) = 0) ->
   encoder_framerate w v = {| num := 25; den := 1 |}).
Proof.
  unfold encoder_time_base, av_inv_q, encoder_framerate. cbv zeta. cbn [den].
  destruct (num (w_guess_frame_rate w) =? 0) eqn:Hg;
    destruct (nth_error (in_streams w) (Z.to_nat v)) as [s|];
    rewrite ?Hg;
    repeat match goal with
           | |- context [if ?c then _ else _] => destruct c eqn:?
           end;
    repeat match goal with
           | H : (_ =? _) = true |- _ => apply Z.eqb_eq in H
           | H : (_ =? _) = false |- _ => apply Z.eqb_neq in H
           end;
    cbn [num] in *; repeat split; intros;
    repeat match goal with
           | H : Some _ = Some _ |- _ => injection H as <-
           | H : None = Some _ |- _ => discriminate H
           end;
    try assumption; try reflexivity; try lia; try contradiction.
  all: match goal with
       | H : forall s0, Some ?s = Some s0 -> _ |- _ =>
           specialize (H s eq_refl); contradiction
       end.
Qed.

Lemma encoder_framerate_set_witness :
  encoder_framerate Sample.transcode_job 0 = Sample.tb 1 1 /\
  encoder_framerate Sample.transcode_unguessed 0 = Sample.tb 30000 1001.
Proof.
  split.
  - apply (proj1 (proj2 (proj2
             (encoder_framerate_set Sample.transcode_job 0)))).
    vm_compute. discriminate.
  - apply (proj1 (proj2 (proj2 (proj2
             (encoder_framerate_set Sample.transcode_unguessed 0))))
             eq_refl Sample.ntsc_stream eq_refl).
    vm_compute. discriminate.
Defined.

(** ** Following a protocol along a trace *)

Section Protocols.

Context {S : Type}.
Variable step : S -> event -> option S.

Lemma run_app (st : S) (a b : list event) :
  run step st (a ++ b)
  = match run step st a with
    | Some st' => run step st' b
    | None => None
    end.
Proof.
  revert st. induction a as [|e a IH]; intros st; simpl; [reflexivity|].
  destruct (step st e); [apply IH | reflexivity].
Qed.

(** A segment whose events all leave the state as it is can be skipped. *)
Lemma run_skip (P : event -> bool) (st : S) (seg rest : list event) :
  Forall (fun e => P e = true) seg ->
  (forall e, P e = true -> step st e = Some st) ->
  run step st (seg ++ rest) = run step st rest.
Proof.
  intros Hseg HP. induction Hseg as [|e seg He _ IH]; simpl; [reflexivity|].
  now rewrite (HP e He).
Qed.

End Protocols.

(** ** The events of each loop *)

Lemma remux_streams_steps (w : World) (ins : list AVStream) :
  forall i ret m,
    Forall (fun e => is_stream_step e = true)
      (fst (remux_streams w ins i ret m)).
Proof.
  induction ins as [|s rest IH]; intros i ret m; simpl; [constructor|].
  destruct (w_new_stream w i); [|repeat constructor].
  destruct (w_parameters_copy w (codecpar s) <? 0); [repeat constructor|].
  rewrite fst_emit. apply Forall_app. split; [repeat constructor | apply IH].
Qed.

Lemma transcode_streams_steps (w : World) (v : Z) (ins : list AVStream) :
  forall i ret m,
    Forall (fun e => is_stream_step e = true)
      (fst (transcode_streams w v ins i ret m)).
Proof.
  induction ins as [|s rest IH]; intros i ret m; simpl; [constructor|].
  destruct (Z.of_nat i =? v).
  - destruct (w_new_stream w i); [|repeat constructor].
    rewrite fst_emit. apply Forall_app. split; [repeat constructor | apply IH].
  - destruct (w_new_stream w i); [|repeat constructor].
    destruct (w_parameters_copy w (codecpar s) <? 0); [repeat constructor|].
    rewrite fst_emit. apply Forall_app. split; [repeat constructor | apply IH].
Qed.

Lemma progress_events_steps (w : World) (ts : Z) (tb : AVRational) :
  Forall (fun e => is_remux_step e = true) (progress_events w ts tb).
Proof.
  unfold progress_events.
  destruct ((in_duration w >? 0) && negb (ts =? AV_NOPTS_VALUE));
    repeat constructor.
Qed.

Lemma remux_loop_steps (w : World) (mapping : list Z)
  (pkts : list AVPacket) :
  forall nw np,
    Forall (fun e => is_remux_step e = true) (remux_loop w mapping pkts nw np).
Proof.
  induction pkts as [|pkt rest IH]; intros nw np; cbn [remux_loop];
    [repeat constructor|].
  constructor; [reflexivity|].
  destruct (lookup_mapping mapping (stream_index pkt)) as [o|]; [|apply IH].
  constructor; [reflexivity|].
  destruct (w_write_frame w nw <? 0); [repeat constructor|].
  apply Forall_app. split; [apply progress_events_steps|].
  constructor; [reflexivity|].
  destruct (w_test_destroy w np); [repeat constructor | apply IH].
Qed.

Lemma transcode_loop_in_loop (w : World) (v : Z) (mapping : list Z)
  (enc_tb : AVRational) (pkts : list AVPacket) (j : Job) :
  Forall (fun e => in_loop e = true)
    (fst (transcode_loop w v mapping enc_tb pkts j)).
Proof.
  destruct (transcode_loop_facts w v mapping enc_tb pkts pkts j
              (incl_refl _)) as (H & _).
  revert H. apply Forall_impl. now intros e [_ H].
Qed.

Lemma flush_packets_in_loop (w : World) (v : Z) (mapping : list Z)
  (enc_tb : AVRational) (q : list (recv AVPacket)) (nw : nat) :
  Forall (fun e => in_loop e = true) (flush_packets w v mapping enc_tb q nw).
Proof.
  generalize (flush_packets_events w v mapping enc_tb [] q nw).
  apply Forall_impl. now intros e ((_ & H) & _).
Qed.

(** The events of the packet loop of the re-encode path, whichever way it is
    left, followed by the flush of the encoder and the trailer when it is
    left by [break] or at the end of the input. *)
Lemma transcode_run_split (w : World) (v : Z) (mapping : list Z)
  (out : string) :
  exists evs,
    Forall (fun e => in_loop e = true) evs /\
    (transcode_run w v mapping out = evs ++ cleanup w out \/
     exists q nw,
       transcode_run w v mapping out
       = evs ++
         (EvSendFrame None 0 ::
          flush_packets w v mapping (encoder_time_base w v) q nw ++
          [EvWriteTrailer]) ++
         cleanup w out).
Proof.
  pose proof (transcode_loop_in_loop w v mapping (encoder_time_base w v)
                (in_packets w) init_job) as Hl.
  destruct (transcode_run_cases w v mapping out)
    as [(evs & j & Hrun & ->) | (evs & Hrun & ->)];
    rewrite Hrun in Hl; exists evs; (split; [exact Hl|]).
  - right. unfold flush_encoder. eauto.
  - now left.
Qed.

(** ** Every path of the worker against the protocols *)

(** Rewrites with the tests that were decided on the way to a branch. *)
Ltac use_tests :=
  repeat match goal with
         | H : ?c = true |- context [?c] => rewrite H
         | H : ?c = false |- context [?c] => rewrite H
         end.

(** Closes the side condition of [run_skip]: every event that the predicate
    accepts keeps the state. *)
Ltac keeps_state :=
  let e := fresh "e" in
  let He := fresh "He" in
  intros e He; destruct e; simpl in He; try discriminate He;
  repeat match goal with
         | p : option _ |- _ => destruct p
         end;
  try discriminate He; reflexivity.

(** Follows a protocol along the events of one branch of [Entry]:
    computation on the events that are written out, [run_skip] on the events
    of a stream loop. *)
Ltac follow :=
  repeat first
    [ progress (cbn [run app]; use_tests)
    | progress simpl
    | match goal with
      | Hs : Forall (fun e => is_stream_step e = true) ?evs
        |- context [run ?step ?st (?evs ++ ?rest)] =>
          rewrite (run_skip step is_stream_step st evs rest Hs)
            by keeps_state
      end ].

(** Splits [Entry] into its branches up to the packet loops. *)
Ltac entry_branches w :=
  unfold Entry, remux, transcode, avio_closep;
  repeat match goal with
         | |- context [remux_streams w ?a ?b ?c ?d] =>
             let Hs := fresh "Hs" in
             pose proof (remux_streams_steps w a b c d) as Hs;
             destruct (remux_streams w a b c d) as [? [? ?]] eqn:?;
             cbn [fst] in Hs
         | |- context [transcode_streams w ?v ?a ?b ?c ?d] =>
             let Hs := fresh "Hs" in
             pose proof (transcode_streams_steps w v a b c d) as Hs;
             destruct (transcode_streams w v a b c d) as [? [? ?]] eqn:?;
             cbn [fst] in Hs
         | |- context [if negb ?c then _ else _] =>
             destruct c eqn:?; cbn [negb]
         | |- context [if ?c then _ else _] =>
             destruct c eqn:?
         end.

Lemma held_remux_run (w : World) (mapping : list Z) (out : string)
  (file : bool) :
  has_file w = file ->
  run held_step
    {| h_input := true; h_output := true; h_file := file;
       h_decoder := false; h_encoder := false |}
    (remux_loop w mapping (in_packets w) O O ++ remux_finish w out)
  = Some nothing_held.
Proof.
  intros <-.
  rewrite (run_skip held_step is_remux_step _ _ _ (remux_loop_steps _ _ _ _ _))
    by keeps_state.
  unfold remux_finish, avio_closep. now destruct (has_file w).
Qed.

Lemma held_transcode_run (w : World) (v : Z) (mapping : list Z)
  (out : string) (file : bool) :
  has_file w = file ->
  run held_step
    {| h_input := true; h_output := true; h_file := file;
       h_decoder := true; h_encoder := true |}
    (transcode_run w v mapping out)
  = Some nothing_held.
Proof.
  intros <-.
  destruct (transcode_run_split w v mapping out)
    as (evs & Hl & [-> | (q & nw & ->)]);
    rewrite (run_skip held_step in_loop _ _ _ Hl) by keeps_state.
  - unfold cleanup, avio_closep. now destruct (has_file w).
  - cbn [app run held_step needs h_encoder].
    rewrite <- app_assoc.
    rewrite (run_skip held_step in_loop _ _ _
               (flush_packets_in_loop _ _ _ _ _ _)) by keeps_state.
    unfold cleanup, avio_closep. now destruct (has_file w).
Qed.

(** X4. On every path of the worker, whatever the libraries answer: nothing
    is acquired twice, nothing is used or released that is not held, the
    output context is not freed while its file is open, and when the worker
    ends the input context, the output context, the output file, the decoder
    context and the encoder context are all released. *)
Theorem everything_released (w : World) :
  run held_step nothing_held (Entry w) = Some nothing_held.
Proof.
  entry_branches w; follow; try reflexivity.
  all: first [ now apply held_remux_run | now apply held_transcode_run ].
Qed.

Lemma mux_remux_run (w : World) (mapping : list Z) (out : string) :
  run mux_step MuxOpen
    (remux_loop w mapping (in_packets w) O O ++ remux_finish w out)
  = Some MuxFinal.
Proof.
  rewrite (run_skip mux_step is_remux_step _ _ _ (remux_loop_steps _ _ _ _ _))
    by keeps_state.
  unfold remux_finish, avio_closep. now destruct (has_file w).
Qed.

Lemma mux_transcode_run (w : World) (v : Z) (mapping : list Z)
  (out : string) :
  run mux_step MuxOpen (transcode_run w v mapping out) = Some MuxOpen \/
  run mux_step MuxOpen (transcode_run w v mapping out) = Some MuxFinal.
Proof.
  destruct (transcode_run_split w v mapping out)
    as (evs & Hl & [-> | (q & nw & ->)]);
    rewrite (run_skip mux_step in_loop _ _ _ Hl) by keeps_state.
  - left. unfold cleanup, avio_closep. now destruct (has_file w).
  - right. cbn [app run mux_step]. rewrite <- app_assoc.
    rewrite (run_skip mux_step in_loop _ _ _
               (flush_packets_in_loop _ _ _ _ _ _)) by keeps_state.
    unfold cleanup, avio_closep. now destruct (has_file w).
Qed.

(** X5. On every path of the worker the output container is driven in
    order: the header is written once at most, a packet is only written
    after a header that succeeded and before the trailer, and the trailer is
    written once at most and only after such a header.  In remux mode a
    container whose header was written always gets its trailer; only the
    re-encode path can end with the header written and no trailer. *)
Theorem container_protocol (w : World) :
  match run mux_step MuxNoHeader (Entry w) with
  | Some MuxOpen => m_reencode w = true
  | Some _ => True
  | None => False
  end.
Proof.
  entry_branches w; follow; try exact I.
  all: try (rewrite mux_remux_run; exact I).
  all: match goal with
       | |- context [transcode_run ?w ?v ?m ?out] =>
           destruct (mux_transcode_run w v m out) as [H | H]; rewrite H;
           first [exact I | reflexivity]
       end.
Qed.

Lemma flag_remux_run (w : World) (mapping : list Z) (out : string) :
  run flag_step Busy
    (remux_loop w mapping (in_packets w) O O ++ remux_finish w out)
  = Some Idle.
Proof.
  rewrite (run_skip flag_step is_remux_step _ _ _ (remux_loop_steps _ _ _ _ _))
    by keeps_state.
  unfold remux_finish, avio_closep. now destruct (has_file w).
Qed.

Lemma flag_transcode_run (w : World) (v : Z) (mapping : list Z)
  (out : string) :
  run flag_step Busy (transcode_run w v mapping out) = Some Idle.
Proof.
  destruct (transcode_run_split w v mapping out)
    as (evs & Hl & [-> | (q & nw & ->)]);
    rewrite (run_skip flag_step in_loop _ _ _ Hl) by keeps_state.
  - unfold cleanup, avio_closep. now destruct (has_file w).
  - cbn [app run flag_step]. rewrite <- app_assoc.
    rewrite (run_skip flag_step in_loop _ _ _
               (flush_packets_in_loop _ _ _ _ _ _)) by keeps_state.
    unfold cleanup, avio_closep. now destruct (has_file w).
Qed.

(** X6. On every path of the worker, whatever the libraries answer, the
    running flag of the frame is never set by the worker, it is reset once
    and once only, and after the reset the worker makes no library call: at
    most log lines follow.  So a job always hands the frame back. *)
Theorem running_flag_reset_once (w : World) :
  run flag_step Busy (Entry w) = Some Idle.
Proof.
  entry_branches w; follow; try reflexivity.
  all: first [ apply flag_remux_run | apply flag_transcode_run ].
Qed.

(** ** The packets of the remux path *)

Lemma written_packets_app (a b : list event) :
  written_packets (a ++ b) = written_packets a ++ written_packets b.
Proof.
  induction a as [|e a IH]; simpl; [reflexivity|].
  destruct e; simpl; now rewrite ?IH.
Qed.

Lemma written_packets_none (P : event -> bool) (tr : list event) :
  Forall (fun e => P e = true) tr ->
  (forall p r, P (EvWriteFrame p r) = false) ->
  written_packets tr = [].
Proof.
  intros H HP. induction H as [|e tr He _ IH]; simpl; [reflexivity|].
  destruct e; try exact IH. rewrite HP in He. discriminate.
Qed.

Lemma written_packets_progress (w : World) (ts : Z) (tb : AVRational) :
  written_packets (progress_events w ts tb) = [].
Proof.
  unfold progress_events.
  now destruct ((in_duration w >? 0) && negb (ts =? AV_NOPTS_VALUE)).
Qed.

Lemma lookup_identity (n : nat) (p : AVPacket) :
  lookup_mapping (identity_mapping n) (stream_index p)
  = if in_mapped_stream n p then Some (stream_index p) else None.
Proof.
  unfold in_mapped_stream.
  destruct (0 <=? stream_index p) eqn:H0; simpl.
  - destruct (stream_index p <? Z.of_nat n) eqn:H1.
    + apply lookup_identity_mapping. lia.
    + unfold lookup_mapping. rewrite identity_mapping_length.
      destruct (stream_index p <? 0) eqn:H2; [reflexivity|].
      destruct (stream_index p >=? Z.of_nat n) eqn:H3; [reflexivity|]. lia.
  - unfold lookup_mapping.
    destruct (stream_index p <? 0) eqn:H2; [reflexivity | lia].
Qed.

(** The loop of the remux path under the identity mapping writes the copies
    of the first [k] packets of mapped streams, for some [k]; all of them
    when no write fails and the flag is never set. *)
Lemma remux_loop_written (w : World) (n : nat) (pkts : list AVPacket) :
  forall nw np,
    (exists k,
        written_packets (remux_loop w (identity_mapping n) pkts nw np)
        = map (remux_copy w) (firstn k (filter (in_mapped_stream n) pkts))) /\
    ((forall i, 0 <= w_write_frame w i) ->
     (forall i, w_test_destroy w i = false) ->
     written_packets (remux_loop w (identity_mapping n) pkts nw np)
     = map (remux_copy w) (filter (in_mapped_stream n) pkts)).
Proof.
  induction pkts as [|pkt rest IH]; intros nw np; cbn [remux_loop filter].
  - split; [exists O|]; reflexivity.
  - rewrite lookup_identity.
    destruct (in_mapped_stream n pkt).
    + cbn [written_packets]. fold (remux_copy w pkt).
      destruct (w_write_frame w nw <? 0) eqn:Hw.
      * split.
        -- exists 1%nat. reflexivity.
        -- intros Hall _. specialize (Hall nw). apply Z.ltb_lt in Hw. lia.
      * rewrite written_packets_app.
        rewrite written_packets_progress.
        cbn [app written_packets].
        destruct (w_test_destroy w np) eqn:Hc.
        -- split.
           ++ exists 1%nat. reflexivity.
           ++ intros _ Hall. rewrite Hall in Hc. discriminate.
        -- destruct (IH (S nw) (S np)) as [[k Hk] Hfull]. split.
           ++ exists (S k). cbn [firstn map]. now rewrite Hk.
           ++ intros H1 H2. cbn [map]. now rewrite Hfull.
    + cbn [written_packets]. apply IH.
Qed.

Lemma written_packets_remux_finish (w : World) (out : string) :
  written_packets (remux_finish w out) = [].
Proof. unfold remux_finish, avio_closep. now destruct (has_file w). Qed.

(** Reads the written packets off one branch of [Entry]. *)
Ltac read_written :=
  repeat first
    [ progress cbn [written_packets app]
    | rewrite written_packets_app
    | rewrite written_packets_remux_finish
    | match goal with
      | Hs : Forall (fun e => is_stream_step e = true) ?evs
        |- context [written_packets ?evs] =>
          rewrite (written_packets_none is_stream_step evs Hs) by reflexivity
      end ].

(** The mapping that the stream loop of the remux path leaves when it
    succeeds. *)
Lemma remux_streams_identity (w : World) (evs : list event) (ret : Z)
  (m : Mapper) :
  (w_find_stream_info w <? 0) = false ->
  remux_streams w (in_streams w) O (w_find_stream_info w)
    (init_mapper (List.length (in_streams w))) = (evs, (ret, m)) ->
  (ret <? 0) = false ->
  stream_mapping m = identity_mapping (List.length (in_streams w)).
Proof.
  intros H0 Hrun Hret. apply Z.ltb_ge in H0, Hret.
  now destruct (remux_streams_inv w (in_streams w) O (w_find_stream_info w)
                  (init_mapper (List.length (in_streams w))) evs ret m H0
                  eq_refl eq_refl Hrun Hret) as (_ & Hm & _).
Qed.

(** X7. In remux mode, whatever the libraries answer, the packets handed to
    the muxer are the copies of the first [k] input packets that belong to a
    stream of the input, for some [k], in the order of the input: no packet is
    written twice, out of order or before an earlier one, and a packet of a
    stream the input did not announce is never written. *)
Theorem remux_writes_in_order (w : World) :
  m_reencode w = false ->
  exists k,
    written_packets (Entry w)
    = map (remux_copy w)
        (firstn k
           (filter (in_mapped_stream (List.length (in_streams w)))
              (in_packets w))).
Proof.
  intros Hm. entry_branches w; try congruence; read_written;
    try (exists O; reflexivity).
  all: match goal with
       | Hrun : remux_streams _ _ _ _ _ = (_, (_, ?m)) |- _ =>
           rewrite (remux_streams_identity w _ _ m) by eassumption
       end.
  all: rewrite ?app_nil_r; apply (proj1 (remux_loop_written _ _ _ _ _)).
Qed.

Lemma remux_writes_in_order_witness :
  exists k,
    written_packets (Entry Sample.remux_cancelled)
    = map (remux_copy Sample.remux_cancelled)
        (firstn k [Sample.packet 0 10; Sample.packet 0 5]).
Proof. apply (remux_writes_in_order Sample.remux_cancelled). reflexivity. Defined.

(** ** A remux in which nothing fails *)

Lemma logged_app (a b : list event) :
  logged (a ++ b) = logged a ++ logged b.
Proof.
  induction a as [|e a IH]; simpl; [reflexivity|].
  destruct e; simpl; now rewrite ?IH.
Qed.

Lemma logged_progress (w : World) (ts : Z) (tb : AVRational) :
  logged (progress_events w ts tb) = [].
Proof.
  unfold progress_events.
  now destruct ((in_duration w >? 0) && negb (ts =? AV_NOPTS_VALUE)).
Qed.

Lemma logged_remux_finish (w : World) (out : string) :
  logged (remux_finish w out) = [remux_finished out].
Proof. unfold remux_finish, avio_closep. now destruct (has_file w). Qed.

Lemma remux_streams_succeeds (w : World) (ins : list AVStream) :
  (forall i, w_new_stream w i = true) ->
  (forall par, 0 <= w_parameters_copy w par) ->
  forall i ret0 m evs ret m',
    0 <= ret0 ->
    remux_streams w ins i ret0 m = (evs, (ret, m')) ->
    0 <= ret /\ logged evs = [].
Proof.
  intros Hnew Hcopy.
  induction ins as [|s rest IH]; intros i ret0 m evs ret m' H0 Hrun;
    cbn [remux_streams] in Hrun.
  - injection Hrun as <- <- _. auto.
  - rewrite Hnew in Hrun.
    pose proof (Hcopy (codecpar s)) as Hc. apply Z.ltb_ge in Hc.
    rewrite Hc in Hrun. apply Z.ltb_ge in Hc. unfold emit in Hrun.
    destruct (remux_streams w rest (S i) _ _) as [evs1 [ret1 m1]] eqn:Hrec.
    simpl in Hrun. injection Hrun as <- <- <-.
    destruct (IH _ _ _ _ _ _ Hc Hrec) as [Hret Hlog].
    split; [exact Hret|]. simpl. exact Hlog.
Qed.

Lemma remux_loop_quiet (w : World) (mapping : list Z)
  (pkts : list AVPacket) :
  (forall i, 0 <= w_write_frame w i) ->
  (forall i, w_test_destroy w i = false) ->
  forall nw np, logged (remux_loop w mapping pkts nw np) = [].
Proof.
  intros Hw Hc. induction pkts as [|pkt rest IH]; intros nw np;
    cbn [remux_loop logged]; [reflexivity|].
  destruct (lookup_mapping mapping (stream_index pkt)); [|apply IH].
  cbn [logged]. pose proof (Hw nw) as H. apply Z.ltb_ge in H. rewrite H.
  rewrite logged_app, logged_progress, Hc. cbn [app logged]. apply IH.
Qed.

(** Turns the tests of a branch into inequalities. *)
Ltac tests_to_Z :=
  repeat match goal with
         | H : (_ <? _) = true |- _ => apply Z.ltb_lt in H
         | H : (_ <? _) = false |- _ => apply Z.ltb_ge in H
         end.

(** X8. A remux in which every library call succeeds and the flag is never
    set writes the copy of every input packet that belongs to a stream of
    the input, in the order of the input, drives the container from the
    header to the trailer, and logs two lines and no more: the start line
    and "Remux finished. Output: <path>". *)
Theorem remux_completes (w : World) :
  m_reencode w = false ->
  remux_setup_succeeds w ->
  (forall i, 0 <= w_write_frame w i) ->
  (forall i, w_test_destroy w i = false) ->
  written_packets (Entry w)
  = map (remux_copy w)
      (filter (in_mapped_stream (List.length (in_streams w))) (in_packets w))
  /\ run mux_step MuxNoHeader (Entry w) = Some MuxFinal
  /\ logged (Entry w)
     = [start_message false;
        remux_finished (make_output_path (m_input w) (m_outFormat w))].
Proof.
  intros Hm (Hopen & Hinfo & Halloc & Hnew & Hcopy & Havio & Hhdr) Hw Hc.
  split; [|split].
  - entry_branches w; try congruence;
      try (exfalso; tests_to_Z;
           try specialize (Havio eq_refl);
           try match goal with
               | Hrun : remux_streams _ _ _ _ _ = _ |- _ =>
                   destruct (remux_streams_succeeds w _ Hnew Hcopy
                               _ _ _ _ _ _ Hinfo Hrun) as [? _]
               end; lia).
    all: read_written.
    all: match goal with
         | Hrun : remux_streams _ _ _ _ _ = (_, (_, ?m)) |- _ =>
             rewrite (remux_streams_identity w _ _ m) by eassumption
         end.
    all: rewrite ?app_nil_r;
      now apply (proj2 (remux_loop_written _ _ _ _ _)).
  - entry_branches w; try congruence;
      try (exfalso; tests_to_Z;
           try specialize (Havio eq_refl);
           try match goal with
               | Hrun : remux_streams _ _ _ _ _ = _ |- _ =>
                   destruct (remux_streams_succeeds w _ Hnew Hcopy
                               _ _ _ _ _ _ Hinfo Hrun) as [? _]
               end; lia).
    all: follow; apply mux_remux_run.
  - entry_branches w; try congruence;
      try (exfalso; tests_to_Z;
           try specialize (Havio eq_refl);
           try match goal with
               | Hrun : remux_streams _ _ _ _ _ = _ |- _ =>
                   destruct (remux_streams_succeeds w _ Hnew Hcopy
                               _ _ _ _ _ _ Hinfo Hrun) as [? _]
               end; lia).
    all: match goal with
         | Hrun : remux_streams _ _ _ _ _ = _ |- _ =>
             destruct (remux_streams_succeeds w _ Hnew Hcopy
                         _ _ _ _ _ _ Hinfo Hrun) as [_ Hlog]
         end.
    all: cbn [logged app]; rewrite !logged_app, Hlog; cbn [logged app];
      rewrite !logged_app, remux_loop_quiet, logged_remux_finish
        by assumption;
      reflexivity.
Qed.

Lemma remux_completes_witness :
  written_packets (Entry Sample.remux_job)
  = map (remux_copy Sample.remux_job) [Sample.packet 0 10; Sample.packet 0 5].
Proof.
  refine (proj1 (remux_completes Sample.remux_job eq_refl _ _ _)).
  - unfold remux_setup_succeeds. simpl. repeat split; intros; lia.
  - intros i. simpl. lia.
  - reflexivity.
Defined.

(** ** Every job says how it ended *)

Lemma remux_streams_failure_logged (w : World) (ins : list AVStream) :
  forall i ret0 m evs ret m',
    0 <= ret0 ->
    remux_streams w ins i ret0 m = (evs, (ret, m')) ->
    ret < 0 -> (1 <= List.length (logged evs))%nat.
Proof.
  induction ins as [|s rest IH]; intros i ret0 m evs ret m' H0 Hrun Hret;
    cbn [remux_streams] in Hrun.
  - injection Hrun as <- <- _. lia.
  - destruct (w_new_stream w i).
    + destruct (w_parameters_copy w (codecpar s) <? 0) eqn:Hc.
      * injection Hrun as <- <- _. simpl. lia.
      * apply Z.ltb_ge in Hc. unfold emit in Hrun.
        destruct (remux_streams w rest (S i) _ _) as [evs1 [ret1 m1]] eqn:Hrec.
        simpl in Hrun. injection Hrun as <- <- <-. simpl.
        eapply IH; eassumption.
    + injection Hrun as <- <- _. simpl. lia.
Qed.

Lemma transcode_streams_failure_logged (w : World) (v : Z)
  (ins : list AVStream) :
  forall i ret0 m evs ret m',
    0 <= ret0 ->
    transcode_streams w v ins i ret0 m = (evs, (ret, m')) ->
    ret < 0 -> (1 <= List.length (logged evs))%nat.
Proof.
  induction ins as [|s rest IH]; intros i ret0 m evs ret m' H0 Hrun Hret;
    cbn [transcode_streams] in Hrun.
  - injection Hrun as <- <- _. lia.
  - destruct (Z.of_nat i =? v).
    + destruct (w_new_stream w i).
      * unfold emit in Hrun.
        destruct (transcode_streams w v rest (S i) _ _)
          as [evs1 [ret1 m1]] eqn:Hrec.
        simpl in Hrun. injection Hrun as <- <- <-. simpl.
        eapply IH; eassumption.
      * injection Hrun as <- <- _. simpl. lia.
    + destruct (w_new_stream w i).
      * destruct (w_parameters_copy w (codecpar s) <? 0) eqn:Hc.
        -- injection Hrun as <- <- _. simpl. lia.
        -- apply Z.ltb_ge in Hc. unfold emit in Hrun.
           destruct (transcode_streams w v rest (S i) _ _)
             as [evs1 [ret1 m1]] eqn:Hrec.
           simpl in Hrun. injection Hrun as <- <- <-. simpl.
           eapply IH; eassumption.
      * injection Hrun as <- <- _. simpl. lia.
Qed.

Lemma transcode_run_logged (w : World) (v : Z) (mapping : list Z)
  (out : string) :
  (1 <= List.length (logged (transcode_run w v mapping out)))%nat.
Proof.
  assert (Hc : logged (cleanup w out) = [conversion_finished out]).
  { unfold cleanup, avio_closep. now destruct (has_file w). }
  destruct (transcode_run_split w v mapping out)
    as (evs & _ & [-> | (q & nw & ->)]);
    rewrite !logged_app, !length_app, Hc; simpl; lia.
Qed.

(** X9. Every job, however it ends, logs its start line first and at least
    one more line: the description of the failure that ended it, or the
    line that says the conversion finished. *)
Theorem outcome_is_logged (w : World) :
  hd_error (logged (Entry w)) = Some (start_message (m_reencode w)) /\
  (2 <= List.length (logged (Entry w)))%nat.
Proof.
  split; [reflexivity|].
  entry_branches w; tests_to_Z;
    try match goal with
        | Hrun : remux_streams _ _ _ ?r _ = _, H0 : 0 <= ?r |- _ =>
            pose proof (remux_streams_failure_logged _ _ _ _ _ _ _ _ H0 Hrun)
        end;
    try match goal with
        | Hrun : transcode_streams _ _ _ _ ?r _ = _, H0 : 0 <= ?r |- _ =>
            pose proof (transcode_streams_failure_logged _ _ _ _ _ _ _ _ _
                          H0 Hrun)
        end;
    repeat first
      [ progress cbn [logged List.length app]
      | rewrite logged_app
      | rewrite length_app
      | rewrite logged_remux_finish ];
    try match goal with
        | |- context [transcode_run ?w ?v ?m ?out] =>
            pose proof (transcode_run_logged w v m out)
        end;
    lia.
Qed.

(** ** Progress messages between the worker and the frame *)

Lemma substring_all (s : string) : substring 0 (String.length s) s = s.
Proof. induction s as [|c s IH]; simpl; [reflexivity|]. now rewrite IH. Qed.

Lemma ToLong_unsigned_head (c : ascii) (r : string) :
  isspace c = false -> Ascii.eqb c "+" = false ->
  ToLong (String c r)
  = match option_map Z.of_int
            (DecimalString.NilZero.int_of_string (String c r)) with
    | Some v => if (LONG_MIN <=? v) && (v <=? LONG_MAX) then Some v else None
    | None => None
    end.
Proof.
  intros Hs Hp. unfold ToLong. cbn [skip_spaces]. rewrite Hs.
  destruct c as [[] [] [] [] [] [] [] []]; try reflexivity; discriminate Hp.
Qed.

(** The first character of a number written by [to_string] is a digit or the
    minus sign. *)
Lemma to_string_head (z : Z) :
  exists c r,
    to_string z = String c r /\ isspace c = false /\
    Ascii.eqb c "+" = false.
Proof.
  unfold to_string.
  destruct z as [|p|p]; simpl.
  - now exists "0"%char, EmptyString.
  - destruct (Pos.to_uint p); simpl; eexists; eexists;
      (split; [reflexivity | split; reflexivity]).
  - now eexists; eexists.
Qed.

Lemma to_int_not_nil (z : Z) :
  Z.to_int z <> Decimal.Pos Decimal.Nil /\
  Z.to_int z <> Decimal.Neg Decimal.Nil.
Proof.
  assert (H : forall p, Pos.to_uint p <> Decimal.Nil).
  { intros p Hp. apply (f_equal Pos.of_uint) in Hp.
    rewrite DecimalPos.Unsigned.of_to in Hp. discriminate Hp. }
  destruct z as [|p|p]; simpl; split; try discriminate;
    intros Hz; injection Hz as Hz; now apply H in Hz.
Qed.

Lemma ToLong_to_string (z : Z) :
  LONG_MIN <= z <= LONG_MAX -> ToLong (to_string z) = Some z.
Proof.
  intros Hz. destruct (to_string_head z) as (c & r & Heq & Hs & Hp).
  rewrite Heq, (ToLong_unsigned_head c r Hs Hp), <- Heq.
  unfold to_string.
  destruct (to_int_not_nil z) as [H1 H2].
  rewrite (DecimalString.NilZero.isi _ H1 H2). simpl.
  rewrite DecimalZ.of_to.
  destruct (LONG_MIN <=? z) eqn:A; [|lia].
  destruct (z <=? LONG_MAX) eqn:B; [reflexivity | lia].
Qed.

Lemma progress_message_number (x : string) :
  prefix "PROGRESS:" ("PROGRESS:" ++ x)%string = true /\
  substr_from ("PROGRESS:" ++ x)%string 9 = x.
Proof.
  split.
  - apply prefix_correct. apply (substring_prefix "PROGRESS:" x).
  - unfold substr_from. simpl. rewrite Nat.sub_0_r. apply substring_all.
Qed.

Lemma progress_message_number_delivered (f : MainFrame) (pct : Z) :
  INT_MIN <= pct <= INT_MAX ->
  deliver f (EvProgress pct) = set_progress f pct.
Proof.
  intros Hpct. unfold deliver, queued, on_log_update.
  destruct (progress_message_number (to_string pct)) as [-> ->].
  rewrite ToLong_to_string
    by (unfold INT_MIN, INT_MAX, LONG_MIN, LONG_MAX in *; lia).
  unfold long_to_int. f_equal.
  unfold INT_MIN, INT_MAX in Hpct.
  rewrite Z.mod_small by lia. lia.
Qed.

(** X10. A percentage that [PostProgress] queues reaches the gauge as it
    is: for every [int] value the handler of the frame recognises the
    message, reads the number back and sets the gauge to it, and leaves the
    log and the running flag alone. *)
Theorem progress_message_round_trip (f : MainFrame) (pct : Z) :
  INT_MIN <= pct <= INT_MAX ->
  deliver f (EvProgress pct) = set_progress f pct.
Proof.
  intros Hpct. unfold deliver, queued, on_log_update.
  destruct (progress_message_number (to_string pct)) as [-> ->].
  rewrite ToLong_to_string
    by (unfold INT_MIN, INT_MAX, LONG_MIN, LONG_MAX in *; lia).
  unfold long_to_int. f_equal.
  unfold INT_MIN, INT_MAX in Hpct.
  rewrite Z.mod_small by lia. lia.
Qed.

Lemma progress_message_round_trip_witness :
  m_progress
    (deliver {| m_running := true; m_inputPath := "/v/in.avi";
                m_formatChoice := "mkv"; m_reencodeCheck := false;
                m_log := ""; m_progress := 0 |} (EvProgress 25)) = 25.
Proof.
  rewrite progress_message_round_trip; [reflexivity|].
  unfold INT_MIN, INT_MAX. lia.
Defined.

(** ** What the frame receives from a job *)

Ltac plain_events :=
  unfold plain_for_frame;
  repeat first
    [ apply Forall_nil
    | apply Forall_cons; [reflexivity|]
    | apply Forall_app; split
    | rewrite fst_emit ].

Lemma plain_remux_streams (w : World) (ins : list AVStream) :
  forall i ret m, plain_for_frame (fst (remux_streams w ins i ret m)).
Proof.
  induction ins as [|s rest IH]; intros i ret m; cbn [remux_streams fst];
    [constructor|].
  destruct (w_new_stream w i); [|plain_events].
  destruct (w_parameters_copy w (codecpar s) <? 0); plain_events. apply IH.
Qed.

Lemma plain_transcode_streams (w : World) (v : Z) (ins : list AVStream) :
  forall i ret m, plain_for_frame (fst (transcode_streams w v ins i ret m)).
Proof.
  induction ins as [|s rest IH]; intros i ret m; cbn [transcode_streams fst];
    [constructor|].
  destruct (Z.of_nat i =? v); destruct (w_new_stream w i);
    try destruct (w_parameters_copy w (codecpar s) <? 0);
    plain_events; apply IH.
Qed.

Lemma plain_progress_events (w : World) (ts : Z) (tb : AVRational) :
  plain_for_frame (progress_events w ts tb).
Proof.
  unfold progress_events.
  destruct ((in_duration w >? 0) && negb (ts =? AV_NOPTS_VALUE));
    plain_events.
Qed.

Lemma plain_remux_loop (w : World) (mapping : list Z)
  (pkts : list AVPacket) :
  forall nw np, plain_for_frame (remux_loop w mapping pkts nw np).
Proof.
  induction pkts as [|pkt rest IH]; intros nw np; cbn [remux_loop];
    [plain_events|].
  constructor; [reflexivity|].
  destruct (lookup_mapping mapping (stream_index pkt)) as [o|]; [|apply IH].
  constructor; [reflexivity|].
  destruct (w_write_frame w nw <? 0); [plain_events|].
  apply Forall_app. split; [apply plain_progress_events|].
  constructor; [reflexivity|].
  destruct (w_test_destroy w np); [plain_events | apply IH].
Qed.

Section PlainLoops.

Variable w : World.
Variable v : Z.
Variable mapping : list Z.
Variable enc_tb : AVRational.

Lemma plain_receive_packets (q : list (recv AVPacket)) :
  forall ret nw,
    plain_for_frame (fst (receive_packets w v mapping enc_tb q ret nw)).
Proof.
  induction q as [|[p|e] q IH]; intros ret nw; cbn [receive_packets];
    destruct (ret <? 0); cbn [fst]; try (plain_events; fail).
  - plain_events. destruct (w_write_frame w nw <? 0); [plain_events|apply IH].
  - destruct (again_or_eof (Z.neg e)); plain_events.
Qed.

Lemma plain_receive_frames (q : list (recv AVFrame)) :
  forall ret j,
    plain_for_frame (fst (receive_frames w v mapping enc_tb q ret j)).
Proof.
  induction q as [|[f|e] q IH]; intros ret j; cbn [receive_frames];
    destruct (ret <? 0); cbn [fst]; try (plain_events; fail).
  - destruct (enc_send w (enc_sent j) (scale_frame w f)) as [r outs].
    plain_events.
    destruct (r <? 0); [plain_events|].
    pose proof (plain_receive_packets (enc_ready j ++ outs) r (n_write j))
      as Hp.
    destruct (receive_packets w v mapping enc_tb (enc_ready j ++ outs) r
                (n_write j)) as [evs [[[r' eq'] nw']|]]; cbn [fst] in *;
      [|exact Hp].
    plain_events; [exact Hp | apply plain_progress_events |].
    destruct (w_test_destroy w (n_poll j)); [plain_events | apply IH].
  - destruct (again_or_eof (Z.neg e)); plain_events.
Qed.

Lemma plain_transcode_loop (pkts : list AVPacket) :
  forall j, plain_for_frame (fst (transcode_loop w v mapping enc_tb pkts j)).
Proof.
  induction pkts as [|pkt rest IH]; intros j; cbn [transcode_loop];
    [plain_events|].
  plain_events.
  destruct (stream_index pkt =? v).
  - destruct (dec_send w (dec_sent j) pkt) as [ret frames]. plain_events.
    destruct (ret <? 0); [plain_events|].
    pose proof (plain_receive_frames (dec_ready j ++ frames) ret j) as Hf.
    destruct (receive_frames w v mapping enc_tb (dec_ready j ++ frames) ret j)
      as [evs [[q' j']|]]; cbn [fst] in *; [|exact Hf].
    plain_events; [exact Hf | apply IH].
  - destruct (lookup_mapping mapping (stream_index pkt)) as [o|]; [|apply IH].
    plain_events.
    destruct (w_write_frame w (n_write j) <? 0); [plain_events | apply IH].
Qed.

Lemma plain_flush_packets (q : list (recv AVPacket)) :
  forall nw, plain_for_frame (flush_packets w v mapping enc_tb q nw).
Proof.
  induction q as [|[p|e] q IH]; intros nw; cbn [flush_packets].
  - plain_events.
  - plain_events. apply IH.
  - destruct (again_or_eof (Z.neg e)); plain_events.
Qed.

End PlainLoops.

Lemma plain_avio_closep (w : World) : plain_for_frame (avio_closep w).
Proof. unfold avio_closep. destruct (has_file w); plain_events. Qed.

Lemma plain_transcode_run (w : World) (v : Z) (mapping : list Z)
  (out : string) :
  plain_for_frame (transcode_run w v mapping out).
Proof.
  assert (Hc : plain_for_frame (cleanup w out)).
  { unfold cleanup, avio_closep, conversion_finished.
    destruct (has_file w); plain_events. }
  pose proof (plain_transcode_loop w v mapping (encoder_time_base w v)
                (in_packets w) init_job) as Hl.
  destruct (transcode_run_cases w v mapping out)
    as [(evs & j & Hrun & ->) | (evs & Hrun & ->)];
    rewrite Hrun in Hl; cbn [fst] in Hl.
  - unfold flush_encoder. plain_events; try assumption;
      first [apply plain_flush_packets | apply plain_avio_closep].
  - plain_events; first [assumption | apply plain_avio_closep].
Qed.

Lemma plain_remux_finish (w : World) (out : string) :
  plain_for_frame (remux_finish w out).
Proof.
  unfold remux_finish, avio_closep, remux_finished.
  destruct (has_file w); plain_events.
Qed.

(** No line that a job logs starts like a progress message, and the worker
    never sets the running flag. *)
Lemma Entry_plain_for_frame (w : World) : plain_for_frame (Entry w).
Proof.
  entry_branches w;
    repeat match goal with
           | Hrun : remux_streams ?a ?b ?c ?d ?e = _ |- _ =>
               let Hp := fresh "Hp" in
               pose proof (plain_remux_streams a b c d e) as Hp;
               rewrite Hrun in Hp; cbn [fst] in Hp; clear Hrun
           | Hrun : transcode_streams ?a ?x ?b ?c ?d ?e = _ |- _ =>
               let Hp := fresh "Hp" in
               pose proof (plain_transcode_streams a x b c d e) as Hp;
               rewrite Hrun in Hp; cbn [fst] in Hp; clear Hrun
           end;
    unfold start_message; plain_events;
    first [ assumption | apply plain_remux_loop | apply plain_remux_finish
          | apply plain_transcode_run | apply plain_avio_closep ].
Qed.

(** X11. No line that a job logs is taken for a progress message, whatever
    the libraries answer and whatever text [av_strerror] gives: the handler
    of the frame appends every such line to the log and leaves the gauge and
    the running flag alone. *)
Theorem log_lines_reach_the_log (w : World) (f : MainFrame) (s : string) :
  In (EvLog s) (Entry w) ->
  prefix "PROGRESS:" s = false /\
  deliver f (EvLog s) = set_log f (m_log f ++ s ++ "")%string.
Proof.
  intros Hin. pose proof (Entry_plain_for_frame w) as H.
  unfold plain_for_frame in H. rewrite Forall_forall in H.
  specialize (H _ Hin). simpl in H. apply negb_true_iff in H.
  split; [exact H|]. unfold deliver, queued, on_log_update. now rewrite H.
Qed.

Lemma log_lines_reach_the_log_witness :
  prefix "PROGRESS:" "No video stream found for re-encoding" = false.
Proof.
  refine (proj1 (log_lines_reach_the_log Sample.audio_only
                   {| m_running := true; m_inputPath := "/v/in.avi";
                      m_formatChoice := "mkv"; m_reencodeCheck := true;
                      m_log := ""; m_progress := 0 |} _ _)).
  vm_compute. do 3 right. left. reflexivity.
Defined.

(** ** A job seen from the frame *)

Lemma Entry_progress_range (w : World) (pct : Z) :
  In (EvProgress pct) (Entry w) -> 0 <= pct <= 100.
Proof.
  intros Hin. pose proof (Entry_traced w) as Hall.
  rewrite Forall_forall in Hall. specialize (Hall _ Hin).
  inversion Hall as [e Hp | ts tb Hd Hts | | | |]; subst.
  - discriminate Hp.
  - apply progress_pct_range.
Qed.

Lemma Entry_resets_flag (w : World) : In (EvSetRunning false) (Entry w).
Proof.
  assert (Hc : forall out, In (EvSetRunning false) (cleanup w out)).
  { intros out. unfold cleanup. rewrite !in_app_iff. simpl. tauto. }
  assert (Hr : forall out, In (EvSetRunning false) (remux_finish w out)).
  { intros out. unfold remux_finish. right. rewrite in_app_iff. simpl.
    tauto. }
  assert (Ht : forall v m out,
             In (EvSetRunning false) (transcode_run w v m out)).
  { intros v m out.
    destruct (transcode_run_cases w v m out)
      as [(evs & j & _ & ->) | (evs & _ & ->)];
      rewrite !in_app_iff; auto. }
  entry_branches w;
    repeat first
      [ apply Ht | apply Hr | left; reflexivity | right
      | apply in_or_app; right ].
Qed.

(** The frame after the events [tr] of a worker, when no line of [tr] can be
    misread and every percentage is in range. *)
Lemma deliver_all (tr : list event) :
  plain_for_frame tr ->
  (forall pct, In (EvProgress pct) tr -> 0 <= pct <= 100) ->
  forall f,
    0 <= m_progress f <= 100 ->
    let f' := fold_left deliver tr f in
    0 <= m_progress f' <= 100 /\
    m_log f' = appended (m_log f) (logged tr) /\
    m_inputPath f' = m_inputPath f /\
    m_formatChoice f' = m_formatChoice f /\
    m_reencodeCheck f' = m_reencodeCheck f /\
    (In (EvSetRunning false) tr -> m_running f' = false).
Proof.
  unfold plain_for_frame.
  induction tr as [|e tr IH]; intros Hplain Hpct f Hf; cbn [fold_left logged].
  - repeat split; try lia; try reflexivity. intros [].
  - apply Forall_cons_iff in Hplain as [He Hplain].
    assert (Hpct' : forall pct, In (EvProgress pct) tr -> 0 <= pct <= 100).
    { intros pct Hin. apply Hpct. now right. }
    assert (Hstep : 0 <= m_progress (deliver f e) <= 100 /\
                    m_inputPath (deliver f e) = m_inputPath f /\
                    m_formatChoice (deliver f e) = m_formatChoice f /\
                    m_reencodeCheck (deliver f e) = m_reencodeCheck f /\
                    appended (m_log (deliver f e)) (logged tr)
                    = match e with
                      | EvLog s => appended (m_log f) (s :: logged tr)
                      | _ => appended (m_log f) (logged tr)
                      end /\
                    (e = EvSetRunning false ->
                     m_running (deliver f e) = false)).
    { destruct e; try (cbn; repeat split; (lia || discriminate || reflexivity)).
      - simpl in He. apply negb_true_iff in He.
        unfold deliver, queued, on_log_update. rewrite He. cbn.
        repeat split; (lia || discriminate || reflexivity).
      - assert (Hp : 0 <= pct <= 100) by (apply Hpct; now left).
        rewrite progress_message_number_delivered by
          (unfold INT_MIN, INT_MAX; lia).
        cbn. repeat split; (lia || discriminate || reflexivity).
      - cbn. repeat split; try lia; try reflexivity.
        intros [= ->]. reflexivity. }
    destruct Hstep as (S1 & S2 & S3 & S4 & S5 & S6).
    destruct (IH Hplain Hpct' (deliver f e) S1) as (I1 & I2 & I3 & I4 & I5 & I6).
    cbv zeta. repeat split; try lia; try congruence.
    + rewrite I2, S5. now destruct e.
    + intros [-> | Hin]; [|now apply I6].
      (* the flag was reset here; nothing later sets it *)
      clear - Hplain S6.
      specialize (S6 eq_refl).
      revert S6. generalize (deliver f (EvSetRunning false)).
      induction tr as [|x tr IHtr]; intros g Hg; [exact Hg|].
      apply Forall_cons_iff in Hplain as [Hx Hplain]. cbn [fold_left].
      apply (IHtr Hplain).
      destruct x; try exact Hg.
      * unfold deliver, queued, on_log_update.
        now destruct (prefix "PROGRESS:" s).
      * unfold deliver, queued, on_log_update.
        now destruct (prefix "PROGRESS:" _).
      * simpl in Hx. apply negb_true_iff in Hx. now rewrite Hx.
Qed.

(** The frame ends in the same state whether the queued strings are handled
    as they are sent or only after all the stores of the flag. *)
Lemma stores_before_queue (tr : list event) (f : MainFrame) :
  fold_left deliver tr f
  = fold_left deliver (queue tr) (fold_left deliver (stores tr) f).
Proof.
  assert (Hswap : forall q b g,
             fold_left deliver (queue q) (set_running g b)
             = set_running (fold_left deliver (queue q) g) b).
  { induction q as [|e q IH]; intros b g; [reflexivity|].
    unfold queue in *. cbn [filter].
    destruct e; cbn [is_store negb fold_left]; try apply IH;
      try (cbn [deliver queued]; apply IH).
    - replace (deliver (set_running g b) (EvLog s))
        with (set_running (deliver g (EvLog s)) b); [apply IH|].
      unfold deliver, queued, on_log_update.
      now destruct (prefix "PROGRESS:" s).
    - replace (deliver (set_running g b) (EvProgress pct))
        with (set_running (deliver g (EvProgress pct)) b); [apply IH|].
      unfold deliver, queued, on_log_update.
      now destruct (prefix "PROGRESS:" _). }
  assert (Hq : forall q g,
             fold_left deliver (stores q) (fold_left deliver (queue q) g)
             = fold_left deliver q g).
  { induction q as [|e q IH]; intros g; [reflexivity|].
    unfold stores, queue in *. cbn [filter].
    destruct (is_store e) eqn:He; cbn [negb fold_left].
    - destruct e; try discriminate He. cbn [deliver].
      rewrite <- IH. f_equal. symmetry. apply Hswap.
    - apply IH. }
  assert (Hs : forall q g h,
             fold_left deliver (queue q) (fold_left deliver (stores h) g)
             = fold_left deliver (stores h) (fold_left deliver (queue q) g)).
  { intros q g h. revert g. unfold stores.
    induction h as [|e h IH]; intros g; [reflexivity|]. cbn [filter].
    destruct e; cbn [is_store]; try apply IH.
    cbn [fold_left deliver]. rewrite IH. f_equal. apply Hswap. }
  rewrite Hs. symmetry. apply Hq.
Qed.

(** X12. One conversion seen from the frame.  [OnStart] on an idle frame
    with an input path starts one thread for the chosen input and sets the
    running flag; while the flag is set another [OnStart] changes nothing
    and only shows a message, and [OnClose] asks before it destroys the
    frame.  When the events of the whole job have reached the frame,
    whatever the libraries answered, the flag is clear again, the gauge is
    between 0 and 100, the log holds exactly the lines of the job in order,
    the choices of the user are untouched, and the frame closes without a
    question. *)
Theorem conversion_session (f : MainFrame) (w : World) :
  m_running f = false ->
  m_inputPath f <> "" ->
  let f1 := fst (OnStart f true) in
  let f2 := fold_left deliver (Entry w) f1 in
  snd (OnStart f true)
  = [RunThread (m_inputPath f) (m_formatChoice f) (m_reencodeCheck f)] /\
  m_running f1 = true /\
  (forall runs,
      OnStart f1 runs
      = (f1, [MessageBox "Conversion already running" "Info"])) /\
  (forall yes, hd_error (OnClose f1 yes)
               = Some (MessageBox "A conversion is running. Quit anyway?"
                         "Confirm")) /\
  m_running f2 = false /\
  0 <= m_progress f2 <= 100 /\
  m_log f2 = appended "" (logged (Entry w)) /\
  m_inputPath f2 = m_inputPath f /\
  m_formatChoice f2 = m_formatChoice f /\
  m_reencodeCheck f2 = m_reencodeCheck f /\
  (forall yes, OnClose f2 yes = [Destroy]).
Proof.
  intros Hidle Hpath. cbv zeta.
  assert (Hne : String.eqb (m_inputPath f) "" = false).
  { apply String.eqb_neq. exact Hpath. }
  assert (Hstart : OnStart f true
                   = (set_running (set_progress (set_log f "") 0) true,
                      [RunThread (m_inputPath f) (m_formatChoice f)
                         (m_reencodeCheck f)])).
  { unfold OnStart. rewrite Hidle, Hne. reflexivity. }
  rewrite Hstart. cbn [fst snd].
  set (f1 := set_running (set_progress (set_log f "") 0) true).
  assert (H1 : 0 <= m_progress f1 <= 100) by (cbn; lia).
  destruct (deliver_all (Entry w) (Entry_plain_for_frame w)
              (Entry_progress_range w) f1 H1)
    as (I1 & I2 & I3 & I4 & I5 & I6).
  specialize (I6 (Entry_resets_flag w)).
  repeat split; try reflexivity; try lia; try assumption.
  - intros yes. unfold OnClose. cbn [f1 set_running m_running].
    now destruct yes.
  - intros yes. unfold OnClose. now rewrite I6.
Qed.

Lemma conversion_session_witness :
  let f := {| m_running := false; m_inputPath := "/v/in.avi";
              m_formatChoice := "mkv"; m_reencodeCheck := false;
              m_log := "old"; m_progress := 37 |} in
  m_running (fold_left deliver (Entry Sample.remux_job)
               (fst (OnStart f true))) = false.
Proof.
  intros f.
  refine (proj1 (proj2 (proj2 (proj2 (proj2
            (conversion_session f Sample.remux_job _ _)))))).
  - reflexivity.
  - discriminate.
Defined.

(** ** A failed write *)

Lemma write_progress_events (w : World) (ts : Z) (tb : AVRational) :
  run write_step Accepting (progress_events w ts tb) = Some Accepting.
Proof.
  unfold progress_events.
  now destruct ((in_duration w >? 0) && negb (ts =? AV_NOPTS_VALUE)).
Qed.

Lemma write_remux_loop (w : World) (mapping : list Z) (pkts : list AVPacket) :
  forall nw np,
    run write_step Accepting (remux_loop w mapping pkts nw np)
    = Some Accepting \/
    run write_step Accepting (remux_loop w mapping pkts nw np)
    = Some Refused.
Proof.
  induction pkts as [|pkt rest IH]; intros nw np; cbn [remux_loop];
    [now left|].
  cbn [run write_step].
  destruct (lookup_mapping mapping (stream_index pkt)) as [o|]; [|apply IH].
  cbn [run write_step].
  destruct (w_write_frame w nw <? 0); [now right|].
  rewrite run_app, write_progress_events. cbn [run write_step].
  destruct (w_test_destroy w np); [now left | apply IH].
Qed.

Section WriteLoops.

Variable w : World.
Variable v : Z.
Variable mapping : list Z.
Variable enc_tb : AVRational.

Local Abbreviation going tr := (run write_step Accepting tr = Some Accepting).
Local Abbreviation stopped tr := (run write_step Accepting tr = Some Refused).

Lemma write_receive_packets (q : list (recv AVPacket)) :
  forall ret nw,
    match receive_packets w v mapping enc_tb q ret nw with
    | (evs, Some _) => going evs
    | (evs, None) => going evs \/ stopped evs
    end.
Proof.
  induction q as [|[p|e] q IH]; intros ret nw; cbn [receive_packets];
    destruct (ret <? 0); try reflexivity.
  - destruct (w_write_frame w nw <? 0) eqn:Hw.
    + cbn. rewrite Hw. now right.
    + specialize (IH (w_write_frame w nw) (S nw)).
      destruct (receive_packets w v mapping enc_tb q (w_write_frame w nw)
                  (S nw)) as [evs [r|]];
        cbn [emit fst snd app run write_step]; rewrite Hw; exact IH.
  - destruct (again_or_eof (Z.neg e)); [reflexivity | now left].
Qed.

Lemma write_receive_frames (q : list (recv AVFrame)) :
  forall ret j,
    match receive_frames w v mapping enc_tb q ret j with
    | (evs, Some _) => going evs
    | (evs, None) => going evs \/ stopped evs
    end.
Proof.
  induction q as [|[f|e] q IH]; intros ret j; cbn [receive_frames];
    destruct (ret <? 0); try reflexivity.
  - destruct (enc_send w (enc_sent j) (scale_frame w f)) as [r outs].
    destruct (r <? 0); [now left|].
    pose proof (write_receive_packets (enc_ready j ++ outs) r (n_write j))
      as Hp.
    destruct (receive_packets w v mapping enc_tb (enc_ready j ++ outs) r
                (n_write j)) as [evs [[[r' eq'] nw']|]];
      cbn [emit fst snd app run write_step]; [|exact Hp].
    destruct (w_test_destroy w (n_poll j)).
    + cbn [emit fst snd]. left.
      rewrite <- !app_assoc, run_app, Hp, run_app, write_progress_events.
      reflexivity.
    + match goal with
      | |- context [receive_frames w v mapping enc_tb q r' ?j'] =>
          specialize (IH r' j');
          destruct (receive_frames w v mapping enc_tb q r' j')
            as [evs' [r''|]]
      end;
        cbn [emit fst snd];
        rewrite <- !app_assoc, run_app, Hp, run_app, write_progress_events;
        exact IH.
  - destruct (again_or_eof (Z.neg e)); [reflexivity | now left].
Qed.

Lemma write_transcode_loop (pkts : list AVPacket) :
  forall j,
    match transcode_loop w v mapping enc_tb pkts j with
    | (evs, Some _) => going evs
    | (evs, None) => going evs \/ stopped evs
    end.
Proof.
  induction pkts as [|pkt rest IH]; intros j; cbn [transcode_loop];
    [reflexivity|].
  destruct (stream_index pkt =? v).
  - destruct (dec_send w (dec_sent j) pkt) as [ret frames].
    destruct (ret <? 0); [reflexivity|].
    pose proof (write_receive_frames (dec_ready j ++ frames) ret j) as Hf.
    destruct (receive_frames w v mapping enc_tb (dec_ready j ++ frames) ret j)
      as [evs [[q' j']|]]; cbn [emit fst snd app run write_step];
      [|exact Hf].
    specialize (IH (set_decoder j' (dec_sent j ++ [pkt]) q')).
    destruct (transcode_loop w v mapping enc_tb rest
                (set_decoder j' (dec_sent j ++ [pkt]) q')) as [evs' [j''|]];
      cbn [emit fst snd]; rewrite run_app, Hf; exact IH.
  - destruct (lookup_mapping mapping (stream_index pkt)) as [o|].
    + destruct (w_write_frame w (n_write j) <? 0) eqn:Hw.
      * cbn. rewrite Hw. now right.
      * specialize (IH (count_write j)).
        destruct (transcode_loop w v mapping enc_tb rest (count_write j))
          as [evs' [j''|]]; cbn [emit fst snd app run write_step];
          rewrite Hw; exact IH.
    + specialize (IH j).
      destruct (transcode_loop w v mapping enc_tb rest j) as [evs' [j''|]];
        exact IH.
Qed.

Lemma write_flush_packets (q : list (recv AVPacket)) :
  forall nw,
    run write_step Flushing (flush_packets w v mapping enc_tb q nw)
    = Some Flushing.
Proof.
  induction q as [|[p|e] q IH]; intros nw; cbn [flush_packets];
    [reflexivity | apply IH |].
  now destruct (again_or_eof (Z.neg e)).
Qed.

End WriteLoops.

Lemma write_cleanup (w : World) (out : string) (s : Writing) :
  run write_step s (cleanup w out) = Some s.
Proof.
  unfold cleanup, avio_closep. now destruct (has_file w), s.
Qed.

Lemma write_remux_run (w : World) (mapping : list Z) (out : string) :
  run write_step Accepting
    (remux_loop w mapping (in_packets w) O O ++ remux_finish w out) <> None.
Proof.
  rewrite run_app.
  destruct (write_remux_loop w mapping (in_packets w) O O) as [-> | ->];
    unfold remux_finish, avio_closep; now destruct (has_file w).
Qed.

Lemma write_transcode_run (w : World) (v : Z) (mapping : list Z)
  (out : string) :
  run write_step Accepting (transcode_run w v mapping out) <> None.
Proof.
  unfold transcode_run.
  pose proof (write_transcode_loop w v mapping (encoder_time_base w v)
                (in_packets w) init_job) as Hl.
  destruct (transcode_loop w v mapping (encoder_time_base w v) (in_packets w)
              init_job) as [evs [j|]].
  - rewrite run_app, Hl. unfold flush_encoder. cbn [app run write_step].
    rewrite <- app_assoc, run_app, write_flush_packets.
    cbn [app run write_step is_packet_step]. now rewrite write_cleanup.
  - rewrite run_app. destruct Hl as [-> | ->]; cbn [app];
      now rewrite write_cleanup.
Qed.

(** X13. A write that fails in a packet loop ends the work on packets: after
    it the job reads no packet, calls no codec, writes nothing more, reports
    no progress and does not poll for cancellation, whatever the libraries
    answer afterwards.  Only the writes of the encoder flush, where the
    result of the write is dropped, can follow a failed write; and once the
    encoder was told that no frame follows, the job only receives packets
    from it and writes them. *)
Theorem failed_write_stops_the_work (w : World) :
  run write_step Accepting (Entry w) <> None.
Proof.
  entry_branches w; follow; try discriminate;
    first [apply write_remux_run | apply write_transcode_run].
Qed.

(** ** What the decoder is given *)

Lemma sent_packets_app (a b : list event) :
  sent_packets (a ++ b) = sent_packets a ++ sent_packets b.
Proof.
  induction a as [|e a IH]; [reflexivity|].
  destruct e as [| | | | | | | | | | | | | | | | | | | |[p|] r| | | | | |];
    cbn [app sent_packets]; now rewrite IH.
Qed.

Lemma no_feed_quiet (tr : list event) :
  Forall (fun e => no_feed e = true) tr ->
  sent_packets tr = [] /\ ~ In (EvReadFrame None) tr.
Proof.
  induction 1 as [|e tr He _ [IH1 IH2]]; [split; [reflexivity | intros []]|].
  split.
  - destruct e; try discriminate He; exact IH1.
  - intros [-> | Hin]; [discriminate He | now apply IH2].
Qed.

Lemma setup_no_feed (tr : list event) :
  setup_only tr -> Forall (fun e => no_feed e = true) tr.
Proof.
  apply Forall_impl. intros e He. destruct e; try reflexivity; discriminate He.
Qed.

Ltac no_feed_events :=
  repeat first
    [ apply Forall_nil
    | apply Forall_cons; [reflexivity|]
    | apply Forall_app; split
    | rewrite fst_emit ].

Section DecoderFeed.

Variable w : World.
Variable v : Z.
Variable mapping : list Z.
Variable enc_tb : AVRational.

Local Abbreviation quiet tr := (Forall (fun e => no_feed e = true) tr).

Lemma no_feed_receive_packets (q : list (recv AVPacket)) :
  forall ret nw, quiet (fst (receive_packets w v mapping enc_tb q ret nw)).
Proof.
  induction q as [|[p|e] q IH]; intros ret nw; cbn [receive_packets];
    destruct (ret <? 0); cbn [fst]; try (no_feed_events; fail).
  - no_feed_events.
    destruct (w_write_frame w nw <? 0); [no_feed_events | apply IH].
  - destruct (again_or_eof (Z.neg e)); no_feed_events.
Qed.

Lemma no_feed_receive_frames (q : list (recv AVFrame)) :
  forall ret j, quiet (fst (receive_frames w v mapping enc_tb q ret j)).
Proof.
  induction q as [|[f|e] q IH]; intros ret j; cbn [receive_frames];
    destruct (ret <? 0); cbn [fst]; try (no_feed_events; fail).
  - destruct (enc_send w (enc_sent j) (scale_frame w f)) as [r outs].
    no_feed_events.
    destruct (r <? 0); [no_feed_events|].
    pose proof (no_feed_receive_packets (enc_ready j ++ outs) r (n_write j))
      as Hp.
    destruct (receive_packets w v mapping enc_tb (enc_ready j ++ outs) r
                (n_write j)) as [evs [[[r' eq'] nw']|]]; cbn [fst] in *;
      [|exact Hp].
    no_feed_events; try exact Hp.
    + unfold progress_events.
      destruct ((in_duration w >? 0) && negb (frame_pts f =? AV_NOPTS_VALUE));
        no_feed_events.
    + destruct (w_test_destroy w (n_poll j)); [no_feed_events | apply IH].
  - destruct (again_or_eof (Z.neg e)); no_feed_events.
Qed.

Lemma no_feed_flush_packets (q : list (recv AVPacket)) :
  forall nw, quiet (flush_packets w v mapping enc_tb q nw).
Proof.
  induction q as [|[p|e] q IH]; intros nw; cbn [flush_packets].
  - no_feed_events.
  - no_feed_events. apply IH.
  - destruct (again_or_eof (Z.neg e)); no_feed_events.
Qed.

(** The packet loop hands the packets of stream [v] to the decoder in the
    order of the input, and all of them when the input was read to its end. *)
Lemma feed_transcode_loop (pkts : list AVPacket) :
  forall j,
    exists rest,
      filter (fun p => stream_index p =? v) pkts
      = sent_packets (fst (transcode_loop w v mapping enc_tb pkts j))
        ++ rest /\
      (In (EvReadFrame None) (fst (transcode_loop w v mapping enc_tb pkts j))
       -> rest = []).
Proof.
  induction pkts as [|pkt rest IH]; intros j;
    cbn [transcode_loop filter fst].
  - exists []. split; [reflexivity | reflexivity].
  - rewrite fst_emit. cbn [app sent_packets].
    destruct (stream_index pkt =? v).
    + destruct (dec_send w (dec_sent j) pkt) as [ret frames].
      rewrite fst_emit. cbn [app sent_packets].
      destruct (ret <? 0).
      { exists (filter (fun p => stream_index p =? v) rest).
        split; [reflexivity|].
        intros [H | [H | [H | []]]]; discriminate H. }
      destruct (no_feed_quiet _
                  (no_feed_receive_frames (dec_ready j ++ frames) ret j))
        as [Hs Hr].
      destruct (receive_frames w v mapping enc_tb (dec_ready j ++ frames) ret j)
        as [evs [[q' j']|]]; cbn [fst] in *.
      * destruct (IH (set_decoder j' (dec_sent j ++ [pkt]) q'))
          as (rest' & Heq & Hend).
        exists rest'. rewrite fst_emit, sent_packets_app, Hs. cbn [app].
        split; [now rewrite Heq|].
        intros [H | [H | H]]; try discriminate H.
        apply in_app_or in H as [H | H]; [now elim Hr | now apply Hend].
      * exists (filter (fun p => stream_index p =? v) rest).
        rewrite Hs. split; [reflexivity|].
        intros [H | [H | H]]; try discriminate H. now elim Hr.
    + destruct (lookup_mapping mapping (stream_index pkt)) as [o|].
      * rewrite fst_emit. cbn [app sent_packets].
        destruct (w_write_frame w (n_write j) <? 0).
        { exists (filter (fun p => stream_index p =? v) rest).
          split; [reflexivity|].
          intros [H | [H | [H | []]]]; discriminate H. }
        destruct (IH (count_write j)) as (rest' & Heq & Hend).
        exists rest'. split; [exact Heq|].
        intros [H | [H | H]]; try discriminate H. now apply Hend.
      * destruct (IH j) as (rest' & Heq & Hend).
        exists rest'. split; [exact Heq|].
        intros [H | H]; try discriminate H. now apply Hend.
Qed.

End DecoderFeed.

Lemma no_feed_cleanup (w : World) (out : string) :
  Forall (fun e => no_feed e = true) (cleanup w out).
Proof.
  unfold cleanup, avio_closep. destruct (has_file w); no_feed_events.
Qed.

(** X14. In a re-encode job the packets handed to the decoder are packets of
    the selected video stream, in the order of the input and without a gap:
    they are a prefix of the video packets of the input.  When the job has
    read the input to its end, every video packet of the input was handed to
    the decoder. *)
Theorem decoder_fed_in_order (w : World) :
  m_reencode w = true ->
  exists rest,
    filter (fun p => stream_index p =? find_video_stream (in_streams w))
      (in_packets w)
    = sent_packets (Entry w) ++ rest /\
    (In (EvReadFrame None) (Entry w) -> rest = []).
Proof.
  intros Hmode.
  destruct (Entry_shape w) as [Hsetup | pre mapping Hre _ _ _
                              | pre mapping _ Hpre _ _ Hentry].
  - destruct (no_feed_quiet _ (setup_no_feed _ Hsetup)) as [Hs Hr].
    rewrite Hs. eexists. split; [reflexivity|]. intros H. now elim Hr.
  - congruence.
  - destruct (no_feed_quiet _ (setup_no_feed _ Hpre)) as [Hs Hr].
    set (v := find_video_stream (in_streams w)) in *.
    set (out := make_output_path (m_input w) (m_outFormat w)) in *.
    destruct (feed_transcode_loop w v mapping (encoder_time_base w v)
                (in_packets w) init_job) as (rest & Heq & Hend).
    destruct (no_feed_quiet _ (no_feed_cleanup w out)) as [Hcs Hcr].
    rewrite Hentry, sent_packets_app, Hs. cbn [app sent_packets].
    destruct (transcode_run_cases w v mapping out)
      as [(evs & j & Hrun & ->) | (evs & Hrun & ->)];
      rewrite Hrun in Heq, Hend; cbn [fst] in Heq, Hend;
      exists rest; rewrite !sent_packets_app, ?Hcs, ?app_nil_r.
    + assert (Hf : Forall (fun e => no_feed e = true)
                     (flush_encoder w v mapping (encoder_time_base w v) j)).
      { unfold flush_encoder. no_feed_events. apply no_feed_flush_packets. }
      destruct (no_feed_quiet _ Hf) as [Hfs Hfr].
      rewrite Hfs, app_nil_r. split; [exact Heq|].
      intros H. apply in_app_or in H as [H | [H | H]];
        [now elim Hr | discriminate H |].
      apply in_app_or in H as [H | H]; [now apply Hend|].
      apply in_app_or in H as [H | H]; [now elim Hfr | now elim Hcr].
    + split; [exact Heq|].
      intros H. apply in_app_or in H as [H | [H | H]];
        [now elim Hr | discriminate H |].
      apply in_app_or in H as [H | H]; [now apply Hend | now elim Hcr].
Qed.

Lemma decoder_fed_in_order_witness :
  exists rest,
    filter (fun p => stream_index p
                     =? find_video_stream (in_streams Sample.transcode_job))
      (in_packets Sample.transcode_job)
    = sent_packets (Entry Sample.transcode_job) ++ rest /\
    (In (EvReadFrame None) (Entry Sample.transcode_job) -> rest = []).
Proof.
  apply (decoder_fed_in_order Sample.transcode_job). reflexivity.
Defined.

(** ** The polls of each pass of the packet loop *)

Lemma cut_quiet (a b : list event) :
  Forall (fun e => is_read_frame e = false) a ->
  cut (a ++ b) = (a ++ fst (cut b), snd (cut b)).
Proof.
  induction 1 as [|e a He _ IH]; cbn [app cut].
  - now destruct (cut b).
  - rewrite IH, He. reflexivity.
Qed.

Lemma cut_all_quiet (a : list event) :
  Forall (fun e => is_read_frame e = false) a -> cut a = (a, []).
Proof.
  intros H. rewrite <- (app_nil_r a) at 1. rewrite (cut_quiet a [] H).
  cbn. now rewrite app_nil_r.
Qed.

(** A pass: the read, the events [body] up to the next read, then [K]. *)
Lemma cut_pass (r : option AVPacket) (body K : list event) :
  Forall (fun e => is_read_frame e = false) body ->
  cut (EvReadFrame r :: body ++ K)
  = ([], (EvReadFrame r :: body ++ fst (cut K)) :: snd (cut K)).
Proof.
  intros H. cbn [cut]. rewrite (cut_quiet body K H). reflexivity.
Qed.

Lemma count_nil (f : event -> bool) : count f [] = O.
Proof. reflexivity. Qed.

Ltac counts :=
  rewrite ?count_app, ?count_cons, ?count_nil;
  cbn [is_poll is_written is_frame is_failure];
  repeat match goal with
         | H : (?r <? 0) = _ |- context [?r <? 0] => rewrite H
         end;
  cbn [andb].

Lemma pass_quiet (reencode : bool) (v : Z) (it : list event) :
  Forall (fun e => is_read_frame e = false) it ->
  count is_poll it = O -> pass_polled reencode v it.
Proof.
  intros Hq Hp. destruct it as [|e it]; [exact Hp|].
  apply Forall_inv in Hq. destruct e; try exact Hp. discriminate Hq.
Qed.

Lemma pass_end (reencode : bool) (v : Z) (h : list event) :
  count is_poll h = O -> pass_polled reencode v (EvReadFrame None :: h).
Proof. intros Hp. cbn [pass_polled]. counts. now rewrite Hp. Qed.

Lemma pass_remux (v : Z) (p : AVPacket) (body h : list event) :
  count is_poll body = count is_written body ->
  (count is_written body <= 1)%nat ->
  count is_poll h = O -> count is_written h = O ->
  pass_polled false v (EvReadFrame (Some p) :: body ++ h).
Proof. intros H1 H2 H3 H4. cbn [pass_polled]. counts. lia. Qed.

Lemma pass_transcode (v : Z) (p : AVPacket) (body h : list event) :
  (count is_poll body <= 1)%nat ->
  (count is_poll body <= count is_frame body)%nat ->
  (count is_failure body = O -> count is_poll body = count is_frame body) ->
  (stream_index p <> v -> count is_poll body = O) ->
  count is_poll h = O -> count is_frame h = O ->
  pass_polled true v (EvReadFrame (Some p) :: body ++ h).
Proof.
  intros H1 H2 H3 H4 H5 H6. cbn [pass_polled]. counts.
  repeat split; try lia;
    try (intros Hf; rewrite H3; lia);
    try (intros Hv; specialize (H4 Hv); lia).
Qed.

Lemma closing_no_read (tr : list event) :
  Forall (fun e => is_closing e = true) tr ->
  Forall (fun e => is_read_frame e = false) tr /\
  count is_poll tr = O /\ count is_written tr = O.
Proof.
  intros H. repeat split.
  - revert H. apply Forall_impl. intros e He.
    destruct e; try reflexivity; discriminate He.
  - apply count_none. revert H. apply Forall_impl. intros e He.
    destruct e; try reflexivity; discriminate He.
  - apply count_none. revert H. apply Forall_impl. intros e He.
    destruct e; try reflexivity; discriminate He.
Qed.

(** Rewrites the trace under [cut] as a pass: read, [body], [K]. *)
Ltac as_pass r body K :=
  match goal with
  | |- context [cut ?t] =>
      replace t with (EvReadFrame r :: body ++ K)
        by (cbn [app fst snd emit]; rewrite <- ?app_assoc; reflexivity)
  end.

Lemma passes_remux_loop (w : World) (v : Z) (mapping : list Z)
  (pkts : list AVPacket) (K : list event) :
  count is_poll (fst (cut K)) = O ->
  count is_written (fst (cut K)) = O ->
  Forall (pass_polled false v) (snd (cut K)) ->
  forall nw np,
    fst (cut (remux_loop w mapping pkts nw np ++ K)) = [] /\
    Forall (pass_polled false v)
      (snd (cut (remux_loop w mapping pkts nw np ++ K))).
Proof.
  intros Kp Kw Kall.
  induction pkts as [|pkt rest IH]; intros nw np; cbn [remux_loop].
  - as_pass (@None AVPacket) (@nil event) K.
    rewrite cut_pass by constructor. cbn [fst snd app].
    split; [reflexivity|]. constructor; [now apply pass_end | exact Kall].
  - destruct (lookup_mapping mapping (stream_index pkt)) as [o|].
    + set (pkt' := copy_packet _ _ o pkt).
      destruct (w_write_frame w nw <? 0) eqn:Hret.
      * as_pass (Some pkt)
          [EvWriteFrame pkt' (w_write_frame w nw); EvLog "Error muxing packet"]
          K.
        rewrite cut_pass by (repeat constructor). cbn [fst snd].
        split; [reflexivity|]. constructor; [|exact Kall].
        apply pass_remux; try assumption; counts;
          replace (0 <=? w_write_frame w nw) with false; try lia;
          symmetry; apply Z.leb_gt; now apply Z.ltb_lt.
      * assert (Hok : (0 <=? w_write_frame w nw) = true).
        { apply Z.leb_le. apply Z.ltb_ge in Hret. exact Hret. }
        unfold progress_events, after_write. cbn [pts blank_packet].
        rewrite Z.eqb_refl, andb_false_r. cbn [negb app].
        destruct (w_test_destroy w np).
        -- as_pass (Some pkt)
             [EvWriteFrame pkt' (w_write_frame w nw); EvTestDestroy true;
              EvLog "Conversion cancelled"] K.
           rewrite cut_pass by (repeat constructor). cbn [fst snd].
           split; [reflexivity|]. constructor; [|exact Kall].
           apply pass_remux; try assumption; counts; rewrite Hok; lia.
        -- destruct (IH (S nw) (S np)) as [Ih1 Ih2].
           as_pass (Some pkt)
             [EvWriteFrame pkt' (w_write_frame w nw); EvTestDestroy false]
             (remux_loop w mapping rest (S nw) (S np) ++ K).
           rewrite cut_pass by (repeat constructor). cbn [fst snd].
           rewrite Ih1. split; [reflexivity|]. constructor; [|exact Ih2].
           apply pass_remux; counts; rewrite ?Hok; lia.
    + destruct (IH nw np) as [Ih1 Ih2].
      as_pass (Some pkt) (@nil event) (remux_loop w mapping rest nw np ++ K).
      rewrite cut_pass by constructor. cbn [fst snd app]. rewrite Ih1.
      split; [reflexivity|]. constructor; [|exact Ih2].
      cbn [pass_polled]. counts. lia.
Qed.

Section TranscodePasses.

Variable w : World.
Variable v : Z.
Variable mapping : list Z.
Variable enc_tb : AVRational.

Lemma no_feed_no_read (tr : list event) :
  Forall (fun e => no_feed e = true) tr ->
  Forall (fun e => is_read_frame e = false) tr.
Proof.
  apply Forall_impl. intros e He. destruct e; try reflexivity; discriminate He.
Qed.

Lemma receive_packets_no_poll (q : list (recv AVPacket)) (ret : Z) (nw : nat) :
  count is_poll (fst (receive_packets w v mapping enc_tb q ret nw)) = O /\
  count is_frame (fst (receive_packets w v mapping enc_tb q ret nw)) = O.
Proof.
  pose proof (receive_packets_events w v mapping enc_tb [] q ret nw) as H.
  split; apply count_none; revert H; apply Forall_impl;
    now intros e (_ & H1 & H2 & _).
Qed.

Lemma progress_events_no_poll (ts : Z) (tb : AVRational) :
  count is_poll (progress_events w ts tb) = O /\
  count is_frame (progress_events w ts tb) = O.
Proof.
  unfold progress_events.
  now destruct ((in_duration w >? 0) && negb (ts =? AV_NOPTS_VALUE)).
Qed.

(** The loop over the packets of the encoder is only left by [goto cleanup]
    after a call that failed. *)
Lemma receive_packets_failed (q : list (recv AVPacket)) :
  forall ret nw evs,
    receive_packets w v mapping enc_tb q ret nw = (evs, None) ->
    count is_failure evs <> O.
Proof.
  induction q as [|[p|e] q IH]; intros ret nw evs; cbn [receive_packets];
    destruct (ret <? 0); try discriminate.
  - destruct (w_write_frame w nw <? 0) eqn:Hw.
    + intros [= <-]. counts. lia.
    + specialize (IH (w_write_frame w nw) (S nw)).
      destruct (receive_packets w v mapping enc_tb q (w_write_frame w nw)
                  (S nw)) as [evs' [x|]]; [discriminate|].
      intros [= <-]. cbn [fst app]. counts.
      specialize (IH evs' eq_refl). lia.
  - destruct (again_or_eof (Z.neg e)) eqn:Ha; [discriminate|].
    intros [= <-]. rewrite count_cons. cbn [is_failure]. rewrite Ha.
    cbn. lia.
Qed.

(** The flag is only polled after a frame was received, and it is polled
    after every frame when no call fails. *)
Lemma receive_frames_poll_after_frame (q : list (recv AVFrame)) :
  forall ret j,
    let evs := fst (receive_frames w v mapping enc_tb q ret j) in
    (count is_poll evs <= count is_frame evs)%nat /\
    (count is_failure evs = O -> count is_poll evs = count is_frame evs).
Proof.
  induction q as [|[f|e] q IH]; intros ret j; cbv zeta;
    cbn [receive_frames]; destruct (ret <? 0); cbn [fst]; counts;
    try (split; [lia | reflexivity]).
  - destruct (enc_send w (enc_sent j) (scale_frame w f)) as [r outs].
    rewrite fst_emit.
    destruct (r <? 0) eqn:Hr; [cbn [fst]; counts; lia|].
    destruct (receive_packets_no_poll (enc_ready j ++ outs) r (n_write j))
      as [Hp Hfr].
    pose proof (receive_packets_failed (enc_ready j ++ outs) r (n_write j))
      as Hfail.
    destruct (receive_packets w v mapping enc_tb (enc_ready j ++ outs) r
                (n_write j)) as [evs [[[r' eq'] nw']|]]; cbn [fst] in *.
    + clear Hfail. rewrite fst_emit.
      destruct (progress_events_no_poll (frame_pts f) (in_time_base w v))
        as [Hpp Hpf].
      destruct (w_test_destroy w (n_poll j)); cbn [fst].
      * counts. rewrite Hp, Hfr, Hpp, Hpf. lia.
      * match goal with
        | |- context [receive_frames w v mapping enc_tb q r' ?j'] =>
            specialize (IH r' j')
        end.
        cbv zeta in IH. destruct IH as [IH1 IH2].
        counts. rewrite Hp, Hfr, Hpp, Hpf. split; [lia|].
        intros Hf. rewrite IH2; lia.
    + specialize (Hfail evs eq_refl). counts. rewrite Hp, Hfr. lia.
  - destruct (again_or_eof (Z.neg e)) eqn:Ha; cbn [fst]; counts;
      split; try lia; try reflexivity.
Qed.

Local Abbreviation pass := (pass_polled true v).

Lemma passes_transcode_loop (pkts : list AVPacket)
  (T : option Job -> list event) :
  (forall x, count is_poll (fst (cut (T x))) = O /\
             count is_frame (fst (cut (T x))) = O /\
             Forall pass (snd (cut (T x)))) ->
  forall j,
    let r := transcode_loop w v mapping enc_tb pkts j in
    fst (cut (fst r ++ T (snd r))) = [] /\
    Forall pass (snd (cut (fst r ++ T (snd r)))).
Proof.
  intros HT.
  induction pkts as [|pkt rest IH]; intros j; cbv zeta;
    cbn [transcode_loop].
  - cbn [fst snd]. destruct (HT (Some j)) as (Tp & Tf & Tall).
    as_pass (@None AVPacket) (@nil event) (T (Some j)).
    rewrite cut_pass by constructor. cbn [fst snd app].
    split; [reflexivity|]. constructor; [now apply pass_end | exact Tall].
  - rewrite fst_emit, snd_emit.
    destruct (stream_index pkt =? v) eqn:Hv.
    + apply Z.eqb_eq in Hv.
      destruct (dec_send w (dec_sent j) pkt) as [ret frames].
      rewrite fst_emit, snd_emit.
      destruct (ret <? 0) eqn:Hret.
      { cbn [fst snd]. destruct (HT (Some j)) as (Tp & Tf & Tall).
        as_pass (Some pkt)
          [EvSendPacket (Some pkt) ret;
           EvLog "Error sending packet to decoder"] (T (Some j)).
        rewrite cut_pass by (repeat constructor). cbn [fst snd].
        split; [reflexivity|]. constructor; [|exact Tall].
        apply pass_transcode; try assumption; counts; try lia;
          try (intros _; lia). }
      pose proof (no_feed_no_read _
                    (no_feed_receive_frames w v mapping enc_tb
                       (dec_ready j ++ frames) ret j)) as Hq.
      destruct (receive_frames_poll_after_frame (dec_ready j ++ frames)
                  ret j) as [Hpf Hpe].
      destruct (receive_frames_facts w v mapping enc_tb []
                  (dec_ready j ++ frames) ret j) as (_ & Hp1 & _).
      destruct (receive_frames w v mapping enc_tb (dec_ready j ++ frames) ret j)
        as [evs [[q' j']|]]; cbn [fst snd] in *.
      * specialize (IH (set_decoder j' (dec_sent j ++ [pkt]) q')).
        cbv zeta in IH.
        destruct (transcode_loop w v mapping enc_tb rest
                    (set_decoder j' (dec_sent j ++ [pkt]) q'))
          as [evs' exit']; cbn [fst snd emit] in *.
        destruct IH as [Ih1 Ih2].
        as_pass (Some pkt) (EvSendPacket (Some pkt) ret :: evs)
          (evs' ++ T exit').
        rewrite cut_pass by (constructor; [reflexivity | exact Hq]).
        cbn [fst snd]. rewrite Ih1.
        split; [reflexivity|]. constructor; [|exact Ih2].
        apply pass_transcode; counts; try lia;
          try (intros Hne; now elim Hne).
      * destruct (HT None) as (Tp & Tf & Tall).
        as_pass (Some pkt) (EvSendPacket (Some pkt) ret :: evs) (T None).
        rewrite cut_pass by (constructor; [reflexivity | exact Hq]).
        cbn [fst snd].
        split; [reflexivity|]. constructor; [|exact Tall].
        apply pass_transcode; try assumption; counts; try lia;
          try (intros Hne; now elim Hne).
    + destruct (lookup_mapping mapping (stream_index pkt)) as [o|].
      * set (pkt' := copy_packet _ _ o pkt).
        rewrite fst_emit, snd_emit.
        destruct (w_write_frame w (n_write j) <? 0) eqn:Hw.
        { cbn [fst snd]. destruct (HT None) as (Tp & Tf & Tall).
          as_pass (Some pkt)
            [EvWriteFrame pkt' (w_write_frame w (n_write j));
             EvLog "Error muxing packet for non-video stream"] (T None).
          rewrite cut_pass by (repeat constructor). cbn [fst snd].
          split; [reflexivity|]. constructor; [|exact Tall].
          apply pass_transcode; try assumption; counts; try lia;
            try (intros _; lia). }
        specialize (IH (count_write j)). cbv zeta in IH.
        destruct (transcode_loop w v mapping enc_tb rest (count_write j))
          as [evs' exit']; cbn [fst snd] in *.
        destruct IH as [Ih1 Ih2].
        as_pass (Some pkt) [EvWriteFrame pkt' (w_write_frame w (n_write j))]
          (evs' ++ T exit').
        rewrite cut_pass by (repeat constructor). cbn [fst snd]. rewrite Ih1.
        split; [reflexivity|]. constructor; [|exact Ih2].
        apply pass_transcode; counts; try lia; try (intros _; lia).
      * specialize (IH j). cbv zeta in IH.
        destruct (transcode_loop w v mapping enc_tb rest j)
          as [evs' exit']; cbn [fst snd] in *.
        destruct IH as [Ih1 Ih2].
        as_pass (Some pkt) (@nil event) (evs' ++ T exit').
        rewrite cut_pass by constructor. cbn [fst snd app]. rewrite Ih1.
        split; [reflexivity|]. constructor; [|exact Ih2].
        cbn [pass_polled]. counts. repeat split; try lia.
Qed.

End TranscodePasses.

Lemma setup_no_read (tr : list event) :
  setup_only tr ->
  Forall (fun e => is_read_frame e = false) tr /\ count is_poll tr = O.
Proof.
  intros H. split.
  - revert H. apply Forall_impl. intros e He.
    destruct e; try reflexivity; discriminate He.
  - apply count_none. revert H. apply Forall_impl. intros e He.
    destruct e; try reflexivity; discriminate He.
Qed.

(** The pieces of a job: the part before the first read, then the passes. *)
Lemma Entry_passes (w : World) :
  Forall (pass_polled (m_reencode w) (find_video_stream (in_streams w)))
    (iterations (Entry w)).
Proof.
  set (out := make_output_path (m_input w) (m_outFormat w)).
  set (v := find_video_stream (in_streams w)).
  unfold iterations.
  destruct (Entry_shape w) as [H | pre mapping Hm Hpre Hh Heq
                                 | pre mapping Hm Hpre Hh Hv Heq].
  - destruct (setup_no_read _ H) as [Hq Hp].
    rewrite (cut_all_quiet _ Hq). cbn [fst snd].
    constructor; [now apply pass_quiet | constructor].
  - destruct (setup_no_read _ Hpre) as [Hq Hp].
    destruct (closing_no_read _ (remux_finish_closing w out))
      as (Fq & Fp & Fw).
    destruct (passes_remux_loop w v mapping (in_packets w)
                (remux_finish w out)
                ltac:(rewrite (cut_all_quiet _ Fq); exact Fp)
                ltac:(rewrite (cut_all_quiet _ Fq); exact Fw)
                ltac:(rewrite (cut_all_quiet _ Fq); constructor) O O)
      as [L1 L2].
    rewrite Heq, Hm. fold out.
    replace (pre ++ EvWriteHeader (w_write_header w) ::
             remux_loop w mapping (in_packets w) 0 0 ++ remux_finish w out)
      with ((pre ++ [EvWriteHeader (w_write_header w)]) ++
            remux_loop w mapping (in_packets w) 0 0 ++ remux_finish w out)
      by (rewrite <- app_assoc; reflexivity).
    rewrite cut_quiet by (apply Forall_app; split; [exact Hq|];
                          repeat constructor).
    cbn [fst snd]. rewrite L1, app_nil_r.
    constructor; [|exact L2].
    apply pass_quiet;
      [apply Forall_app; split; [exact Hq | repeat constructor]|].
    counts. rewrite Hp. reflexivity.
  - destruct (setup_no_read _ Hpre) as [Hq Hp].
    fold v in Heq. fold out in Heq.
    set (T := fun exit : option Job =>
                match exit with
                | Some j => flush_encoder w v mapping (encoder_time_base w v) j
                | None => []
                end ++ cleanup w out).
    assert (HT : forall x,
               count is_poll (fst (cut (T x))) = O /\
               count is_frame (fst (cut (T x))) = O /\
               Forall (pass_polled true v) (snd (cut (T x)))).
    { intros x.
      assert (Hn : Forall (fun e => no_feed e = true) (T x)).
      { unfold T. apply Forall_app. split; [|apply no_feed_cleanup].
        destruct x as [j|]; [|constructor].
        unfold flush_encoder. no_feed_events. apply no_feed_flush_packets. }
      rewrite (cut_all_quiet _ (no_feed_no_read _ Hn)). cbn [fst snd].
      assert (Hc : forall f, (forall e, is_closing e = true -> f e = false) ->
                     count f (cleanup w out) = O).
      { intros f Hf. apply closing_count; [exact Hf|].
        apply setup_closing, cleanup_closing. }
      assert (Hfl : forall j,
                 count is_poll
                   (flush_encoder w v mapping (encoder_time_base w v) j) = O
                 /\
                 count is_frame
                   (flush_encoder w v mapping (encoder_time_base w v) j) = O).
      { intros j.
        pose proof (flush_encoder_events w v mapping (encoder_time_base w v)
                      (in_packets w) j) as Hev.
        split; apply count_none; revert Hev; apply Forall_impl;
          now intros e (_ & H1 & H2 & _). }
      unfold T. rewrite !count_app.
      rewrite (Hc is_poll) by (intros e He; now apply closing_quiet).
      rewrite (Hc is_frame) by (intros e He; now apply closing_quiet).
      destruct x as [j|]; [|repeat split; constructor].
      destruct (Hfl j) as [-> ->]. repeat split. constructor. }
    pose proof (passes_transcode_loop w v mapping (encoder_time_base w v)
                  (in_packets w) T HT init_job) as HL.
    cbv zeta in HL.
    assert (Hrun : transcode_run w v mapping out
                   = fst (transcode_loop w v mapping (encoder_time_base w v)
                            (in_packets w) init_job) ++
                     T (snd (transcode_loop w v mapping
                               (encoder_time_base w v) (in_packets w)
                               init_job))).
    { unfold transcode_run, T.
      now destruct (transcode_loop w v mapping (encoder_time_base w v)
                      (in_packets w) init_job) as [evs [j|]]. }
    rewrite Heq, Hm, Hrun.
    match goal with
    | |- context [cut (pre ++ ?h :: ?rest)] =>
        replace (pre ++ h :: rest) with ((pre ++ [h]) ++ rest)
          by (rewrite <- app_assoc; reflexivity)
    end.
    rewrite cut_quiet by (apply Forall_app; split; [exact Hq|];
                          repeat constructor).
    destruct HL as [L1 L2]. cbn [fst snd]. rewrite L1, app_nil_r.
    constructor; [|exact L2].
    apply pass_quiet;
      [apply Forall_app; split; [exact Hq | repeat constructor]|].
    counts. rewrite Hp. reflexivity.
Qed.

(** C8, amended. Cut the trace of a job before every read of the input.  A
    pass of the remux loop polls the cancellation flag exactly once when its
    packet was written, and not at all when the packet is skipped or its
    write fails.  A pass of the re-encode loop polls at most once, only
    after a frame was received from the decoder, exactly once for each such
    frame when no call of the pass fails, and never for a packet of a
    stream that is not decoded.  Nothing polls before the first read or
    after the read that fails.  So the polls of a job are no more than the
    packets read (remux) or sent to the decoder (re-encode).  And when a poll
    answers yes, nothing that follows reads, decodes, encodes or writes a
    packet. *)
Theorem polled_once_then_stop (w : World) :
  Forall (pass_polled (m_reencode w) (find_video_stream (in_streams w)))
    (iterations (Entry w)) /\
  (count is_poll (Entry w)
   <= count (if m_reencode w then is_video_send else is_read) (Entry w))%nat /\
  (forall pre post,
      Entry w = pre ++ EvTestDestroy true :: post ->
      Forall (fun e => is_packet_work e = false) post).
Proof.
  split; [apply Entry_passes|]. split; [apply Entry_polls|].
  intros pre post Heq. rewrite (after_cancel w pre post Heq).
  constructor; [reflexivity|].
  assert (H : Forall (fun e => is_closing e = true)
                (if m_reencode w
                 then cleanup w (make_output_path (m_input w) (m_outFormat w))
                 else remux_finish w
                        (make_output_path (m_input w) (m_outFormat w)))).
  { destruct (m_reencode w);
      [apply setup_closing, cleanup_closing | apply remux_finish_closing]. }
  revert H. apply Forall_impl. intros e He. now apply closing_quiet.
Qed.

Lemma polled_once_then_stop_witness :
  Forall (fun e => is_packet_work e = false)
    (skipn 13 (Entry Sample.remux_cancelled)).
Proof.
  apply (proj2 (proj2 (polled_once_then_stop Sample.remux_cancelled))
           (firstn 12 (Entry Sample.remux_cancelled))).
  vm_compute. reflexivity.
Defined.
